(** * Speech-recognition data pipeline: waveform loading, transcript parsing,
      batch collation and the metadata hand-off of [data/data_loader.py].

    The Python code is embedded shallowly: exceptions become the [Raise]
    branch of [result], [self] objects become records that are passed and
    returned explicitly, Python lists that are shared between several
    names live in an explicit [heap], and floating-point cells are
    binary64 primitive floats (rounded to binary32 where the code stores
    them into a [torch.FloatTensor]). *)

From Stdlib Require Import ZArith Floats Uint63 Ascii String Lia.
From stdpp Require Import base option list strings gmap.

Local Open Scope Z_scope.

(** ** Exceptions and the error monad *)

Inductive exn :=
| IndexError | KeyError | TypeError | ValueError | ZeroDivisionError
| RuntimeError | IOError | NotImplementedError | OverflowError.

Inductive result (A : Type) :=
| Ok (a : A)
| Raise (e : exn).
Arguments Ok {A} a.
Arguments Raise {A} e.

#[global] Instance result_ret : MRet result := fun A a => Ok a.
#[global] Instance result_bind : MBind result := fun A B f m =>
  match m with
  | Ok a => f a
  | Raise e => Raise e
  end.

#[global] Instance result_fmap : FMap result := fun A B f m =>
  match m with
  | Ok a => Ok (f a)
  | Raise e => Raise e
  end.

Definition is_Ok {A} (r : result A) : Prop := exists a, r = Ok a.

Definition from_option {A} (e : exn) (o : option A) : result A :=
  match o with
  | Some a => Ok a
  | None => Raise e
  end.

(** Monadic left fold: the body of a [for] loop run over the list of its
    iteration values, stopping at the first exception. *)
Fixpoint foldM {S A} (f : S -> A -> result S) (s : S) (l : list A) : result S :=
  match l with
  | [] => Ok s
  | a :: l' => s' ← f s a; foldM f s' l'
  end.

(** ** Python primitives *)

(** [l[i]] on a Python list: negative indices count from the end, anything
    outside [-len, len) raises [IndexError]. *)
Definition py_index {A} (l : list A) (i : Z) : result A :=
  let n := Z.of_nat (length l) in
  if (0 <=? i) && (i <? n) then from_option IndexError (l !! Z.to_nat i)
  else if (- n <=? i) && (i <? 0) then from_option IndexError (l !! Z.to_nat (n + i))
  else Raise IndexError.

(** [max(l, key=key)]: the first element with the largest key; [ValueError]
    on an empty list. *)
Fixpoint py_max_from {A} (key : A -> nat) (best : A) (l : list A) : A :=
  match l with
  | [] => best
  | a :: l' => py_max_from key (if (key best <? key a)%nat then a else best) l'
  end.

Definition py_max {A} (key : A -> nat) (l : list A) : result A :=
  match l with
  | [] => Raise ValueError
  | a :: l' => Ok (py_max_from key a l')
  end.

(** ** Floating point *)

(** [float(n)] for a Python int: the nearest binary64 value. *)
Definition float_of_Z (z : Z) : float :=
  SF2Prim (binary_normalize prec emax z 0 false).

(** Rounding of a binary64 value to the nearest binary32 value, as done
    when a Python float is stored into a cell of a [torch.FloatTensor]. *)
Definition to_float32 (f : float) : float :=
  match Prim2SF f with
  | S754_finite s m e => SF2Prim (binary_normalize 24 128 (cond_Zopp s (Zpos m)) e s)
  | _ => f
  end.

(** [a / float(b)] for Python ints [a] and [b]. *)
Definition py_truediv (a b : Z) : result float :=
  if b =? 0 then Raise ZeroDivisionError
  else Ok (PrimFloat.div (float_of_Z a) (float_of_Z b)).

(** [math.ceil(a / float(b))] for Python ints [a >= 0] and [b].  For
    operands below [2^53] the binary64 quotient is correctly rounded and
    its ceiling is the ceiling of the exact quotient, which is what is
    computed here. *)
Definition py_ceil_div (a b : Z) : result Z :=
  if b =? 0 then Raise ZeroDivisionError
  else Ok (- ((- a) / b)).

(** ** Waveform loader *)

(** A decoded numpy array of samples: 0-, 1- or 2-dimensional (the last
    one as [frames] rows of [channels] samples each). *)
Inductive ndarray :=
| Arr0 (x : float)
| Arr1 (xs : list float)
| Arr2 (frames channels : nat) (rows : list (list float)).

Section WaveformLoader.

(** [numpy]'s mean of one row of channel samples. *)
Variable np_mean : list float -> float.

(** [sound.squeeze()] on a 2-D array with one column: every axis of
    size one disappears, so a single frame gives a 0-d array. *)
Definition squeeze (frames : nat) (rows : list (list float)) : ndarray :=
  match frames, concat rows with
  | 1%nat, [x] => Arr0 x
  | _, xs => Arr1 xs
  end.

(** Lines 22-26 of [load_audio]: collapse to mono. *)
Definition to_mono (sound : ndarray) : ndarray :=
  match sound with
  | Arr2 frames channels rows =>
      if (channels =? 1)%nat then squeeze frames rows
      else Arr1 (map np_mean rows)
  | _ => sound
  end.

(** Lines 27-33 on a one-dimensional array. *)
Definition tile_truncate (sound : list float) (audio_truncation : Z)
  : result (list float) :=
  let len := Z.of_nat (length sound) in
  tiled ← (if len <? audio_truncation then
             repeats ← py_ceil_div (audio_truncation - len) len;
             let appendage := sound in
             Ok (Nat.iter (Z.to_nat repeats) (fun s => s ++ appendage) sound)
           else Ok sound);
  Ok (take (Z.to_nat audio_truncation) tiled).

(** [load_audio(path, audio_truncation)], given the array that
    [torchaudio.load(path)] decoded.  After the collapse to mono the
    array is one-dimensional, except for the 0-d array left by
    [squeeze], on which [sound.shape[0]] raises. *)
Definition load_audio (decoded : ndarray) (audio_truncation : Z) : result ndarray :=
  let sound := to_mono decoded in
  if 0 <? audio_truncation then
    match sound with
    | Arr1 xs => Arr1 <$> tile_truncate xs audio_truncation
    | Arr0 _ | Arr2 _ _ _ => Raise IndexError
    end
  else Ok sound.

End WaveformLoader.

(** ** Transcript parsing *)

(** [dict([(labels[i], i) for i in range(len(labels))])]: a later
    occurrence of a character overwrites an earlier one. *)
Definition make_labels_map (labels : string) : gmap ascii Z :=
  foldl (fun m p => <[p.1 := p.2]> m) ∅
        (imap (fun i c => (c, Z.of_nat i)) (list_ascii_of_string labels)).

Definition newline : ascii := ascii_of_nat 10.

(** [s.replace('\n', '')] as a list of characters. *)
Definition strip_newlines (s : string) : list ascii :=
  filter (fun c => c ≠ newline) (list_ascii_of_string s).

(** Python truthiness of the values [labels_map.get(x)] can give: [None]
    and the integer [0] are both false. *)
Definition truthy (v : option Z) : bool :=
  match v with
  | None => false
  | Some z => negb (z =? 0)
  end.

(** [filter(None, values)] keeps the truthy values. *)
Definition filter_None (values : list (option Z)) : list Z :=
  omap (fun v => if truthy v then v else None) values.

(** The text files the pipeline reads, by path: what [read()] returns. *)
Abbreviation filesystem := (gmap string string).

(** [SpectrogramDataset.parse_transcript] *)
Definition parse_transcript (fs : filesystem) (labels_map : gmap ascii Z)
    (transcript_path : string) : result (list Z) :=
  content ← from_option IOError (fs !! transcript_path);
  let transcript := strip_newlines content in
  Ok (filter_None (map (fun x => labels_map !! x) transcript)).

(** ** Tensors *)

(** A dense tensor is its sizes and its cells.  Feature tensors
    ([frequency_bins x time_frames]) and auxiliary-output tensors
    ([time x classes]) are two-dimensional. *)
Record tensor2 := { size0 : nat; size1 : nat; at2 : nat -> nat -> float }.
Record tensor3 := { dim3_0 : nat; dim3_1 : nat; dim3_2 : nat;
                    at3 : nat -> nat -> nat -> float }.
Record tensor4 := { dim4_0 : nat; dim4_1 : nat; dim4_2 : nat; dim4_3 : nat;
                    at4 : nat -> nat -> nat -> nat -> float }.

Definition tensor2_of_rows (n m : nat) (rows : list (list float)) : tensor2 :=
  {| size0 := n; size1 := m; at2 := fun r c => nth c (nth r rows []) 0%float |}.

(** [torch.zeros(a, b, c, d)] *)
Definition zeros4 (a b c d : nat) : tensor4 :=
  {| dim4_0 := a; dim4_1 := b; dim4_2 := c; dim4_3 := d;
     at4 := fun _ _ _ _ => 0%float |}.

(** [torch.FloatTensor(a, b, c)] followed by [fill_(v)] *)
Definition full3 (a b c : nat) (v : float) : tensor3 :=
  {| dim3_0 := a; dim3_1 := b; dim3_2 := c; at3 := fun _ _ _ => v |}.

(** [copy_] accepts a source whose size along a dimension is the
    destination's or one (broadcast). *)
Definition bcast_ok (src dst : nat) : bool := (src =? dst)%nat || (src =? 1)%nat.
Definition bcast_ix (src i : nat) : nat := if (src =? 1)%nat then O else i.

(** [inputs[x][0].narrow(1, 0, seq_length).copy_(tensor)] *)
Definition copy_narrow (inputs : tensor4) (x seq_length : nat) (tensor : tensor2)
  : result tensor4 :=
  if negb (x <? dim4_0 inputs)%nat then Raise IndexError
  else if negb (0 <? dim4_1 inputs)%nat then Raise IndexError
  else if negb (seq_length <=? dim4_3 inputs)%nat then Raise RuntimeError
  else if negb (bcast_ok (size0 tensor) (dim4_2 inputs)
                && bcast_ok (size1 tensor) seq_length) then Raise RuntimeError
  else Ok {| dim4_0 := dim4_0 inputs; dim4_1 := dim4_1 inputs;
             dim4_2 := dim4_2 inputs; dim4_3 := dim4_3 inputs;
             at4 := fun n c r k =>
               if (n =? x)%nat && (c =? 0)%nat
                  && (r <? dim4_2 inputs)%nat && (k <? seq_length)%nat
               then at2 tensor (bcast_ix (size0 tensor) r) (bcast_ix (size1 tensor) k)
               else at4 inputs n c r k |}.

(** [logits[x, :logit.size(0)].copy_(logit)]: the slice keeps at most the
    rows the destination has. *)
Definition copy_leading_rows (logits : tensor3) (x : nat) (logit : tensor2)
  : result tensor3 :=
  if negb (x <? dim3_0 logits)%nat then Raise IndexError
  else
    let nrows := Nat.min (size0 logit) (dim3_1 logits) in
    if negb (bcast_ok (size0 logit) nrows
             && bcast_ok (size1 logit) (dim3_2 logits)) then Raise RuntimeError
    else Ok {| dim3_0 := dim3_0 logits; dim3_1 := dim3_1 logits;
               dim3_2 := dim3_2 logits;
               at3 := fun n r k =>
                 if (n =? x)%nat && (r <? nrows)%nat && (k <? dim3_2 logits)%nat
                 then at2 logit (bcast_ix (size0 logit) r) (bcast_ix (size1 logit) k)
                 else at3 logits n r k |}.

(** [t[x] = v] on a one-dimensional tensor. *)
Definition store1 {A} (t : list A) (x : nat) (v : A) : result (list A) :=
  if (x <? length t)%nat then Ok (<[x := v]> t) else Raise IndexError.

(** A Python int stored into a cell of a [torch.IntTensor]: the value has
    to fit 32 bits. *)
Definition to_int32 (z : Z) : result Z :=
  if (- 2 ^ 31 <=? z) && (z <? 2 ^ 31) then Ok z else Raise RuntimeError.

(** [torch.IntTensor(values)] *)
Definition IntTensor_of_list (values : list Z) : result (list Z) :=
  foldM (fun acc v => v' ← to_int32 v; Ok (acc ++ [v'])) [] values.

(** ** Samples *)

(** What the three dataset variants hand to the collators: tuples of two,
    three or four components. *)
Inductive sample :=
| Plain (spect : tensor2) (transcript : list Z)
| WithPath (spect : tensor2) (transcript : list Z) (audio_path : string)
| WithLogits (spect : tensor2) (transcript : list Z) (audio_path : string)
             (logits : tensor2).

Definition sample_0 (p : sample) : tensor2 :=
  match p with
  | Plain t _ | WithPath t _ _ | WithLogits t _ _ _ => t
  end.

Definition sample_1 (p : sample) : list Z :=
  match p with
  | Plain _ l | WithPath _ l _ | WithLogits _ l _ _ => l
  end.

Definition sample_2 (p : sample) : result string :=
  match p with
  | Plain _ _ => Raise IndexError
  | WithPath _ _ s | WithLogits _ _ s _ => Ok s
  end.

Definition sample_3 (p : sample) : result tensor2 :=
  match p with
  | Plain _ _ | WithPath _ _ _ => Raise IndexError
  | WithLogits _ _ _ g => Ok g
  end.

(** [func(p) = p[0].size(1)], the key of the [max] calls. *)
Definition func (p : sample) : nat := size1 (sample_0 p).

Fixpoint mapM {A B} (f : A -> result B) (l : list A) : result (list B) :=
  match l with
  | [] => Ok []
  | a :: l' => b ← f a; bs ← mapM f l'; Ok (b :: bs)
  end.

(** ** Batch collation *)

(** The four-component and six-component tuples the collators return. *)
Record collated4 := {
  inputs4 : tensor4;
  targets4 : list Z;
  input_percentages4 : list float;
  target_sizes4 : list Z }.

Record collated6 := {
  inputs6 : tensor4;
  targets6 : list Z;
  input_percentages6 : list float;
  target_sizes6 : list Z;
  paths6 : list string;
  aux6 : option tensor3 }.

(** The tensors a collator fills while it walks over the batch. *)
Record padding := {
  inputs : tensor4;
  input_percentages : list float;
  target_sizes : list Z;
  targets : list Z }.

Section Collation.

(** [torch.FloatTensor(n)] and [torch.IntTensor(n)] allocate without
    initialising: whatever the cells hold before the loop writes them. *)
Variable uninit_float : float.
Variable uninit_int : Z.

(** The allocation every collator starts with: the longest sample, the
    zero-filled input tensor and the three length tensors. *)
Definition collate_alloc (batch : list sample) : result (nat * padding) :=
  longest ← py_max func batch;
  let longest_sample := sample_0 longest in
  let freq_size := size0 longest_sample in
  let minibatch_size := length batch in
  let max_seqlength := size1 longest_sample in
  Ok (max_seqlength,
      {| inputs := zeros4 minibatch_size 1 freq_size max_seqlength;
         input_percentages := replicate minibatch_size uninit_float;
         target_sizes := replicate minibatch_size uninit_int;
         targets := [] |}).

(** The statements every loop body shares: copy the feature into the
    leading columns of row [x], record the valid fraction and the label
    count, extend the flat label list. *)
Definition pad_sample (max_seqlength : nat) (x : nat) (sample : sample)
    (st : padding) : result padding :=
  let tensor := sample_0 sample in
  let target := sample_1 sample in
  let seq_length := size1 tensor in
  inputs' ← copy_narrow (inputs st) x seq_length tensor;
  fraction ← py_truediv (Z.of_nat seq_length) (Z.of_nat max_seqlength);
  percentages' ← store1 (input_percentages st) x (to_float32 fraction);
  size ← to_int32 (Z.of_nat (length target));
  sizes' ← store1 (target_sizes st) x size;
  Ok {| inputs := inputs'; input_percentages := percentages';
        target_sizes := sizes'; targets := targets st ++ target |}.

(** [_collate_fn] *)
Definition _collate_fn (batch : list sample) : result collated4 :=
  '(max_seqlength, st0) ← collate_alloc batch;
  st ← foldM (fun st x =>
                sample ← from_option IndexError (batch !! x);
                pad_sample max_seqlength x sample st)
             st0 (seq 0 (length batch));
  targets' ← IntTensor_of_list (targets st);
  Ok {| inputs4 := inputs st; targets4 := targets';
        input_percentages4 := input_percentages st;
        target_sizes4 := target_sizes st |}.

(** [_collate_fn_paths] *)
Definition _collate_fn_paths (batch : list sample) : result collated6 :=
  '(max_seqlength, st0) ← collate_alloc batch;
  '(st, paths) ← foldM (fun '(st, paths) x =>
                sample ← from_option IndexError (batch !! x);
                path ← sample_2 sample;
                st' ← pad_sample max_seqlength x sample st;
                Ok (st', paths ++ [path]))
             (st0, []) (seq 0 (length batch));
  targets' ← IntTensor_of_list (targets st);
  Ok {| inputs6 := inputs st; targets6 := targets';
        input_percentages6 := input_percentages st;
        target_sizes6 := target_sizes st;
        paths6 := paths; aux6 := None |}.

(** [_collate_fn_logits] *)
Definition _collate_fn_logits (batch : list sample) : result collated6 :=
  '(max_seqlength, st0) ← collate_alloc batch;
  all_logits ← mapM sample_3 batch;
  longest_logit ← py_max size0 all_logits;
  let logit_len := size0 longest_logit in
  first ← from_option IndexError (batch !! O);
  first_logit ← sample_3 first;
  let nclasses := size1 first_logit in
  let logits0 := full3 (length batch) logit_len nclasses neg_infinity in
  '(st, paths, logits) ← foldM (fun '(st, paths, logits) x =>
                sample ← from_option IndexError (batch !! x);
                path ← sample_2 sample;
                logit ← sample_3 sample;
                st' ← pad_sample max_seqlength x sample st;
                logits' ← copy_leading_rows logits x logit;
                Ok (st', paths ++ [path], logits'))
             (st0, [], logits0) (seq 0 (length batch));
  targets' ← IntTensor_of_list (targets st);
  Ok {| inputs6 := inputs st; targets6 := targets';
        input_percentages6 := input_percentages st;
        target_sizes6 := target_sizes st;
        paths6 := paths; aux6 := Some logits |}.

End Collation.

(** ** Audio configuration and the spectrogram parser *)

(** Values of the [audio_conf] dictionary and of metadata rows. *)
Inductive pyval :=
| PNone
| PBool (b : bool)
| PStr (s : string)
| PInt (z : Z)
| PFloat (f : float)
| PPair (a b : pyval).

Inductive window_fn := hamming | hann | blackman | bartlett.

(** The module-level [windows] dictionary. *)
Definition windows : gmap string window_fn :=
  {[ "hamming" := hamming; "hann" := hann;
     "blackman" := blackman; "bartlett" := bartlett ]}.

(** [d[key]] and [d.get(key)] on a dictionary. *)
Definition py_getitem (d : gmap string pyval) (key : string) : result pyval :=
  from_option KeyError (d !! key).
Definition py_get (d : gmap string pyval) (key : string) : pyval :=
  default PNone (d !! key).

Definition is_not_None (v : pyval) : bool :=
  match v with PNone => false | _ => true end.

Record NoiseInjection := {
  noise_paths : pyval;
  noise_levels : pyval }.

(** Binding of the positional arguments of a call to the parameters that
    follow [self]: missing ones take their defaults, one too many is a
    [TypeError]. *)
Fixpoint bind_positional (defaults args : list pyval) : result (list pyval) :=
  match defaults, args with
  | _, [] => Ok defaults
  | [], _ :: _ => Raise TypeError
  | _ :: defaults', a :: args' => (a ::.) <$> bind_positional defaults' args'
  end.

Section Parser.

(** [librosa.util.find_files(path)], as a Python list of names. *)
Variable find_files : pyval -> pyval.

(** [NoiseInjection.__init__(self, path=None, noise_levels=(0, 0.5))],
    called with the positional arguments [args]. *)
Definition NoiseInjection_init (args : list pyval) : result NoiseInjection :=
  bound ← bind_positional [PNone; PPair (PInt 0) (PFloat 0.5)] args;
  match bound with
  | [path; levels] =>
      Ok {| noise_paths := if is_not_None path then find_files path
                           else PBool false;
            noise_levels := levels |}
  | _ => Raise TypeError
  end.

Record SpectrogramParser := {
  window_stride : pyval;
  window_size : pyval;
  sample_rate : pyval;
  window : window_fn;
  normalize : bool;
  augment : bool;
  noiseInjector : option NoiseInjection;
  noise_prob : pyval;
  force_frames : Z }.

(** [int(force_duration * sample_rate)] as CPython 3 computes it on a
    64-bit platform, for whatever values the caller and the dictionary
    supply.  Memory is taken to be unbounded: no [MemoryError]. *)

(** The conversion of a Python int that meets a float in an arithmetic
    operation: an int beyond the binary64 range raises. *)
Definition py_float_of_int (z : Z) : result float :=
  let f := float_of_Z z in
  if PrimFloat.is_infinity f then Raise OverflowError else Ok f.

(** [int(f)] on a float: truncation toward zero. *)
Definition float_trunc (f : float) : result Z :=
  match Prim2SF f with
  | S754_zero _ => Ok 0
  | S754_finite s m e =>
      Ok (cond_Zopp s (if 0 <=? e then Zpos m * 2 ^ e else Zpos m / 2 ^ (- e)))
  | S754_infinity _ => Raise OverflowError
  | S754_nan => Raise ValueError
  end.

(** The count of a sequence repetition has to fit a signed 64-bit index. *)
Definition ssize_max : Z := 2 ^ 63 - 1.

Definition repeat_count (n : Z) : result Z :=
  if (- 2 ^ 63 <=? n) && (n <=? ssize_max) then Ok n else Raise OverflowError.

(** [s * n] and [n * s] on a string: the empty string for a count below
    one; a result longer than the largest index is refused. *)
Definition str_repeat (s : string) (n : Z) : result string :=
  count ← repeat_count n;
  if count <? 1 then Ok EmptyString
  else if ssize_max / count <? Z.of_nat (String.length s)
       then Raise OverflowError
       else Ok (Nat.iter (Z.to_nat count) (String.append s) EmptyString).

(** [int(s)] on a string, one character per code point below 256:
    optional white space, an optional sign, decimal digits that single
    underscores may separate, optional white space; at most 4300 digits
    (the interpreter's default limit).  Everything else is a
    [ValueError]. *)
Definition is_space (c : ascii) : bool :=
  let n := nat_of_ascii c in
  ((9 <=? n) && (n <=? 13) || (n =? 32) || (n =? 133) || (n =? 160))%nat.

Definition digit_value (c : ascii) : option Z :=
  let n := nat_of_ascii c in
  if ((48 <=? n) && (n <=? 57))%nat then Some (Z.of_nat n - 48) else None.

Fixpoint skip_spaces (l : list ascii) : list ascii :=
  match l with
  | c :: l' => if is_space c then skip_spaces l' else l
  | [] => []
  end.

Fixpoint scan_digits (after_underscore : bool) (seen : list Z) (l : list ascii)
  : option (list Z * list ascii) :=
  match l with
  | c :: l' =>
      if Ascii.eqb c "_" then
        if after_underscore then None else scan_digits true seen l'
      else
        match digit_value c with
        | Some d => scan_digits false (seen ++ [d]) l'
        | None => if after_underscore then None else Some (seen, l)
        end
  | [] => if after_underscore then None else Some (seen, [])
  end.

Definition max_str_digits : nat := 4300.

Definition int_of_str (s : string) : result Z :=
  let l := skip_spaces (list_ascii_of_string s) in
  let '(negative, body) :=
    match l with
    | c :: l' => if Ascii.eqb c "+" then (false, l')
                 else if Ascii.eqb c "-" then (true, l')
                 else (false, l)
    | [] => (false, [])
    end in
  match body with
  | c :: _ =>
      if Ascii.eqb c "_" then Raise ValueError
      else
        match scan_digits false [] body with
        | Some (d :: ds, rest) =>
            match skip_spaces rest with
            | [] =>
                if (length (d :: ds) <=? max_str_digits)%nat then
                  let magnitude := foldl (fun acc d => 10 * acc + d) 0 (d :: ds) in
                  Ok (if negative then - magnitude else magnitude)
                else Raise ValueError
            | _ :: _ => Raise ValueError
            end
        | _ => Raise ValueError
        end
  | [] => Raise ValueError
  end.

(** How a value takes part in a product: a [bool] is an [int]. *)
Inductive operand :=
| IntOperand (z : Z)
| FloatOperand (f : float)
| StrOperand (s : string)
| TupleOperand
| NoneOperand.

Definition operand_of (v : pyval) : operand :=
  match v with
  | PNone => NoneOperand
  | PBool b => IntOperand (Z.b2z b)
  | PStr s => StrOperand s
  | PInt z => IntOperand z
  | PFloat f => FloatOperand f
  | PPair _ _ => TupleOperand
  end.

(** [int(a * b)]: numbers are multiplied, an int meeting a float being
    converted first; a string or a tuple is repeated by an int, and the
    repeated string is then read as a decimal literal, while [int] of
    any tuple is a [TypeError]. *)
Definition int_of_product (a b : pyval) : result Z :=
  match operand_of a, operand_of b with
  | IntOperand x, IntOperand y => Ok (x * y)
  | IntOperand x, FloatOperand y =>
      f ← py_float_of_int x; float_trunc (PrimFloat.mul f y)
  | FloatOperand x, IntOperand y =>
      f ← py_float_of_int y; float_trunc (PrimFloat.mul x f)
  | FloatOperand x, FloatOperand y => float_trunc (PrimFloat.mul x y)
  | IntOperand n, StrOperand s | StrOperand s, IntOperand n =>
      repeated ← str_repeat s n; int_of_str repeated
  | IntOperand n, TupleOperand | TupleOperand, IntOperand n =>
      _ ← repeat_count n; Raise TypeError
  | _, _ => Raise TypeError
  end.

(** [SpectrogramParser.__init__] *)
Definition SpectrogramParser_init (audio_conf : gmap string pyval)
    (normalize augment : bool) (force_duration : pyval)
  : result SpectrogramParser :=
  window_stride ← py_getitem audio_conf "window_stride";
  window_size ← py_getitem audio_conf "window_size";
  sample_rate ← py_getitem audio_conf "sample_rate";
  window_name ← py_getitem audio_conf "window";
  let window := match window_name with
                | PStr name => default hamming (windows !! name)
                | _ => hamming
                end in
  noiseInjector ←
    (if is_not_None (py_get audio_conf "noise_dir") then
       noise_dir ← py_getitem audio_conf "noise_dir";
       levels ← py_getitem audio_conf "noise_levels";
       Some <$> NoiseInjection_init [noise_dir; sample_rate; levels]
     else Ok None);
  let noise_prob := py_get audio_conf "noise_prob" in
  force_frames ← int_of_product force_duration sample_rate;
  Ok {| window_stride := window_stride; window_size := window_size;
        sample_rate := sample_rate; window := window;
        normalize := normalize; augment := augment;
        noiseInjector := noiseInjector; noise_prob := noise_prob;
        force_frames := force_frames |}.

End Parser.

(** ** Datasets, the loader and the objects they share *)

Inductive dataset_class :=
| SpectrogramDataset | SpectrogramAndPathDataset | SpectrogramAndLogitsDataset.

(** A dataset object.  [ids] is the manifest, one list of comma-separated
    fields per line. *)
Record dataset := {
  cls : dataset_class;
  ids : list (list string);
  size_ : nat;
  access_history : list Z;
  labels_map : gmap ascii Z }.

(** [SpectrogramDataset.__init__], given the manifest lines already
    stripped and split at the commas: the parser is constructed last, so
    a configuration the parser rejects yields no dataset. *)
Definition SpectrogramDataset_init (find_files : pyval -> pyval)
    (c : dataset_class) (audio_conf : gmap string pyval)
    (manifest : list (list string)) (labels : string)
    (normalize augment : bool) (force_duration : pyval)
  : result (dataset * SpectrogramParser) :=
  let d := {| cls := c; ids := manifest; size_ := length manifest;
              access_history := []; labels_map := make_labels_map labels |} in
  parser ← SpectrogramParser_init find_files audio_conf normalize augment
             force_duration;
  Ok (d, parser).

(** Python list objects that several names can refer to live in a heap;
    a name holds the object's location. *)
Abbreviation loc := nat.
Abbreviation heap := (list (list pyval)).

(** One dictionary of the metadata buffer. *)
Record meta_record := {
  mr_iter : Z;
  mr_item : list loc;
  mr_batch : loc }.

(** The fields [AudioDataLoader] adds to a loader; [self.dataset] is the
    dataset object of the same [world]. *)
Record loader := {
  item_meta : list loc;
  batch_meta : loc;
  meta_buffer : list meta_record;
  iter : Z }.

Record world := {
  w_dataset : dataset;
  w_loader : loader;
  w_heap : heap }.

(** What the pipeline asks of the file system and of external tools. *)
Record environment := {
  files : filesystem;
  parse_audio : string -> result tensor2;
  torch_load : string -> result tensor2;
  logit_path_of : string -> string;
  sox_duration : string -> result float;
  getsize : string -> result Z }.

(** Computations that read and update the world and may raise; what was
    written before an exception stays written. *)
Definition M (A : Type) : Type := world -> result A * world.

#[global] Instance M_ret : MRet M := fun A a w => (Ok a, w).
#[global] Instance M_bind : MBind M := fun A B f m w =>
  match m w with
  | (Ok a, w') => f a w'
  | (Raise e, w') => (Raise e, w')
  end.

Definition lift {A} (r : result A) : M A := fun w => (r, w).
Definition get_dataset : M dataset := fun w => (Ok (w_dataset w), w).
Definition get_loader : M loader := fun w => (Ok (w_loader w), w).
Definition get_heap : M heap := fun w => (Ok (w_heap w), w).
Definition put_dataset (d : dataset) : M unit := fun w =>
  (Ok tt, {| w_dataset := d; w_loader := w_loader w; w_heap := w_heap w |}).
Definition put_loader (l : loader) : M unit := fun w =>
  (Ok tt, {| w_dataset := w_dataset w; w_loader := l; w_heap := w_heap w |}).
Definition put_heap (h : heap) : M unit := fun w =>
  (Ok tt, {| w_dataset := w_dataset w; w_loader := w_loader w; w_heap := h |}).

(** A [for] loop in [M]. *)
Fixpoint forM {S A} (f : S -> A -> M S) (s : S) (l : list A) : M S :=
  match l with
  | [] => mret s
  | a :: l' => s' ← f s a; forM f s' l'
  end.

Definition set_access_history (h : list Z) (d : dataset) : dataset :=
  {| cls := cls d; ids := ids d; size_ := size_ d;
     access_history := h; labels_map := labels_map d |}.

(** A new list object. *)
Definition alloc (v : list pyval) : M loc := fun w =>
  (Ok (length (w_heap w)),
   {| w_dataset := w_dataset w; w_loader := w_loader w;
      w_heap := w_heap w ++ [v] |}).

(** The list object at a location. *)
Definition deref (l : loc) : M (list pyval) :=
  h ← get_heap; lift (from_option RuntimeError (h !! l)).

(** [obj.append(v)] *)
Definition heap_append (l : loc) (v : pyval) : M unit :=
  row ← deref l; h ← get_heap; put_heap (<[l := row ++ [v]]> h).

(** [a + b] on numbers and strings. *)
Definition py_add (a b : pyval) : result pyval :=
  match a, b with
  | PInt x, PInt y => Ok (PInt (x + y))
  | PFloat x, PFloat y => Ok (PFloat (PrimFloat.add x y))
  | PInt x, PFloat y => Ok (PFloat (PrimFloat.add (float_of_Z x) y))
  | PFloat x, PInt y => Ok (PFloat (PrimFloat.add x (float_of_Z y)))
  | PStr x, PStr y => Ok (PStr (x ++ y))
  | _, _ => Raise TypeError
  end.

(** [obj[i] += v] *)
Definition heap_iadd (l : loc) (i : nat) (v : pyval) : M unit :=
  row ← deref l;
  old ← lift (from_option IndexError (row !! i));
  new ← lift (py_add old v);
  h ← get_heap;
  put_heap (<[l := <[i := new]> row]> h).

Definition set_item_meta (v : list loc) (l : loader) : loader :=
  {| item_meta := v; batch_meta := batch_meta l;
     meta_buffer := meta_buffer l; iter := iter l |}.
Definition set_batch_meta (v : loc) (l : loader) : loader :=
  {| item_meta := item_meta l; batch_meta := v;
     meta_buffer := meta_buffer l; iter := iter l |}.
Definition set_meta_buffer (v : list meta_record) (l : loader) : loader :=
  {| item_meta := item_meta l; batch_meta := batch_meta l;
     meta_buffer := v; iter := iter l |}.
Definition set_iter (v : Z) (l : loader) : loader :=
  {| item_meta := item_meta l; batch_meta := batch_meta l;
     meta_buffer := meta_buffer l; iter := v |}.

Section Pipeline.

Variable env : environment.
Variable uninit_float : float.
Variable uninit_int : Z.

(** [SpectrogramDataset.__getitem__] *)
Definition getitem_plain (index : Z) : M sample :=
  d ← get_dataset;
  sample ← lift (py_index (ids d) index);
  put_dataset (set_access_history (access_history d ++ [index]) d);;
  audio_path ← lift (py_index sample 0);
  transcript_path ← lift (py_index sample 1);
  spect ← lift (parse_audio env audio_path);
  transcript ← lift (parse_transcript (files env) (labels_map d) transcript_path);
  mret (Plain spect transcript).

(** [SpectrogramAndPathDataset.__getitem__] *)
Definition getitem_path (index : Z) : M sample :=
  d ← get_dataset;
  sample ← lift (py_index (ids d) index);
  audio_path ← lift (py_index sample 0);
  transcript_path ← lift (py_index sample 1);
  spect ← lift (parse_audio env audio_path);
  transcript ← lift (parse_transcript (files env) (labels_map d) transcript_path);
  mret (WithPath spect transcript audio_path).

(** [SpectrogramAndLogitsDataset.__getitem__] *)
Definition getitem_logits (index : Z) : M sample :=
  d ← get_dataset;
  sample ← lift (py_index (ids d) index);
  audio_path ← lift (py_index sample 0);
  transcript_path ← lift (py_index sample 1);
  let logit_path := logit_path_of env audio_path in
  spect ← lift (parse_audio env audio_path);
  transcript ← lift (parse_transcript (files env) (labels_map d) transcript_path);
  logits ← lift (torch_load env logit_path);
  mret (WithLogits spect transcript audio_path logits).

(** [dataset[index]]: the method of the dataset's class. *)
Definition getitem (index : Z) : M sample :=
  d ← get_dataset;
  match cls d with
  | SpectrogramDataset => getitem_plain index
  | SpectrogramAndPathDataset => getitem_path index
  | SpectrogramAndLogitsDataset => getitem_logits index
  end.

(** [SpectrogramDataset.get_meta], inherited by the other two classes. *)
Definition get_meta (index : Z) : M (list pyval) :=
  d ← get_dataset;
  sample ← lift (py_index (ids d) index);
  audio_path ← lift (py_index sample 0);
  transcript_path ← lift (py_index sample 1);
  audio_dur ← lift (sox_duration env audio_path);
  bytes ← lift (getsize env audio_path);
  let audio_size := PrimFloat.div (float_of_Z bytes) (float_of_Z 1000) in
  mret [PStr audio_path; PStr transcript_path; PFloat audio_dur; PFloat audio_size].

(** Lines 355-357: add the numeric fields of the newest row into the
    batch aggregate. *)
Definition accumulate (row : loc) : M unit :=
  cur ← deref row;
  forM (fun _ i =>
          ld ← get_loader;
          cur ← deref row;
          meta ← lift (from_option IndexError (cur !! i));
          if bool_decide (i ∈ [2; 3; 4]%nat)
          then heap_iadd (batch_meta ld) i meta
          else mret tt)
       tt (seq 0 (length cur)).

(** Lines 350-357: the metadata of sample [x]. *)
Definition collect_meta (x seq_length : nat) : M unit :=
  d ← get_dataset;
  index ← lift (py_index (access_history d) (Z.of_nat x));
  meta ← get_meta index;
  row ← alloc meta;
  ld ← get_loader;
  put_loader (set_item_meta (item_meta ld ++ [row]) ld);;
  ld ← get_loader;
  last ← lift (py_index (item_meta ld) (-1));
  heap_append last (PInt (Z.of_nat seq_length));;
  ld ← get_loader;
  aggregate ← deref (batch_meta ld);
  if (length aggregate =? 0)%nat then
    last ← lift (py_index (item_meta ld) (-1));
    put_loader (set_batch_meta last ld)
  else
    last ← lift (py_index (item_meta ld) (-1));
    accumulate last.

(** [AudioDataLoader.my_collate_fn] *)
Definition my_collate_fn (batch : list sample) : M collated4 :=
  '(max_seqlength, st0) ← lift (collate_alloc uninit_float uninit_int batch);
  ld ← get_loader;
  put_loader (set_item_meta [] ld);;
  fresh ← alloc [];
  ld ← get_loader;
  put_loader (set_batch_meta fresh ld);;
  ld ← get_loader;
  put_loader (set_iter (iter ld + 1) ld);;
  st ← forM (fun st x =>
               sample ← lift (from_option IndexError (batch !! x));
               st' ← lift (pad_sample max_seqlength x sample st);
               collect_meta x (size1 (sample_0 sample));;
               mret st')
            st0 (seq 0 (length batch));
  targets' ← lift (IntTensor_of_list (targets st));
  ld ← get_loader;
  put_loader (set_meta_buffer
                (meta_buffer ld ++ [{| mr_iter := iter ld;
                                       mr_item := item_meta ld;
                                       mr_batch := batch_meta ld |}]) ld);;
  d ← get_dataset;
  put_dataset (set_access_history [] d);;
  mret {| inputs4 := inputs st; targets4 := targets';
          input_percentages4 := input_percentages st;
          target_sizes4 := target_sizes st |}.

(** One step of the iteration of a single-process [DataLoader]: it calls
    [dataset[index]] for the indices of the batch, in order, and hands
    the list of samples to [collate_fn]. *)
Definition fetch (indices : list Z) : M (list sample) :=
  forM (fun acc index => s ← getitem index; mret (acc ++ [s])) [] indices.

Definition next_batch (indices : list Z) : M collated4 :=
  batch ← fetch indices; my_collate_fn batch.

End Pipeline.

(** [AudioDataLoader.__init__]: a loader over dataset [d] with empty
    metadata lists. *)
Definition new_world (d : dataset) : world :=
  {| w_dataset := d;
     w_loader := {| item_meta := []; batch_meta := O;
                    meta_buffer := []; iter := 0 |};
     w_heap := [[]] |}.

(** ** The consumer side of the metadata buffer *)

(** The Python literal [0.01], i.e. the binary64 value nearest to it. *)
Definition one_hundredth : float := 0x1.47ae147ae147bp-7%float.

Section Consumer.

(** What the producer appends to the buffer while the consumer is in
    its [k]-th [time.sleep(0.01)] (counted from zero). *)
Variable arrivals : nat -> list meta_record.

(** The [while] loop of [pop_meta_buffer]: the buffer and the number of
    sleeps when the loop is left, or [None] when [fuel] iterations were
    not enough to leave it. *)
Fixpoint poll (fuel : nat) (buffer : list meta_record) (timeout : float)
    (slept : nat) : option (list meta_record * nat) :=
  if (length buffer =? 0)%nat && PrimFloat.ltb timeout 5%float then
    match fuel with
    | O => None
    | S fuel' =>
        poll fuel' (buffer ++ arrivals slept)
             (PrimFloat.add timeout one_hundredth) (S slept)
    end
  else Some (buffer, slept).

(** [self.meta_buffer.pop(0)] *)
Definition pop0 (buffer : list meta_record)
  : result meta_record * list meta_record :=
  match buffer with
  | [] => (Raise IndexError, [])
  | r :: rest => (Ok r, rest)
  end.

(** [AudioDataLoader.pop_meta_buffer]: the result, the loader afterwards
    and the number of 10 ms sleeps taken. *)
Definition pop_meta_buffer (fuel : nat) (ld : loader)
  : option (result meta_record * loader * nat) :=
  match poll fuel (meta_buffer ld) 0%float O with
  | None => None
  | Some (buffer, slept) =>
      let '(r, rest) := pop0 buffer in
      Some (r, set_meta_buffer rest ld, slept)
  end.

End Consumer.

(** ** Unflattening the labels in the evaluation loop *)

(** A Python slice bound on a sequence of length [n]: a negative bound
    counts from the end, and everything is clamped to [0, n]. *)
Definition slice_bound (n i : Z) : Z :=
  if i <? 0 then Z.max (i + n) 0 else Z.min i n.

(** [l[a:b]] *)
Definition py_slice {A} (l : list A) (a b : Z) : list A :=
  let n := Z.of_nat (length l) in
  let a' := slice_bound n a in
  let b' := slice_bound n b in
  take (Z.to_nat (b' - a')) (drop (Z.to_nat a') l).

(** Lines 31-35 of [eval_model]: cut the flat label tensor back into one
    label sequence per sample. *)
Definition split_targets (targets target_sizes : list Z) : list (list Z) :=
  (foldl (fun '(split, offset) size =>
            (split ++ [py_slice targets offset (offset + size)], offset + size))
         ([], 0) target_sizes).1.

(** ** The running average of [eval_model.py] *)

Record AverageMeter := {
  meter_val : pyval;
  meter_avg : pyval;
  meter_sum : pyval;
  meter_count : Z }.

(** [AverageMeter.reset] *)
Definition meter_reset : AverageMeter :=
  {| meter_val := PInt 0; meter_avg := PInt 0;
     meter_sum := PInt 0; meter_count := 0 |}.

(** [AverageMeter.update(val, n)] for a float [val] (the meter is fed
    elapsed times) and an int [n]: the result of the call and the meter
    afterwards, which keeps what was assigned before an exception. *)
Definition meter_update (m : AverageMeter) (val : float) (n : Z)
  : result unit * AverageMeter :=
  let m1 := {| meter_val := PFloat val; meter_avg := meter_avg m;
               meter_sum := meter_sum m; meter_count := meter_count m |} in
  match (fn ← py_float_of_int n;
         py_add (meter_sum m) (PFloat (PrimFloat.mul val fn))) with
  | Raise e => (Raise e, m1)
  | Ok sum' =>
      let m3 := {| meter_val := PFloat val; meter_avg := meter_avg m;
                   meter_sum := sum'; meter_count := meter_count m + n |} in
      match (match sum' with
             | PFloat s =>
                 if meter_count m + n =? 0 then Raise ZeroDivisionError
                 else c ← py_float_of_int (meter_count m + n);
                      Ok (PFloat (PrimFloat.div s c))
             | _ => Raise TypeError
             end) with
      | Raise e => (Raise e, m3)
      | Ok avg' =>
          (Ok tt, {| meter_val := PFloat val; meter_avg := avg';
                     meter_sum := sum'; meter_count := meter_count m + n |})
      end
  end.

(** A sequence of updates, stopping at the first that raises. *)
Fixpoint meter_updates (m : AverageMeter) (updates : list (float * Z))
  : result unit * AverageMeter :=
  match updates with
  | [] => (Ok tt, m)
  | (val, n) :: rest =>
      match meter_update m val n with
      | (Ok _, m') => meter_updates m' rest
      | (Raise e, m') => (Raise e, m')
      end
  end.

(** ** Noise injection *)

Section NoiseInjector.

(** [numpy]'s mean of one row of channel samples. *)
Variable np_mean : list float -> float.

(** [np.copyto(dst[dst_offset:dst_offset + copy_size],
               src[src_offset:src_offset + copy_size])]: the two slices
    have to be equally long, unless the source slice has one element,
    which is then repeated. *)
Definition copyto_slice (dst : list float) (dst_offset copy_size : Z)
    (src : list float) (src_offset : Z) : result (list float) :=
  let piece := py_slice src src_offset (src_offset + copy_size) in
  let n := Z.of_nat (length dst) in
  let start := Z.to_nat (slice_bound n dst_offset) in
  let len := Z.to_nat (slice_bound n (dst_offset + copy_size)
                       - slice_bound n dst_offset) in
  if (length piece =? len)%nat then
    Ok (take start dst ++ piece ++ drop (start + len) dst)
  else
    match piece with
    | [x] => Ok (take start dst ++ replicate len x ++ drop (start + len) dst)
    | _ => Raise ValueError
    end.

(** The [while dst_left > 0] loop of [inject_noise_sample]; [None] when
    [fuel] iterations were not enough to leave it. *)
Fixpoint wrap_copy (fuel : nat) (noise_src noise_dst : list float)
    (src_offset src_left dst_offset dst_left : Z)
  : option (result (list float)) :=
  if 0 <? dst_left then
    match fuel with
    | O => None
    | S fuel' =>
        let copy_size := Z.min dst_left src_left in
        match copyto_slice noise_dst dst_offset copy_size noise_src src_offset with
        | Raise e => Some (Raise e)
        | Ok noise_dst' =>
            if dst_left <? src_left then
              wrap_copy fuel' noise_src noise_dst' src_offset src_left dst_offset 0
            else
              wrap_copy fuel' noise_src noise_dst' 0
                        (Z.of_nat (length noise_src))
                        (dst_offset + copy_size) (dst_left - copy_size)
        end
    end
  else Some (Ok noise_dst).

(** [NoiseInjection.inject_noise_sample(data, noise_path, noise_level)],
    given the array decoded from [noise_path] and the value drawn by
    [np.random.rand()].  Line 87, [data += noise_level * noise_dst],
    multiplies every cell of [noise_dst] by the level and adds the
    product to the cell of [data], in the binary64 arithmetic of the
    arrays. *)
Definition inject_noise_sample (fuel : nat) (data : list float)
    (decoded_noise : ndarray) (noise_level noise_offset_fraction : float)
  : option (result (list float)) :=
  match load_audio np_mean decoded_noise (-1) with
  | Raise e => Some (Raise e)
  | Ok (Arr0 _) | Ok (Arr2 _ _ _) => Some (Raise TypeError)
  | Ok (Arr1 noise_src) =>
      let len := Z.of_nat (length noise_src) in
      match float_trunc (PrimFloat.mul (float_of_Z len) noise_offset_fraction) with
      | Raise e => Some (Raise e)
      | Ok src_offset =>
          let noise_dst := replicate (length data) 0%float in
          let src_left := len - src_offset in
          match wrap_copy fuel noise_src noise_dst src_offset src_left 0
                          (Z.of_nat (length data)) with
          | None => None
          | Some (Raise e) => Some (Raise e)
          | Some (Ok noise_dst') =>
              Some (Ok (zip_with
                          (fun d n => PrimFloat.add d (PrimFloat.mul noise_level n))
                          data noise_dst'))
          end
      end
  end.

End NoiseInjector.

(** ** Statement-side definitions *)

(** The largest time length in a batch. *)
Definition max_time (batch : list sample) : nat := max_list (func <$> batch).

(** The number of rows of a sample's auxiliary tensor, and the largest
    such number in a batch. *)
Definition aux_len (s : sample) : nat :=
  match s with
  | WithLogits _ _ _ g => size0 g
  | _ => O
  end.
Definition max_aux_len (batch : list sample) : nat := max_list (aux_len <$> batch).

(** Sum of a one-dimensional integer tensor. *)
Definition sum_Z (l : list Z) : Z := foldr Z.add 0 l.

(** The valid-length fraction as the collators compute it: the binary64
    quotient, rounded to the binary32 cell it is stored in. *)
Definition fraction (actual_time_frames max_time_frames : nat) : float :=
  to_float32 (PrimFloat.div (float_of_Z (Z.of_nat actual_time_frames))
                            (float_of_Z (Z.of_nat max_time_frames))).

(** What the buffer holds after the consumer's first [k] sleeps. *)
Definition buffer_after (arrivals : nat -> list meta_record)
    (initial : list meta_record) (k : nat) : list meta_record :=
  initial ++ concat (arrivals <$> seq 0 k).

(** The consumer's value of [timeout] after [k] sleeps. *)
Definition timeout_after (k : nat) : float :=
  Nat.iter k (fun t => PrimFloat.add t one_hundredth) 0%float.

(** A reading of "a bounded total wait of approximately 50 ms": the
    consumer never takes more than ten sleeps of 10 ms. *)
Definition waits_about_50ms : Prop :=
  forall arrivals fuel ld r ld' slept,
    pop_meta_buffer arrivals fuel ld = Some (r, ld', slept) -> (slept <= 10)%nat.

(** The transcript of the parsing scenario: [ab], a newline, [a]. *)
Definition scenario_transcript : string := "ab" ++ String newline "a".

(** What a sample needs, besides the frequency-bin count of its batch,
    for the collators to go through: at least one time frame (a
    short-time Fourier transform always yields one), and labels and a
    label count that fit the 32-bit cells they are stored in. *)
Definition fits_int32 (z : Z) : Prop := - 2 ^ 31 <= z < 2 ^ 31.
Definition collatable (s : sample) : Prop :=
  (0 < func s)%nat /\
  fits_int32 (Z.of_nat (length (sample_1 s))) /\
  Forall fits_int32 (sample_1 s).

(** The loop invariant of the collators after [x] samples: the sizes of
    the input tensor are those of its allocation; a cell holds the
    feature value copied into it if it lies in the leading columns of
    one of the first [x] rows, and zero otherwise; the first [x] cells
    of the two length tensors are written; the flat label list holds
    the labels of the first [x] samples. *)
Definition padded_cell (batch : list sample) (x F n c r k : nat) : float :=
  match batch !! n with
  | Some s =>
      if (n <? x)%nat && (c =? 0)%nat && (r <? F)%nat && (k <? func s)%nat
      then at2 (sample_0 s) (bcast_ix (size0 (sample_0 s)) r)
               (bcast_ix (size1 (sample_0 s)) k)
      else 0%float
  | None => 0%float
  end.

Record pad_inv (batch : list sample) (F max_seqlength x : nat) (st : padding)
  : Prop := {
  inv_dim0 : dim4_0 (inputs st) = length batch;
  inv_dim1 : dim4_1 (inputs st) = 1%nat;
  inv_dim2 : dim4_2 (inputs st) = F;
  inv_dim3 : dim4_3 (inputs st) = max_seqlength;
  inv_cells : forall n c r k,
      at4 (inputs st) n c r k = padded_cell batch x F n c r k;
  inv_len_percentages : length (input_percentages st) = length batch;
  inv_len_sizes : length (target_sizes st) = length batch;
  inv_percentages : forall i s, (i < x)%nat -> batch !! i = Some s ->
      input_percentages st !! i = Some (fraction (func s) max_seqlength);
  inv_sizes : forall i s, (i < x)%nat -> batch !! i = Some s ->
      target_sizes st !! i = Some (Z.of_nat (length (sample_1 s)));
  inv_targets : targets st = concat (sample_1 <$> take x batch) }.

(** The same for the auxiliary tensor: rows copied from the sample's own
    auxiliary tensor, negative infinity elsewhere. *)
Definition aux_cell (batch : list sample) (x L C n r k : nat) : float :=
  match batch !! n with
  | Some (WithLogits _ _ _ g) =>
      if (n <? x)%nat && (r <? Nat.min (size0 g) L)%nat && (k <? C)%nat
      then at2 g (bcast_ix (size0 g) r) (bcast_ix (size1 g) k)
      else neg_infinity
  | _ => neg_infinity
  end.

Record aux_inv (batch : list sample) (L C x : nat) (lg : tensor3) : Prop := {
  aux_dim0 : dim3_0 lg = length batch;
  aux_dim1 : dim3_1 lg = L;
  aux_dim2 : dim3_2 lg = C;
  aux_cells : forall n r k, at3 lg n r k = aux_cell batch x L C n r k }.

(** The loader state once the first sample's metadata is in: the
    aggregate is the first item's list object, and that object is not
    empty. *)
Definition aggregate_is_first_item (w : world) : Prop :=
  exists l0 rest row,
    item_meta (w_loader w) = l0 :: rest /\
    batch_meta (w_loader w) = l0 /\
    w_heap w !! l0 = Some row /\ row ≠ [].

(** The loader state before the first sample: no item yet and an empty
    aggregate. *)
Definition aggregate_is_empty (w : world) : Prop :=
  item_meta (w_loader w) = [] /\
  w_heap w !! batch_meta (w_loader w) = Some [].

(** The state of the world while [my_collate_fn] walks over a batch,
    relative to the world [w0] of the call and the number [base] of list
    objects that existed then: the dataset and the buffer are as at the
    call, the counter has been advanced once, one item row per sample
    seen so far, all new rows and the aggregate are new objects, and
    the objects that existed at the call are untouched. *)
Record collating (w0 : world) (x : nat) (w : world) : Prop := {
  col_dataset : w_dataset w = w_dataset w0;
  col_buffer : meta_buffer (w_loader w) = meta_buffer (w_loader w0);
  col_iter : iter (w_loader w) = iter (w_loader w0) + 1;
  col_items : length (item_meta (w_loader w)) = x;
  col_history : (x <= length (access_history (w_dataset w0)))%nat;
  col_aggregate :
    (length (w_heap w0) <= batch_meta (w_loader w) < length (w_heap w))%nat;
  col_old : forall l, (l < length (w_heap w0))%nat ->
                      w_heap w !! l = w_heap w0 !! l }.

(** An environment in which no file can be read or probed. *)
Definition unreadable_env : environment :=
  {| files := ∅;
     parse_audio := fun _ => Raise IOError;
     torch_load := fun _ => Raise IOError;
     logit_path_of := fun p => p;
     sox_duration := fun _ => Raise IOError;
     getsize := fun _ => Raise IOError |}.

(** Lines 355-357 on the contents of the two list objects, when they
    are different objects: the fields 2, 3 and 4 of the newest row are
    added into the aggregate. *)
Definition add_row (aggregate row : list pyval) : result (list pyval) :=
  foldM (fun agg i =>
           meta ← from_option IndexError (row !! i);
           if bool_decide (i ∈ [2; 3; 4]%nat) then
             old ← from_option IndexError (agg !! i);
             new ← py_add old meta;
             Ok (<[i := new]> agg)
           else Ok agg)
        aggregate (seq 0 (length row)).

(** The aggregate of the rows of a batch: the first row, with the
    following rows added into it from left to right. *)
Definition aggregate_of (rows : list (list pyval)) : result (list pyval) :=
  match rows with
  | [] => Ok []
  | first :: rest => foldM add_row first rest
  end.

(** Sample [j]'s own metadata row: what [get_meta] returns for the
    [j]-th entry of the access history, followed by the sample's number
    of time frames. *)
Definition own_row (env : environment) (w0 : world) (batch : list sample)
    (j : nat) : option (list pyval) :=
  match batch !! j, py_index (access_history (w_dataset w0)) (Z.of_nat j) with
  | Some s, Ok index =>
      match (get_meta env index w0).1 with
      | Ok meta => Some (meta ++ [PInt (Z.of_nat (size1 (sample_0 s)))])
      | Raise _ => None
      end
  | _, _ => None
  end.

(** The rows in the heap while [my_collate_fn] walks over a batch: the
    item rows are distinct objects; from the second on each holds its
    sample's own row; the aggregate is an empty list before the first
    sample and afterwards the first item's object, holding the
    aggregate of the own rows seen so far. *)
Record gathering (env : environment) (w0 : world) (batch : list sample)
    (x : nat) (w : world) : Prop := {
  g_dataset : w_dataset w = w_dataset w0;
  g_length : length (item_meta (w_loader w)) = x;
  g_nodup : NoDup (item_meta (w_loader w));
  g_bound : forall l, l ∈ item_meta (w_loader w) -> (l < length (w_heap w))%nat;
  g_rows : forall j l, (1 <= j)%nat -> item_meta (w_loader w) !! j = Some l ->
                       is_Some (own_row env w0 batch j) /\
                       w_heap w !! l = own_row env w0 batch j;
  g_aggregate :
    match item_meta (w_loader w) with
    | [] => w_heap w !! batch_meta (w_loader w) = Some []
    | l0 :: _ =>
        batch_meta (w_loader w) = l0 /\
        exists rows agg,
          length rows = x /\
          (forall j, (j < x)%nat -> own_row env w0 batch j = rows !! j) /\
          aggregate_of rows = Ok agg /\ agg ≠ [] /\
          w_heap w !! l0 = Some agg
    end }.

(** A metadata row as the collation builds it: the four values of
    [get_meta] and the number of time frames. *)
Definition meta_row (m : string * string * float * float * Z) : list pyval :=
  let '(audio_path, transcript_path, duration, size_kb, frames) := m in
  [PStr audio_path; PStr transcript_path; PFloat duration; PFloat size_kb;
   PInt frames].

(** What lets the metadata collation go on after [x] samples: the
    dataset is the one of the call, and the aggregate the loader names
    is an empty list before the first sample and a metadata row
    afterwards. *)
Record aggregating (w0 : world) (x : nat) (w : world) : Prop := {
  ag_dataset : w_dataset w = w_dataset w0;
  ag_row : match x with
           | O => w_heap w !! batch_meta (w_loader w) = Some []
           | S _ => exists a, w_heap w !! batch_meta (w_loader w)
                              = Some (meta_row a)
           end }.

(** A consumer-side loader whose buffer is empty, a producer that never
    delivers, and one that delivers a record during the consumer's
    hundredth sleep, about one second after the call. *)
Definition idle_loader : loader :=
  {| item_meta := []; batch_meta := O; meta_buffer := []; iter := 0 |}.
Definition late_record : meta_record :=
  {| mr_iter := 1; mr_item := [1%nat]; mr_batch := 1%nat |}.
Definition never_arrives : nat -> list meta_record := fun _ => [].
Definition arrives_after_1s : nat -> list meta_record :=
  fun k => if (k =? 99)%nat then [late_record] else [].

(** The collation scenarios: two samples of 4 frequency bins with 5 and
    8 time frames, with auxiliary tensors of 3 and 6 rows of 10 classes. *)
Definition feature_4x5 : tensor2 := {| size0 := 4; size1 := 5; at2 := fun _ _ => 1%float |}.
Definition feature_4x8 : tensor2 := {| size0 := 4; size1 := 8; at2 := fun _ _ => 2%float |}.
Definition aux_3x10 : tensor2 := {| size0 := 3; size1 := 10; at2 := fun _ _ => 3%float |}.
Definition aux_6x10 : tensor2 := {| size0 := 6; size1 := 10; at2 := fun _ _ => 4%float |}.
Definition plain_batch : list sample :=
  [Plain feature_4x5 [1; 2]; Plain feature_4x8 [2]].
Definition path_batch : list sample :=
  [WithPath feature_4x5 [1; 2] "a.wav"; WithPath feature_4x8 [2] "b.wav"].
Definition logits_batch : list sample :=
  [WithLogits feature_4x5 [1; 2] "a.wav" aux_3x10;
   WithLogits feature_4x8 [2] "b.wav" aux_6x10].

(** A two-line manifest and the files behind it: [a.wav] lasts 1.5 s and
    [b.wav] 2.5 s, both take 32000 bytes. *)
Definition scenario_env : environment :=
  {| files := {[ "a.txt" := "ab"; "b.txt" := "b" ]};
     parse_audio := fun p => if String.eqb p "a.wav" then Ok feature_4x5
                             else Ok feature_4x8;
     torch_load := fun p => if String.eqb p "a.pth" then Ok aux_3x10
                            else Ok aux_6x10;
     logit_path_of := fun p => if String.eqb p "a.wav" then "a.pth" else "b.pth";
     sox_duration := fun p => if String.eqb p "a.wav" then Ok 1.5%float
                              else Ok 2.5%float;
     getsize := fun _ => Ok 32000 |}.

Definition scenario_dataset (c : dataset_class) : dataset :=
  {| cls := c;
     ids := [["a.wav"; "a.txt"]; ["b.wav"; "b.txt"]];
     size_ := 2;
     access_history := [];
     labels_map := make_labels_map "_ab" |}.

(** The item-level rows of the newest record of the metadata buffer, as
    the consumer reads them. *)
Definition pushed_item_rows (w : world) : list (option (list pyval)) :=
  match last (meta_buffer (w_loader w)) with
  | Some r => (fun l => w_heap w !! l) <$> mr_item r
  | None => []
  end.

(** The batch-level row of the newest record. *)
Definition pushed_batch_row (w : world) : option (list pyval) :=
  match last (meta_buffer (w_loader w)) with
  | Some r => w_heap w !! mr_batch r
  | None => None
  end.

(** The world after the loader has drawn the samples 0 and 1 of the
    scenario manifest from a base-class dataset. *)
Definition drawn_world : world :=
  new_world (set_access_history [0; 1] (scenario_dataset SpectrogramDataset)).





(** * Properties *)

(** ** The error monads *)

Lemma bind_Ok {A B} (m : result A) (f : A -> result B) (b : B) :
  m ≫= f = Ok b -> exists a, m = Ok a /\ f a = Ok b.
Proof. destruct m as [a|e]; simpl; [eauto | discriminate]. Qed.

Lemma fmap_Ok {A B} (f : A -> B) (m : result A) (b : B) :
  f <$> m = Ok b -> exists a, m = Ok a /\ b = f a.
Proof. destruct m as [a|e]; simpl; [|discriminate]. intros [= <-]; eauto. Qed.

Lemma M_bind_Ok {A B} (m : M A) (f : A -> M B) (w w' : world) (b : B) :
  (m ≫= f) w = (Ok b, w') -> exists a w1, m w = (Ok a, w1) /\ f a w1 = (Ok b, w').
Proof.
  unfold mbind, M_bind. destruct (m w) as [[a|e] w1]; [eauto | discriminate].
Qed.

Lemma lift_Ok {A} (r : result A) (w w' : world) (a : A) :
  lift r w = (Ok a, w') -> r = Ok a /\ w' = w.
Proof. unfold lift. intros [= -> ->]; auto. Qed.

Ltac inv_bind H :=
  repeat match type of H with
         | (_ ≫= _) = Ok _ =>
             let a := fresh "a" in let Ha := fresh "Ha" in
             apply bind_Ok in H as (a & Ha & H)
         | (_ ≫= _) _ = (Ok _, _) =>
             let a := fresh "a" in let w := fresh "w" in let Ha := fresh "Ha" in
             apply M_bind_Ok in H as (a & w & Ha & H)
         end.

(** A loop invariant carries over the whole [for x in range(n)] loop. *)
Lemma foldM_seq_inv {St} (f : St -> nat -> result St) (I : nat -> St -> Prop) :
  forall k a s out,
    foldM f s (seq a k) = Ok out ->
    I a s ->
    (forall i s1 s2, (a <= i < a + k)%nat -> I i s1 -> f s1 i = Ok s2 -> I (S i) s2) ->
    I (a + k)%nat out.
Proof.
  induction k as [|k IH]; intros a s out Hf Hi Hstep; simpl in Hf.
  - injection Hf as <-. by rewrite Nat.add_0_r.
  - apply bind_Ok in Hf as (s1 & Hs1 & Hf).
    replace (a + S k)%nat with (S a + k)%nat by lia.
    apply (IH (S a) s1); [done | |].
    + apply (Hstep a s); [lia | done | done].
    + intros i s2 s3 Hi2. apply Hstep. lia.
Qed.

(** The loop runs to its end when every step does. *)
Lemma foldM_seq_total {St} (f : St -> nat -> result St) (I : nat -> St -> Prop) :
  forall k a s,
    I a s ->
    (forall i s1, (a <= i < a + k)%nat -> I i s1 ->
                  exists s2, f s1 i = Ok s2 /\ I (S i) s2) ->
    exists out, foldM f s (seq a k) = Ok out /\ I (a + k)%nat out.
Proof.
  induction k as [|k IH]; intros a s Hi Hstep; simpl.
  - exists s. by rewrite Nat.add_0_r.
  - destruct (Hstep a s) as (s1 & -> & Hi1); [lia | done |]. simpl.
    replace (a + S k)%nat with (S a + k)%nat by lia.
    apply IH; [done |]. intros i s2 Hi2. apply Hstep. lia.
Qed.

Lemma forM_seq_inv {St} (f : St -> nat -> M St) (I : nat -> St -> Prop) :
  forall k a s w out w',
    forM f s (seq a k) w = (Ok out, w') ->
    I a s ->
    (forall i s1 s2 w1 w2, (a <= i < a + k)%nat -> I i s1 ->
                           f s1 i w1 = (Ok s2, w2) -> I (S i) s2) ->
    I (a + k)%nat out.
Proof.
  induction k as [|k IH]; intros a s w out w' Hf Hi Hstep; simpl in Hf.
  - injection Hf as <- <-. by rewrite Nat.add_0_r.
  - apply M_bind_Ok in Hf as (s1 & w1 & Hs1 & Hf).
    replace (a + S k)%nat with (S a + k)%nat by lia.
    apply (IH (S a) s1 w1 out w'); [done | |].
    + apply (Hstep a s s1 w w1); [lia | done | done].
    + intros i s2 s3 w2 w3 Hi2. apply Hstep. lia.
Qed.

(** ** Waveform tiling *)

Section Tiling.

Variable np_mean : list float -> float.
Implicit Types xs out : list float.

Lemma tiled_length xs k :
  length (Nat.iter k (fun s => s ++ xs) xs) = (S k * length xs)%nat.
Proof.
  induction k as [|k IH]; simpl; [lia |].
  rewrite length_app, IH. simpl. lia.
Qed.

(** Sample [i] of the tiled sequence is sample [i mod L] of the source. *)
Lemma tiled_lookup xs k i :
  (i < S k * length xs)%nat ->
  Nat.iter k (fun s => s ++ xs) xs !! i = xs !! (i mod length xs)%nat.
Proof.
  induction k as [|k IH]; intros Hi.
  - simpl in *. rewrite Nat.mod_small by lia. done.
  - rewrite Nat.iter_succ.
    destruct (decide (i < S k * length xs)%nat) as [Hlt|Hge].
    + rewrite lookup_app_l by (rewrite tiled_length; done). auto.
    + rewrite lookup_app_r by (rewrite tiled_length; lia).
      rewrite tiled_length. f_equal.
      assert (0 < length xs)%nat by (destruct xs; simpl in *; lia).
      apply (Nat.mod_unique _ _ (S k)); lia.
Qed.

Lemma ceil_div_bound a b c :
  0 < b -> py_ceil_div a b = Ok c -> a <= b * c < a + b.
Proof.
  intros Hb. unfold py_ceil_div.
  destruct (Z.eqb_spec b 0) as [->|_]; [lia |]. intros [= <-].
  pose proof (Z.div_mod (- a) b ltac:(lia)).
  pose proof (Z.mod_pos_bound (- a) b Hb). lia.
Qed.

(** What [tile_truncate] returns for a target beyond the source: the
    cyclic extension of the source, cut at the target. *)
Lemma tile_truncate_long xs T :
  (0 < length xs)%nat -> Z.of_nat (length xs) < T ->
  exists out,
    tile_truncate xs T = Ok out /\
    length out = Z.to_nat T /\
    forall i, (i < Z.to_nat T)%nat -> out !! i = xs !! (i mod length xs)%nat.
Proof.
  intros HL HT. unfold tile_truncate.
  destruct (Z.ltb_spec (Z.of_nat (length xs)) T) as [_|]; [|lia].
  destruct (py_ceil_div (T - Z.of_nat (length xs)) (Z.of_nat (length xs)))
    as [c|e] eqn:Hc.
  2:{ unfold py_ceil_div in Hc.
      destruct (Z.eqb_spec (Z.of_nat (length xs)) 0); [lia | discriminate]. }
  apply ceil_div_bound in Hc; [|lia]. simpl.
  set (k := Z.to_nat c).
  assert (Hk : (Z.to_nat T <= S k * length xs)%nat) by (subst k; nia).
  eexists; split; [reflexivity |]. split.
  - rewrite length_take, tiled_length. lia.
  - intros i Hi. rewrite lookup_take_lt by done. apply tiled_lookup. lia.
Qed.

Lemma tile_truncate_short xs T :
  0 < T <= Z.of_nat (length xs) ->
  tile_truncate xs T = Ok (take (Z.to_nat T) xs).
Proof.
  intros HT. unfold tile_truncate.
  destruct (Z.ltb_spec (Z.of_nat (length xs)) T); [lia | done].
Qed.

(** The failures next to the claim: an empty source cannot be tiled, and
    a single-frame single-channel source is squeezed to a 0-d array. *)
Lemma load_audio_single_frame x T :
  0 < T -> load_audio np_mean (Arr2 1 1 [[x]]) T = Raise IndexError.
Proof.
  intros HT. unfold load_audio. simpl.
  destruct (Z.ltb_spec 0 T); [done | lia].
Qed.

End Tiling.

(** C6 (as amended).  For a source whose mono samples form a
    one-dimensional array of length [L >= 1] and a target [T]: when
    [T > L], [load_audio] returns exactly [T] samples, the first [L] of
    which are the source, and sample [i + L] repeats sample [i]; when
    [0 < T <= L] it returns the first [T] samples of the source. *)
Theorem load_audio_tiles_or_truncates
    (np_mean : list float -> float) (decoded : ndarray) (xs : list float) (T : Z) :
  to_mono np_mean decoded = Arr1 xs ->
  (0 < length xs)%nat ->
  (Z.of_nat (length xs) < T ->
   exists out,
     load_audio np_mean decoded T = Ok (Arr1 out) /\
     length out = Z.to_nat T /\
     take (length xs) out = xs /\
     forall i, (i + length xs < Z.to_nat T)%nat ->
               out !! (i + length xs)%nat = out !! i)
  /\ (0 < T <= Z.of_nat (length xs) ->
      load_audio np_mean decoded T = Ok (Arr1 (take (Z.to_nat T) xs))).
Proof.
  intros Hmono HL. unfold load_audio. rewrite Hmono. split.
  - intros HT. destruct (Z.ltb_spec 0 T) as [_|]; [|lia].
    destruct (tile_truncate_long xs T HL HT) as (out & -> & Hlen & Hout).
    exists out. split; [done |]. split; [done |]. split.
    + apply list_eq. intros i.
      destruct (decide (i < length xs)%nat) as [Hi|Hi].
      * rewrite lookup_take_lt by done. rewrite Hout by lia.
        by rewrite Nat.mod_small.
      * rewrite lookup_take_ge by lia. symmetry. apply lookup_ge_None. lia.
    + intros i Hi. rewrite !Hout by lia. f_equal.
      replace (i + length xs)%nat with (i + 1 * length xs)%nat by lia.
      apply Nat.Div0.mod_add.
  - intros HT. destruct (Z.ltb_spec 0 T) as [_|]; [|lia].
    by rewrite tile_truncate_short.
Qed.

Lemma load_audio_tiles_or_truncates_witness :
  (exists out,
     load_audio (fun _ => 0%float) (Arr1 [1; 2; 3]%float) 8 = Ok (Arr1 out) /\
     length out = 8%nat /\
     take 3 out = [1; 2; 3]%float /\
     forall i, (i + 3 < 8)%nat -> out !! (i + 3)%nat = out !! i)
  /\ load_audio (fun _ => 0%float) (Arr1 [1; 2; 3]%float) 2 = Ok (Arr1 [1; 2]%float).
Proof.
  split.
  - apply (load_audio_tiles_or_truncates (fun _ => 0%float)
             (Arr1 [1; 2; 3]%float) [1; 2; 3]%float 8);
      [reflexivity | simpl; lia | simpl; lia].
  - apply (load_audio_tiles_or_truncates (fun _ => 0%float)
             (Arr1 [1; 2; 3]%float) [1; 2; 3]%float 2);
      [reflexivity | simpl; lia | simpl; lia].
Defined.

(** C6 (as stated) fails on an empty source: a decodable file without
    samples and a target of one frame make [load_audio] raise
    [ZeroDivisionError] instead of returning one sample. *)
Lemma load_audio_empty_source_raises :
  load_audio (fun _ => 0%float) (Arr2 0 1 []) 1 = Raise ZeroDivisionError
  /\ ~ (exists out, load_audio (fun _ => 0%float) (Arr2 0 1 []) 1 = Ok (Arr1 out)
                    /\ length out = 1%nat).
Proof.
  split; [reflexivity |]. intros (out & H & _). discriminate H.
Qed.

(** ** Transcript parsing *)

(** What the truthiness filter keeps: the labels that are mapped and are
    not zero. *)
Lemma filter_None_keeps_nonzero (values : list (option Z)) :
  filter_None values = omap (fun v => z ← v; if z =? 0 then None else Some z) values.
Proof.
  unfold filter_None. induction values as [|[z|] values IH]; cbn; [done | |].
  - rewrite IH. by destruct (z =? 0).
  - by rewrite IH.
Qed.

(** X5.  When no character of the transcript is mapped to label 0,
    exactly the unmapped characters are dropped. *)
Lemma parse_transcript_without_label_0
    (fs : filesystem) (m : gmap ascii Z) (path content : string) :
  fs !! path = Some content ->
  (forall c, c ∈ strip_newlines content -> m !! c ≠ Some 0) ->
  parse_transcript fs m path = Ok (omap (fun c => m !! c) (strip_newlines content)).
Proof.
  intros Hfile Hnz. unfold parse_transcript. rewrite Hfile. simpl. f_equal.
  unfold filter_None.
  induction (strip_newlines content) as [|c cs IH]; cbn; [done |].
  rewrite IH by (intros c' Hc'; apply Hnz; by apply list_elem_of_further).
  specialize (Hnz c ltac:(apply list_elem_of_here)).
  destruct (m !! c) as [z|]; simpl; [|done].
  destruct (Z.eqb_spec z 0) as [->|]; [done | done].
Qed.

(** C1.  With vocabulary [{'a':0,'b':1}] and the transcript [ab], newline,
    [a], the code returns [[1]]: the filter drops the label 0 of ['a']
    together with the unmapped characters, where the claim expects
    [[0,1,0]]. *)
Theorem parse_transcript_scenario_drops_label_0 :
  parse_transcript {[ "a.txt" := scenario_transcript ]} (make_labels_map "ab") "a.txt"
  = Ok [1].
Proof. vm_compute. reflexivity. Qed.

(** ** Construction of the parser *)

Lemma bind_positional_too_many (defaults args : list pyval) :
  (length defaults < length args)%nat -> bind_positional defaults args = Raise TypeError.
Proof.
  revert args. induction defaults as [|d defaults IH]; intros [|a args] Hlen;
    simpl in *; try lia; [done |].
  rewrite IH by lia. done.
Qed.

(** Whenever [noise_dir] is set, the constructor does not return a
    parser: the call of [NoiseInjection] passes three positional
    arguments to a constructor that takes two. *)
Lemma SpectrogramParser_init_noise_dir_raises
    (find_files : pyval -> pyval) (audio_conf : gmap string pyval)
    (normalize augment : bool) (force_duration : pyval) :
  is_not_None (py_get audio_conf "noise_dir") = true ->
  exists e, SpectrogramParser_init find_files audio_conf normalize augment
              force_duration = Raise e.
Proof.
  intros Hset. unfold SpectrogramParser_init. rewrite Hset.
  repeat match goal with
         | |- context [py_getitem ?d ?k] =>
             destruct (py_getitem d k); simpl; [|eauto]
         end.
  all: try (unfold NoiseInjection_init;
            rewrite bind_positional_too_many by (simpl; lia)).
  all: simpl; eauto.
Qed.

(** The same holds for every dataset class, whose constructor ends with
    the parser's. *)
Lemma SpectrogramDataset_init_noise_dir_raises
    (find_files : pyval -> pyval) (c : dataset_class)
    (audio_conf : gmap string pyval) (manifest : list (list string))
    (labels : string) (normalize augment : bool) (force_duration : pyval) :
  is_not_None (py_get audio_conf "noise_dir") = true ->
  exists e, SpectrogramDataset_init find_files c audio_conf manifest labels
              normalize augment force_duration = Raise e.
Proof.
  intros Hset. unfold SpectrogramDataset_init.
  destruct (SpectrogramParser_init_noise_dir_raises find_files audio_conf
              normalize augment force_duration Hset) as (e & ->).
  simpl. eauto.
Qed.

(** Without [noise_dir] the same configuration constructs a parser, with
    no noise injector. *)
Example SpectrogramParser_init_without_noise_dir :
  noiseInjector <$>
    SpectrogramParser_init (fun _ => PNone)
      {[ "window_stride" := PFloat 0.25; "window_size" := PFloat 0.5;
         "sample_rate" := PInt 16000; "window" := PStr "hamming" ]}
      false false (PInt (-1))
  = Ok None.
Proof. vm_compute. reflexivity. Qed.

(** C3.  On a complete configuration with [noise_dir] set, constructing
    the parser raises [TypeError]; no noise injector is installed. *)
Theorem SpectrogramParser_init_with_noise_dir :
  SpectrogramParser_init (fun _ => PNone)
    {[ "window_stride" := PFloat 0.25; "window_size" := PFloat 0.5;
       "sample_rate" := PInt 16000; "window" := PStr "hamming";
       "noise_dir" := PStr "noise"; "noise_prob" := PFloat 0.5;
       "noise_levels" := PPair (PFloat 0) (PFloat 0.5) ]}
    false false (PInt (-1))
  = Raise TypeError.
Proof. vm_compute. reflexivity. Qed.

(** ** Polling the metadata buffer *)

Section Polling.

Variable arrivals : nat -> list meta_record.

(** The comparison [timeout < 5] holds before each of the first 501
    sleeps and fails after the 501st: 500 additions of the binary64
    value of [0.01] stay just below 5. *)
Lemma timeout_below_5 k :
  (k < 501)%nat -> PrimFloat.ltb (timeout_after k) 5%float = true.
Proof.
  intros Hk.
  assert (H : forallb (fun k => PrimFloat.ltb (timeout_after k) 5%float)
                      (seq 0 501) = true) by (vm_compute; reflexivity).
  rewrite forallb_forall in H. apply H. apply in_seq. lia.
Qed.

Lemma timeout_reaches_5 : PrimFloat.ltb (timeout_after 501) 5%float = false.
Proof. vm_compute. reflexivity. Qed.

Lemma poll_unfold fuel buffer timeout slept :
  poll arrivals fuel buffer timeout slept
  = if (length buffer =? 0)%nat && PrimFloat.ltb timeout 5%float then
      match fuel with
      | O => None
      | S fuel' =>
          poll arrivals fuel' (buffer ++ arrivals slept)
               (PrimFloat.add timeout one_hundredth) (S slept)
      end
    else Some (buffer, slept).
Proof. destruct fuel; reflexivity. Qed.

Lemma timeout_after_S k :
  PrimFloat.add (timeout_after k) one_hundredth = timeout_after (S k).
Proof. reflexivity. Qed.

Lemma buffer_after_S initial k :
  buffer_after arrivals initial (S k) = buffer_after arrivals initial k ++ arrivals k.
Proof.
  unfold buffer_after. rewrite seq_S, fmap_app, concat_app. simpl.
  by rewrite app_nil_r, app_assoc.
Qed.

(** The loop, started after [k] sleeps on an empty history of the
    buffer, stops at the first sleep count at which the buffer holds
    something, and at the latest after 501 sleeps. *)
Lemma poll_stops initial :
  forall n k fuel,
    (k + n = 501)%nat -> (n <= fuel)%nat ->
    (forall j, (j < k)%nat -> buffer_after arrivals initial j = []) ->
    exists slept,
      (k <= slept <= 501)%nat /\
      (forall j, (j < slept)%nat -> buffer_after arrivals initial j = []) /\
      ((slept < 501)%nat -> buffer_after arrivals initial slept ≠ []) /\
      poll arrivals fuel (buffer_after arrivals initial k) (timeout_after k) k
      = Some (buffer_after arrivals initial slept, slept).
Proof.
  induction n as [|n IH]; intros k fuel Hk Hfuel Hempty.
  - exists k. assert (k = 501%nat) as -> by lia.
    split; [lia |]. split; [done |]. split; [lia |].
    rewrite poll_unfold, timeout_reaches_5, andb_false_r. done.
  - destruct (buffer_after arrivals initial k) as [|r rest] eqn:Hbuf.
    + destruct fuel as [|fuel]; [lia |].
      rewrite poll_unfold, timeout_below_5 by lia.
      rewrite timeout_after_S.
      change (([] : list meta_record) ++ arrivals k) with (arrivals k).
      change (length ([] : list meta_record) =? 0)%nat with true.
      cbv beta iota delta [andb].
      replace (arrivals k) with (buffer_after arrivals initial (S k))
        by (rewrite buffer_after_S, Hbuf; done).
      destruct (IH (S k) fuel) as (slept & Hs & Hbefore & Hat & Hpoll);
        [lia | lia | |].
      { intros j Hj. destruct (decide (j = k)) as [->|]; [done |].
        apply Hempty. lia. }
      exists slept. split; [lia |]. done.
    + exists k. split; [lia |]. split; [done |]. rewrite Hbuf.
      split; [done |]. rewrite poll_unfold. done.
Qed.

End Polling.

(** C4 (as amended).  [pop_meta_buffer] sleeps in steps of 10 ms until
    the buffer holds a record, at most 501 times (about five seconds).
    It then pops the front of the buffer: the oldest record is returned
    and removed when there is one, and the pop of a buffer that stayed
    empty through all 501 sleeps raises [IndexError]. *)
Theorem pop_meta_buffer_polls_for_five_seconds
    (arrivals : nat -> list meta_record) (fuel : nat) (ld : loader) :
  (501 <= fuel)%nat ->
  exists slept,
    (slept <= 501)%nat /\
    (forall j, (j < slept)%nat -> buffer_after arrivals (meta_buffer ld) j = []) /\
    ((slept < 501)%nat -> buffer_after arrivals (meta_buffer ld) slept ≠ []) /\
    match buffer_after arrivals (meta_buffer ld) slept with
    | oldest :: rest =>
        pop_meta_buffer arrivals fuel ld
        = Some (Ok oldest, set_meta_buffer rest ld, slept)
    | [] =>
        slept = 501%nat /\
        pop_meta_buffer arrivals fuel ld
        = Some (Raise IndexError, set_meta_buffer [] ld, slept)
    end.
Proof.
  intros Hfuel.
  destruct (poll_stops arrivals (meta_buffer ld) 501 0 fuel)
    as (slept & Hs & Hbefore & Hat & Hpoll); [lia | lia | intros j; lia |].
  exists slept. split; [lia |]. split; [done |]. split; [done |].
  assert (H0 : buffer_after arrivals (meta_buffer ld) 0 = meta_buffer ld)
    by (unfold buffer_after; simpl; apply app_nil_r).
  rewrite H0 in Hpoll. change (timeout_after 0) with 0%float in Hpoll.
  unfold pop_meta_buffer. rewrite Hpoll.
  destruct (buffer_after arrivals (meta_buffer ld) slept) eqn:Hbuf; simpl; [|done].
  split; [|done].
  destruct (decide (slept < 501)%nat) as [Hlt|]; [|lia]. by destruct (Hat Hlt).
Qed.

Lemma pop_meta_buffer_polls_for_five_seconds_witness :
  exists slept,
    (slept <= 501)%nat /\
    (forall j, (j < slept)%nat ->
               buffer_after arrives_after_1s (meta_buffer idle_loader) j = []) /\
    ((slept < 501)%nat ->
     buffer_after arrives_after_1s (meta_buffer idle_loader) slept ≠ []) /\
    match buffer_after arrives_after_1s (meta_buffer idle_loader) slept with
    | oldest :: rest =>
        pop_meta_buffer arrives_after_1s 501 idle_loader
        = Some (Ok oldest, set_meta_buffer rest idle_loader, slept)
    | [] =>
        slept = 501%nat /\
        pop_meta_buffer arrives_after_1s 501 idle_loader
        = Some (Raise IndexError, set_meta_buffer [] idle_loader, slept)
    end.
Proof.
  apply (pop_meta_buffer_polls_for_five_seconds arrives_after_1s 501 idle_loader).
  lia.
Defined.

(** C4 (as stated) fails: with nothing produced the consumer sleeps 501
    times, about five seconds, before the pop fails, and a record that
    arrives a full second after the call is still returned. *)
Lemma pop_meta_buffer_waits_longer_than_50ms :
  ~ waits_about_50ms
  /\ pop_meta_buffer never_arrives 501 idle_loader
     = Some (Raise IndexError, idle_loader, 501%nat)
  /\ pop_meta_buffer arrives_after_1s 501 idle_loader
     = Some (Ok late_record, idle_loader, 100%nat).
Proof.
  assert (E : pop_meta_buffer never_arrives 501 idle_loader
              = Some (Raise IndexError, idle_loader, 501%nat))
    by (vm_compute; reflexivity).
  split; [|split; [exact E | vm_compute; reflexivity]].
  intros H. apply H in E. lia.
Qed.

(** ** Batch collation *)

Lemma py_max_from_spec {A} (key : A -> nat) (l : list A) :
  forall best,
    py_max_from key best l ∈ best :: l /\
    key (py_max_from key best l) = Nat.max (key best) (max_list (key <$> l)).
Proof.
  induction l as [|a l IH]; intros best;
    cbn [py_max_from]; rewrite ?fmap_nil, ?fmap_cons; cbn [max_list_with id].
  - split; [apply list_elem_of_here | lia].
  - destruct (Nat.ltb_spec (key best) (key a)) as [Hlt|Hge].
    + destruct (IH a) as [Hin Hkey].
      split; [by apply list_elem_of_further | lia].
    + destruct (IH best) as [Hin Hkey]. split; [|lia].
      apply elem_of_cons in Hin as [->|Hin];
        [apply list_elem_of_here | by do 2 apply list_elem_of_further].
Qed.

Lemma py_max_spec {A} (key : A -> nat) (l : list A) (m : A) :
  py_max key l = Ok m -> m ∈ l /\ key m = max_list (key <$> l).
Proof.
  destruct l as [|a l]; simpl; [discriminate |]. intros [= <-].
  apply py_max_from_spec.
Qed.

Lemma py_max_nonempty {A} (key : A -> nat) (l : list A) :
  l ≠ [] -> exists m, py_max key l = Ok m.
Proof. destruct l; [done | simpl; eauto]. Qed.

Lemma to_int32_Ok z z' : to_int32 z = Ok z' -> z' = z.
Proof. unfold to_int32. destruct (_ && _); [by intros [= <-] | discriminate]. Qed.

Lemma IntTensor_of_list_Ok (values out : list Z) :
  IntTensor_of_list values = Ok out -> out = values.
Proof.
  unfold IntTensor_of_list.
  enough (forall acc, foldM (fun acc v => v' ← to_int32 v; Ok (acc ++ [v'])) acc values
                      = Ok out -> out = acc ++ values) as H by (intros E; apply (H [] E)).
  induction values as [|v values IH]; intros acc; simpl.
  - intros [= <-]. by rewrite app_nil_r.
  - intros H. apply bind_Ok in H as (acc' & Hstep & H).
    apply bind_Ok in Hstep as (v' & Hv & Hstep).
    apply to_int32_Ok in Hv as ->. injection Hstep as <-.
    apply IH in H as ->. by rewrite <- app_assoc.
Qed.

Lemma store1_Ok {A} (t t' : list A) (x : nat) (v : A) :
  store1 t x v = Ok t' -> (x < length t)%nat /\ t' = <[x := v]> t.
Proof.
  unfold store1. destruct (Nat.ltb_spec x (length t)); [|discriminate].
  by intros [= <-].
Qed.

Lemma py_truediv_Ok a b f :
  py_truediv a b = Ok f ->
  b ≠ 0 /\ f = PrimFloat.div (float_of_Z a) (float_of_Z b).
Proof.
  unfold py_truediv. destruct (Z.eqb_spec b 0); [discriminate |].
  by intros [= <-].
Qed.

Section CollationProofs.

Variable uninit_float : float.
Variable uninit_int : Z.

Lemma collate_alloc_spec batch mx st0 :
  collate_alloc uninit_float uninit_int batch = Ok (mx, st0) ->
  exists longest,
    longest ∈ batch /\ mx = max_time batch /\
    pad_inv batch (size0 (sample_0 longest)) mx 0 st0.
Proof.
  unfold collate_alloc. intros H. inv_bind H.
  apply py_max_spec in Ha as [Hin Hkey]. injection H as <- <-.
  exists a. split; [done |]. split; [done |].
  split; simpl; try done.
  - intros n c r k. unfold padded_cell. destruct (batch !! n); done.
  - apply length_replicate.
  - apply length_replicate.
  - lia.
  - lia.
Qed.

(** One pass of the loop body keeps the invariant. *)
Lemma pad_sample_inv batch F mx x s st st' :
  pad_inv batch F mx x st ->
  batch !! x = Some s ->
  pad_sample mx x s st = Ok st' ->
  pad_inv batch F mx (S x) st'.
Proof.
  intros [] Hx H. unfold pad_sample in H. inv_bind H.
  injection H as <-.
  apply py_truediv_Ok in Ha0 as [Hmx ->].
  apply store1_Ok in Ha1 as [Hx1 ->].
  apply to_int32_Ok in Ha2 as ->.
  apply store1_Ok in Ha3 as [Hx2 ->].
  unfold copy_narrow in Ha.
  repeat match type of Ha with
         | (if ?b then _ else _) = _ => destruct b eqn:?; [discriminate |]
         end.
  injection Ha as <-.
  split; simpl; try done.
  - intros n c r k. rewrite inv_cells0, inv_dim6. unfold padded_cell.
    destruct (Nat.eqb_spec n x) as [->|Hn].
    + rewrite Hx. replace (x <? S x)%nat with true by (symmetry; apply Nat.ltb_lt; lia).
      replace (x <? x)%nat with false by (symmetry; apply Nat.ltb_ge; lia).
      simpl. unfold func. by destruct (_ && _ && _).
    + simpl. replace (n <? S x)%nat with (n <? x)%nat; [done |].
      destruct (Nat.ltb_spec n x), (Nat.ltb_spec n (S x)); try done; lia.
  - by rewrite length_insert.
  - by rewrite length_insert.
  - intros i s' Hi Hs'. destruct (decide (i = x)) as [->|Hne].
    + rewrite list_lookup_insert_eq by lia.
      assert (s' = s) as -> by congruence. reflexivity.
    + rewrite list_lookup_insert_ne by done. apply inv_percentages0; [lia | done].
  - intros i s' Hi Hs'. destruct (decide (i = x)) as [->|Hne].
    + rewrite list_lookup_insert_eq by lia.
      assert (s' = s) as -> by congruence. reflexivity.
    + rewrite list_lookup_insert_ne by done. apply inv_sizes0; [lia | done].
  - rewrite inv_targets0. erewrite take_S_r by done.
    by rewrite fmap_app, concat_app; simpl; rewrite app_nil_r.
Qed.

End CollationProofs.

Lemma from_option_Ok {A} (e : exn) (o : option A) (a : A) :
  from_option e o = Ok a -> o = Some a.
Proof. destruct o; simpl; [by intros [= <-] | discriminate]. Qed.

(** What the invariant says once the loop is over. *)
Lemma pad_inv_final batch F mx st :
  pad_inv batch F mx (length batch) st ->
  target_sizes st = (fun s => Z.of_nat (length (sample_1 s))) <$> batch /\
  input_percentages st = (fun s => fraction (func s) mx) <$> batch /\
  targets st = concat (sample_1 <$> batch).
Proof.
  intros []. split; [|split].
  - apply list_eq. intros i. rewrite list_lookup_fmap.
    destruct (batch !! i) as [s|] eqn:Hi; simpl.
    + apply inv_sizes0; [by eapply lookup_lt_Some | done].
    + apply lookup_ge_None. apply lookup_ge_None in Hi. lia.
  - apply list_eq. intros i. rewrite list_lookup_fmap.
    destruct (batch !! i) as [s|] eqn:Hi; simpl.
    + apply inv_percentages0; [by eapply lookup_lt_Some | done].
    + apply lookup_ge_None. apply lookup_ge_None in Hi. lia.
  - by rewrite inv_targets0, firstn_all.
Qed.

Lemma sum_label_lengths (batch : list sample) :
  sum_Z ((fun s => Z.of_nat (length (sample_1 s))) <$> batch)
  = Z.of_nat (length (concat (sample_1 <$> batch))).
Proof.
  induction batch as [|s batch IH]; [done |].
  rewrite !fmap_cons. cbn [sum_Z foldr concat]. fold (sum_Z ((fun s => Z.of_nat (length (sample_1 s))) <$> batch)).
  rewrite IH, length_app. lia.
Qed.

(** A cell of the finished input tensor, for a batch whose samples all
    have [F] frequency bins. *)
Lemma padded_cell_final batch F i s r k :
  batch !! i = Some s -> size0 (sample_0 s) = F -> (r < F)%nat ->
  padded_cell batch (length batch) F i 0 r k
  = if (k <? func s)%nat then at2 (sample_0 s) r k else 0%float.
Proof.
  intros Hi HF Hr. unfold padded_cell. rewrite Hi.
  replace (i <? length batch)%nat with true
    by (symmetry; apply Nat.ltb_lt; by eapply lookup_lt_Some).
  replace (r <? F)%nat with true by (symmetry; by apply Nat.ltb_lt).
  simpl. unfold func. destruct (Nat.ltb_spec k (size1 (sample_0 s))); [|done].
  f_equal; unfold bcast_ix.
  - destruct (Nat.eqb_spec (size0 (sample_0 s)) 1); lia.
  - destruct (Nat.eqb_spec (size1 (sample_0 s)) 1); lia.
Qed.

Lemma max_time_ge batch i s : batch !! i = Some s -> (func s <= max_time batch)%nat.
Proof.
  intros Hi. unfold max_time. apply max_list_elem_of_le.
  apply list_elem_of_fmap. exists s. split; [done |].
  by eapply list_elem_of_lookup_2.
Qed.

Section CollatorRuns.

Variable uninit_float : float.
Variable uninit_int : Z.

(** [_collate_fn] returns the state its loop invariant describes. *)
Lemma _collate_fn_run batch out :
  _collate_fn uninit_float uninit_int batch = Ok out ->
  exists longest st,
    longest ∈ batch /\
    pad_inv batch (size0 (sample_0 longest)) (max_time batch) (length batch) st /\
    inputs4 out = inputs st /\ targets4 out = targets st /\
    input_percentages4 out = input_percentages st /\
    target_sizes4 out = target_sizes st.
Proof.
  unfold _collate_fn. intros H.
  apply bind_Ok in H as ([mx st0] & Halloc & H).
  apply bind_Ok in H as (st & Hloop & H).
  apply bind_Ok in H as (targets' & Htargets & H).
  injection H as <-. apply IntTensor_of_list_Ok in Htargets as ->.
  apply collate_alloc_spec in Halloc as (longest & Hin & -> & Hinv0).
  exists longest, st. split; [done |]. split; [|done].
  apply (foldM_seq_inv _ (pad_inv batch (size0 (sample_0 longest)) (max_time batch))
           _ 0 st0 st Hloop Hinv0).
  intros i s1 s2 _ Hinv Hstep.
  apply bind_Ok in Hstep as (sample & Hsample & Hstep).
  apply from_option_Ok in Hsample. by eapply pad_sample_inv.
Qed.

(** [_collate_fn_paths]: the same, plus the path list, and no
    auxiliary tensor. *)
Lemma _collate_fn_paths_run batch out :
  _collate_fn_paths uninit_float uninit_int batch = Ok out ->
  exists longest st,
    longest ∈ batch /\
    pad_inv batch (size0 (sample_0 longest)) (max_time batch) (length batch) st /\
    inputs6 out = inputs st /\ targets6 out = targets st /\
    input_percentages6 out = input_percentages st /\
    target_sizes6 out = target_sizes st /\
    Forall2 (fun s p => sample_2 s = Ok p) batch (paths6 out) /\
    aux6 out = None.
Proof.
  unfold _collate_fn_paths. intros H.
  apply bind_Ok in H as ([mx st0] & Halloc & H).
  apply bind_Ok in H as ([st paths] & Hloop & H).
  apply bind_Ok in H as (targets' & Htargets & H).
  injection H as <-. apply IntTensor_of_list_Ok in Htargets as ->.
  apply collate_alloc_spec in Halloc as (longest & Hin & -> & Hinv0).
  exists longest, st. split; [done |]. simpl.
  enough (pad_inv batch (size0 (sample_0 longest)) (max_time batch) (length batch) st
          /\ Forall2 (fun s p => sample_2 s = Ok p) (take (length batch) batch) paths)
    as [? HF] by (rewrite firstn_all in HF; done).
  apply (foldM_seq_inv _
           (fun x '(st, paths) =>
              pad_inv batch (size0 (sample_0 longest)) (max_time batch) x st /\
              Forall2 (fun s p => sample_2 s = Ok p) (take x batch) paths)
           _ 0 (st0, []) (st, paths) Hloop).
  { split; [done | constructor]. }
  intros i [s1 p1] [s2 p2] _ [Hinv HF] Hstep.
  apply bind_Ok in Hstep as (sample & Hsample & Hstep).
  apply bind_Ok in Hstep as (path & Hpath & Hstep).
  apply bind_Ok in Hstep as (st' & Hpad & Hstep).
  injection Hstep as <- <-. apply from_option_Ok in Hsample. split.
  - by eapply pad_sample_inv.
  - erewrite take_S_r by done. apply Forall2_app; [done |]. by constructor.
Qed.

End CollatorRuns.

Lemma sample_3_Ok s g :
  sample_3 s = Ok g -> exists t l p, s = WithLogits t l p g.
Proof. destruct s; simpl; [discriminate | discriminate |]. intros [= <-]; eauto. Qed.

Lemma mapM_sample_3_lengths batch all :
  mapM sample_3 batch = Ok all -> size0 <$> all = aux_len <$> batch.
Proof.
  revert all. induction batch as [|s batch IH]; intros all H; simpl in H.
  - by injection H as <-.
  - apply bind_Ok in H as (g & Hg & H). apply bind_Ok in H as (gs & Hgs & H).
    injection H as <-. apply sample_3_Ok in Hg as (t & l & p & ->).
    rewrite !fmap_cons. f_equal. by apply IH.
Qed.

(** One copy into the auxiliary tensor keeps its invariant. *)
Lemma copy_leading_rows_inv batch L C x s g lg lg' :
  aux_inv batch L C x lg ->
  batch !! x = Some s -> sample_3 s = Ok g ->
  copy_leading_rows lg x g = Ok lg' ->
  aux_inv batch L C (S x) lg'.
Proof.
  intros [] Hx Hg H. apply sample_3_Ok in Hg as (t & l & p & ->).
  unfold copy_leading_rows in H.
  repeat match type of H with
         | (if ?b then _ else _) = _ => destruct b eqn:?; [discriminate |]
         end.
  injection H as <-. split; simpl; try done.
  intros n r k. rewrite aux_cells0, aux_dim4, aux_dim5. unfold aux_cell.
  destruct (Nat.eqb_spec n x) as [->|Hn].
  - rewrite Hx. replace (x <? S x)%nat with true by (symmetry; apply Nat.ltb_lt; lia).
    replace (x <? x)%nat with false by (symmetry; apply Nat.ltb_ge; lia).
    simpl. by destruct (_ && _).
  - simpl. replace (n <? S x)%nat with (n <? x)%nat; [done |].
    destruct (Nat.ltb_spec n x), (Nat.ltb_spec n (S x)); try done; lia.
Qed.

(** A cell of the finished auxiliary tensor, for a sample whose
    auxiliary tensor has [C] classes. *)
Lemma aux_cell_final batch C i t l p g r k :
  batch !! i = Some (WithLogits t l p g) -> size1 g = C ->
  aux_cell batch (length batch) (max_aux_len batch) C i r k
  = if (r <? size0 g)%nat && (k <? C)%nat then at2 g r k else neg_infinity.
Proof.
  intros Hi HC. unfold aux_cell. rewrite Hi.
  replace (i <? length batch)%nat with true
    by (symmetry; apply Nat.ltb_lt; by eapply lookup_lt_Some).
  assert (size0 g <= max_aux_len batch)%nat as Hle.
  { unfold max_aux_len. apply max_list_elem_of_le. apply list_elem_of_fmap.
    exists (WithLogits t l p g). split; [done |]. by eapply list_elem_of_lookup_2. }
  rewrite Nat.min_l by done. simpl.
  destruct (Nat.ltb_spec r (size0 g)); [|done].
  destruct (Nat.ltb_spec k C); [|done]. simpl.
  f_equal; unfold bcast_ix.
  - destruct (Nat.eqb_spec (size0 g) 1); lia.
  - destruct (Nat.eqb_spec (size1 g) 1); lia.
Qed.

Section LogitsRun.

Variable uninit_float : float.
Variable uninit_int : Z.

(** [_collate_fn_logits] returns the states its loop invariants
    describe. *)
Lemma _collate_fn_logits_run batch out :
  _collate_fn_logits uninit_float uninit_int batch = Ok out ->
  exists longest st first first_logit lg,
    longest ∈ batch /\
    pad_inv batch (size0 (sample_0 longest)) (max_time batch) (length batch) st /\
    inputs6 out = inputs st /\ targets6 out = targets st /\
    input_percentages6 out = input_percentages st /\
    target_sizes6 out = target_sizes st /\
    Forall2 (fun s p => sample_2 s = Ok p) batch (paths6 out) /\
    batch !! O = Some first /\ sample_3 first = Ok first_logit /\
    aux6 out = Some lg /\
    aux_inv batch (max_aux_len batch) (size1 first_logit) (length batch) lg.
Proof.
  unfold _collate_fn_logits. intros H.
  apply bind_Ok in H as ([mx st0] & Halloc & H).
  apply bind_Ok in H as (all & Hall & H).
  apply bind_Ok in H as (longest_logit & Hlongest & H).
  apply bind_Ok in H as (first & Hfirst & H).
  apply bind_Ok in H as (first_logit & Hfirst_logit & H).
  apply bind_Ok in H as ([[st paths] lg] & Hloop & H).
  apply bind_Ok in H as (targets' & Htargets & H).
  injection H as <-. apply IntTensor_of_list_Ok in Htargets as ->.
  apply collate_alloc_spec in Halloc as (longest & Hin & -> & Hinv0).
  apply py_max_spec in Hlongest as [_ Hlen].
  rewrite (mapM_sample_3_lengths _ _ Hall) in Hlen.
  fold (max_aux_len batch) in Hlen. rewrite Hlen in Hloop.
  apply from_option_Ok in Hfirst.
  exists longest, st, first, first_logit, lg. split; [done |]. simpl.
  enough (pad_inv batch (size0 (sample_0 longest)) (max_time batch) (length batch) st
          /\ Forall2 (fun s p => sample_2 s = Ok p) (take (length batch) batch) paths
          /\ aux_inv batch (max_aux_len batch) (size1 first_logit) (length batch) lg)
    as (? & HF & ?) by (rewrite firstn_all in HF; done).
  apply (foldM_seq_inv _
           (fun x '(st, paths, lg) =>
              pad_inv batch (size0 (sample_0 longest)) (max_time batch) x st /\
              Forall2 (fun s p => sample_2 s = Ok p) (take x batch) paths /\
              aux_inv batch (max_aux_len batch) (size1 first_logit) x lg)
           _ 0 _ (st, paths, lg) Hloop).
  { split; [done |]. split; [constructor |]. split; simpl; try done.
    intros n r k. unfold aux_cell.
    destruct (batch !! n) as [[]|]; done. }
  intros i [[s1 p1] l1] [[s2 p2] l2] _ (Hinv & HF & Haux) Hstep.
  apply bind_Ok in Hstep as (sample & Hsample & Hstep).
  apply bind_Ok in Hstep as (path & Hpath & Hstep).
  apply bind_Ok in Hstep as (logit & Hlogit & Hstep).
  apply bind_Ok in Hstep as (st' & Hpad & Hstep).
  apply bind_Ok in Hstep as (lg' & Hcopy & Hstep).
  injection Hstep as <- <- <-. apply from_option_Ok in Hsample.
  split; [|split].
  - by eapply pad_sample_inv.
  - erewrite take_S_r by done. apply Forall2_app; [done |]. by constructor.
  - by eapply copy_leading_rows_inv.
Qed.

End LogitsRun.

(** ** The collators return on well-formed batches *)

Lemma to_int32_fits z : fits_int32 z -> to_int32 z = Ok z.
Proof.
  unfold fits_int32, to_int32. intros Hz.
  destruct (Z.leb_spec (- 2 ^ 31) z), (Z.ltb_spec z (2 ^ 31)); try lia. done.
Qed.

Lemma IntTensor_of_list_fits (values : list Z) :
  Forall fits_int32 values -> IntTensor_of_list values = Ok values.
Proof.
  unfold IntTensor_of_list.
  enough (forall acc, Forall fits_int32 values ->
            foldM (fun acc v => v' ← to_int32 v; Ok (acc ++ [v'])) acc values
            = Ok (acc ++ values)) as H by (apply (H [])).
  induction values as [|v values IH]; intros acc Hfit; simpl.
  - by rewrite app_nil_r.
  - apply Forall_cons in Hfit as [Hv Hfit]. rewrite (to_int32_fits _ Hv). simpl.
    rewrite IH by done. by rewrite <- app_assoc.
Qed.

Lemma concat_labels_fit (batch : list sample) :
  Forall collatable batch -> Forall fits_int32 (concat (sample_1 <$> batch)).
Proof.
  induction 1 as [|s batch (_ & _ & Hs) _ IH]; [constructor |].
  rewrite fmap_cons. simpl. by apply Forall_app.
Qed.

(** The loop body goes through on a well-formed sample. *)
Lemma pad_sample_total batch F x s st :
  pad_inv batch F (max_time batch) x st ->
  batch !! x = Some s ->
  size0 (sample_0 s) = F -> collatable s ->
  exists st', pad_sample (max_time batch) x s st = Ok st'.
Proof.
  intros [] Hx HF (Hframes & Hlen & _). unfold pad_sample.
  pose proof (max_time_ge _ _ _ Hx) as Hmax.
  pose proof (lookup_lt_Some _ _ _ Hx) as HxN.
  unfold copy_narrow. rewrite inv_dim4, inv_dim5, inv_dim6, inv_dim7.
  replace (x <? length batch)%nat with true by (symmetry; by apply Nat.ltb_lt).
  replace (size1 (sample_0 s) <=? max_time batch)%nat with true
    by (symmetry; by apply Nat.leb_le).
  unfold bcast_ok. rewrite HF, !Nat.eqb_refl. simpl.
  unfold py_truediv. unfold func in Hframes.
  destruct (Z.eqb_spec (Z.of_nat (max_time batch)) 0) as [E|_];
    [unfold func in Hmax; lia |]. simpl.
  unfold store1. rewrite inv_len_percentages0.
  replace (x <? length batch)%nat with true by (symmetry; by apply Nat.ltb_lt).
  simpl. rewrite (to_int32_fits _ Hlen). simpl.
  rewrite inv_len_sizes0.
  replace (x <? length batch)%nat with true by (symmetry; by apply Nat.ltb_lt).
  simpl. eauto.
Qed.

Section Totality.

Variable uninit_float : float.
Variable uninit_int : Z.

Lemma collate_alloc_total batch F :
  batch ≠ [] ->
  (forall s, s ∈ batch -> size0 (sample_0 s) = F) ->
  exists st0,
    collate_alloc uninit_float uninit_int batch = Ok (max_time batch, st0) /\
    pad_inv batch F (max_time batch) 0 st0.
Proof.
  intros Hne HF.
  destruct (py_max_nonempty func batch Hne) as (longest & Hlongest).
  destruct (collate_alloc uninit_float uninit_int batch) as [[mx st0]|e] eqn:E.
  - apply collate_alloc_spec in E as (l & Hin & -> & Hinv).
    rewrite (HF _ Hin) in Hinv. eauto.
  - unfold collate_alloc in E. rewrite Hlongest in E. discriminate.
Qed.

Lemma _collate_fn_total batch F :
  batch ≠ [] ->
  (forall s, s ∈ batch -> size0 (sample_0 s) = F) ->
  Forall collatable batch ->
  is_Ok (_collate_fn uninit_float uninit_int batch).
Proof.
  intros Hne HF Hwf.
  destruct (collate_alloc_total batch F Hne HF) as (st0 & Halloc & Hinv0).
  unfold _collate_fn. rewrite Halloc. simpl.
  destruct (foldM_seq_total
              (fun st x => sample ← from_option IndexError (batch !! x);
                           pad_sample (max_time batch) x sample st)
              (pad_inv batch F (max_time batch)) (length batch) 0 st0 Hinv0)
    as (st & -> & Hinv).
  { intros i s1 [_ Hi] Hinv.
    destruct (lookup_lt_is_Some_2 batch i Hi) as [s Hs]. rewrite Hs. simpl.
    destruct (pad_sample_total batch F i s s1 Hinv Hs) as (s2 & Hs2).
    - apply HF. by eapply list_elem_of_lookup_2.
    - by eapply Forall_lookup_1.
    - exists s2. split; [done |]. by eapply pad_sample_inv. }
  simpl. apply pad_inv_final in Hinv as (_ & _ & ->).
  rewrite IntTensor_of_list_fits by (by apply concat_labels_fit).
  simpl. by eexists.
Qed.

End Totality.

Lemma aux_len_le batch i t l p g :
  batch !! i = Some (WithLogits t l p g) -> (size0 g <= max_aux_len batch)%nat.
Proof.
  intros Hi. unfold max_aux_len. apply max_list_elem_of_le. apply list_elem_of_fmap.
  exists (WithLogits t l p g). split; [done |]. by eapply list_elem_of_lookup_2.
Qed.

Lemma copy_leading_rows_total batch C x t l p g lg :
  aux_inv batch (max_aux_len batch) C x lg ->
  batch !! x = Some (WithLogits t l p g) -> size1 g = C ->
  exists lg', copy_leading_rows lg x g = Ok lg'.
Proof.
  intros [] Hx HC. unfold copy_leading_rows.
  rewrite aux_dim3, aux_dim4, aux_dim5.
  replace (x <? length batch)%nat with true
    by (symmetry; apply Nat.ltb_lt; by eapply lookup_lt_Some).
  rewrite Nat.min_l by (by eapply aux_len_le).
  unfold bcast_ok. rewrite HC, !Nat.eqb_refl. simpl. eauto.
Qed.

Lemma mapM_sample_3_total batch :
  (forall s, s ∈ batch -> is_Ok (sample_3 s)) ->
  exists all, mapM sample_3 batch = Ok all /\ length all = length batch.
Proof.
  induction batch as [|s batch IH]; intros H; simpl.
  - by exists [].
  - destruct (H s) as [g ->]; [apply list_elem_of_here |]. simpl.
    destruct IH as (all & -> & Hlen);
      [intros s' Hs'; apply H; by apply list_elem_of_further |].
    simpl. exists (g :: all). split; [done | simpl; lia].
Qed.

Section TotalityWithPaths.

Variable uninit_float : float.
Variable uninit_int : Z.

Lemma _collate_fn_paths_total batch F :
  batch ≠ [] ->
  (forall s, s ∈ batch -> size0 (sample_0 s) = F) ->
  (forall s, s ∈ batch -> is_Ok (sample_2 s)) ->
  Forall collatable batch ->
  is_Ok (_collate_fn_paths uninit_float uninit_int batch).
Proof.
  intros Hne HF Hpaths Hwf.
  destruct (collate_alloc_total uninit_float uninit_int batch F Hne HF)
    as (st0 & Halloc & Hinv0).
  unfold _collate_fn_paths. rewrite Halloc. simpl.
  destruct (foldM_seq_total
              (fun '(st, paths) x =>
                 sample ← from_option IndexError (batch !! x);
                 path ← sample_2 sample;
                 st' ← pad_sample (max_time batch) x sample st;
                 Ok (st', paths ++ [path]))
              (fun x (s : padding * list string) =>
                 pad_inv batch F (max_time batch) x s.1)
              (length batch) 0 (st0, []) Hinv0)
    as ([st paths] & -> & Hinv).
  { intros i [s1 p1] [_ Hi] Hinv. simpl in Hinv.
    destruct (lookup_lt_is_Some_2 batch i Hi) as [s Hs]. rewrite Hs. simpl.
    destruct (Hpaths s) as [path ->]; [by eapply list_elem_of_lookup_2 |]. simpl.
    destruct (pad_sample_total batch F i s s1 Hinv Hs) as (s2 & Hs2).
    - apply HF. by eapply list_elem_of_lookup_2.
    - by eapply Forall_lookup_1.
    - rewrite Hs2. simpl. eexists. split; [done |]. simpl.
      by eapply pad_sample_inv. }
  simpl in *. apply pad_inv_final in Hinv as (_ & _ & ->).
  rewrite IntTensor_of_list_fits by (by apply concat_labels_fit).
  simpl. by eexists.
Qed.

Lemma _collate_fn_logits_total batch F C :
  batch ≠ [] ->
  (forall s, s ∈ batch -> size0 (sample_0 s) = F) ->
  (forall s, s ∈ batch -> exists t l p g, s = WithLogits t l p g /\ size1 g = C) ->
  Forall collatable batch ->
  is_Ok (_collate_fn_logits uninit_float uninit_int batch).
Proof.
  intros Hne HF Hlogits Hwf.
  destruct (collate_alloc_total uninit_float uninit_int batch F Hne HF)
    as (st0 & Halloc & Hinv0).
  unfold _collate_fn_logits. rewrite Halloc. simpl.
  destruct (mapM_sample_3_total batch) as (all & Hall & Hlen).
  { intros s Hs. destruct (Hlogits s Hs) as (t & l & p & g & -> & _).
    by eexists. }
  rewrite Hall. simpl.
  destruct (py_max_nonempty size0 all) as (longest_logit & Hlongest).
  { destruct all, batch; simpl in *; done. }
  rewrite Hlongest. simpl.
  apply py_max_spec in Hlongest as [_ Hmax].
  rewrite (mapM_sample_3_lengths _ _ Hall) in Hmax.
  fold (max_aux_len batch) in Hmax. rewrite Hmax.
  destruct batch as [|first rest] eqn:Hbatch; [done |]. rewrite <- Hbatch in *.
  assert (Hfirst : batch !! O = Some first) by (by rewrite Hbatch).
  rewrite Hfirst. simpl.
  destruct (Hlogits first) as (t & l & p & g & -> & HC);
    [by eapply list_elem_of_lookup_2 |]. simpl. rewrite HC.
  destruct (foldM_seq_total
              (fun '(st, paths, logits) x =>
                 sample ← from_option IndexError (batch !! x);
                 path ← sample_2 sample;
                 logit ← sample_3 sample;
                 st' ← pad_sample (max_time batch) x sample st;
                 logits' ← copy_leading_rows logits x logit;
                 Ok (st', paths ++ [path], logits'))
              (fun x (s : padding * list string * tensor3) =>
                 pad_inv batch F (max_time batch) x s.1.1 /\
                 aux_inv batch (max_aux_len batch) C x s.2)
              (length batch) 0
              (st0, [], full3 (length batch) (max_aux_len batch) C neg_infinity))
    as ([[st paths] lg] & -> & Hinv & _).
  { split; [done |]. split; simpl; try done.
    intros n r k. unfold aux_cell. destruct (batch !! n) as [[]|]; done. }
  { intros i [[s1 p1] l1] [_ Hi] [Hinv Haux]. simpl in Hinv, Haux.
    destruct (lookup_lt_is_Some_2 batch i Hi) as [s Hs]. rewrite Hs. simpl.
    destruct (Hlogits s) as (t' & l' & p' & g' & -> & HC');
      [by eapply list_elem_of_lookup_2 |]. simpl.
    destruct (pad_sample_total batch F i _ s1 Hinv Hs) as (s2 & Hs2).
    - apply (HF (WithLogits t' l' p' g')). by eapply list_elem_of_lookup_2.
    - by eapply Forall_lookup_1.
    - rewrite Hs2. simpl.
      destruct (copy_leading_rows_total batch C i t' l' p' g' l1 Haux Hs HC')
        as (lg' & Hlg').
      rewrite Hlg'. simpl. eexists. split; [done |]. simpl. split.
      + by eapply pad_sample_inv.
      + by eapply copy_leading_rows_inv. }
  simpl in *. apply pad_inv_final in Hinv as (_ & _ & ->).
  rewrite IntTensor_of_list_fits by (by apply concat_labels_fit).
  simpl. by eexists.
Qed.

End TotalityWithPaths.

(** ** The metadata pipeline *)

Section PipelineProofs.

Variable env : environment.
Variable uninit_float : float.
Variable uninit_int : Z.

(** [my_collate_fn] pads like the plain collator and leaves the access
    history empty. *)
Lemma my_collate_fn_run batch w out w' :
  my_collate_fn env uninit_float uninit_int batch w = (Ok out, w') ->
  (exists longest st,
     longest ∈ batch /\
     pad_inv batch (size0 (sample_0 longest)) (max_time batch) (length batch) st /\
     inputs4 out = inputs st /\ targets4 out = targets st /\
     input_percentages4 out = input_percentages st /\
     target_sizes4 out = target_sizes st)
  /\ access_history (w_dataset w') = [].
Proof.
  unfold my_collate_fn. intros H.
  apply M_bind_Ok in H as ([mx st0] & w1 & Halloc & H).
  apply lift_Ok in Halloc as [Halloc ->].
  do 7 (apply M_bind_Ok in H as (? & ? & _ & H)).
  apply M_bind_Ok in H as (st & w2 & Hloop & H).
  apply M_bind_Ok in H as (targets' & w3 & Htargets & H).
  apply lift_Ok in Htargets as [Htargets ->].
  apply IntTensor_of_list_Ok in Htargets as ->.
  do 2 (apply M_bind_Ok in H as (? & ? & _ & H)).
  apply M_bind_Ok in H as (d & w4 & Hd & H).
  apply M_bind_Ok in H as ([] & w5 & Hput & H).
  injection H as <- <-. injection Hput as <-.
  split; [|done].
  apply collate_alloc_spec in Halloc as (longest & Hin & -> & Hinv0).
  exists longest, st. split; [done |]. split; [|done].
  apply (forM_seq_inv _ (pad_inv batch (size0 (sample_0 longest)) (max_time batch))
           _ 0 st0 _ st _ Hloop Hinv0).
  intros i s1 s2 wa wb _ Hinv Hstep.
  apply M_bind_Ok in Hstep as (sample & ? & Hsample & Hstep).
  apply lift_Ok in Hsample as [Hsample ->]. apply from_option_Ok in Hsample.
  apply M_bind_Ok in Hstep as (st' & ? & Hpad & Hstep).
  apply lift_Ok in Hpad as [Hpad ->].
  apply M_bind_Ok in Hstep as (? & ? & _ & Hstep).
  injection Hstep as <- _. by eapply pad_sample_inv.
Qed.

(** The base class appends the index it is asked for, as soon as the
    manifest lookup has succeeded. *)
Lemma getitem_plain_history index w s w' :
  getitem_plain env index w = (Ok s, w') ->
  access_history (w_dataset w') = access_history (w_dataset w) ++ [index]
  /\ w_loader w' = w_loader w /\ w_heap w' = w_heap w.
Proof.
  unfold getitem_plain. intros H.
  apply M_bind_Ok in H as (d & ? & Hd & H). injection Hd as <- <-.
  apply M_bind_Ok in H as (? & ? & Ha & H). apply lift_Ok in Ha as [_ ->].
  apply M_bind_Ok in H as (? & ? & Hput & H). injection Hput as _ <-.
  repeat (apply M_bind_Ok in H as (? & ? & Ha & H); apply lift_Ok in Ha as [_ ->]).
  injection H as _ <-. done.
Qed.

(** The two derived classes override [__getitem__] without the append. *)
Lemma getitem_path_history index w s w' :
  getitem_path env index w = (Ok s, w') -> w' = w.
Proof.
  unfold getitem_path. intros H.
  apply M_bind_Ok in H as (d & ? & Hd & H). injection Hd as <- <-.
  repeat (apply M_bind_Ok in H as (? & ? & Ha & H); apply lift_Ok in Ha as [_ ->]).
  by injection H as _ <-.
Qed.

Lemma getitem_logits_history index w s w' :
  getitem_logits env index w = (Ok s, w') -> w' = w.
Proof.
  unfold getitem_logits. intros H.
  apply M_bind_Ok in H as (d & ? & Hd & H). injection Hd as <- <-.
  repeat (apply M_bind_Ok in H as (? & ? & Ha & H); apply lift_Ok in Ha as [_ ->]).
  by injection H as _ <-.
Qed.

(** Drawing a batch from a base-class dataset appends the drawn indices
    in order, one per sample. *)
Lemma fetch_history indices :
  forall acc w batch w',
    cls (w_dataset w) = SpectrogramDataset ->
    forM (fun acc index => s ← getitem env index; mret (acc ++ [s])) acc indices w
    = (Ok batch, w') ->
    access_history (w_dataset w') = access_history (w_dataset w) ++ indices
    /\ length batch = (length acc + length indices)%nat
    /\ cls (w_dataset w') = SpectrogramDataset.
Proof.
  induction indices as [|index indices IH]; intros acc w batch w' Hcls H; simpl in H.
  - injection H as <- <-. rewrite app_nil_r. simpl. split; [done |]. split; [lia | done].
  - apply M_bind_Ok in H as (acc' & w1 & Hstep & H).
    apply M_bind_Ok in Hstep as (s & w2 & Hget & Hstep).
    injection Hstep as <- <-.
    unfold getitem in Hget.
    apply M_bind_Ok in Hget as (d & ? & Hd & Hget). injection Hd as <- <-.
    rewrite Hcls in Hget.
    pose proof (getitem_plain_history _ _ _ _ Hget) as (Hhist & _ & _).
    assert (Hcls2 : cls (w_dataset w2) = SpectrogramDataset).
    { unfold getitem_plain in Hget.
      apply M_bind_Ok in Hget as (d & ? & Hd & Hget). injection Hd as <- <-.
      apply M_bind_Ok in Hget as (? & ? & Ha & Hget). apply lift_Ok in Ha as [_ ->].
      apply M_bind_Ok in Hget as (? & ? & Hput & Hget). injection Hput as _ <-.
      repeat (apply M_bind_Ok in Hget as (? & ? & Ha & Hget);
              apply lift_Ok in Ha as [_ ->]).
      injection Hget as _ <-. done. }
    apply IH in H as (Hh & Hlen & Hc); [|done].
    rewrite Hh, Hhist, <- app_assoc. simpl.
    split; [done |]. split; [|done]. rewrite Hlen, length_app. simpl. lia.
Qed.

End PipelineProofs.

(** * The claims about collation *)

(** C5.  For a non-empty batch whose samples all have [F] frequency
    bins, the plain collator returns (it does whenever every sample has
    a time frame and 32-bit label counts) an input tensor of shape
    [[N, 1, F, max_time]], [max_time] being the largest time length in
    the batch; row [i] holds sample [i]'s feature in its leading columns
    and zero in every column from the sample's time length on, and the
    valid-length fraction of sample [i] is its time length divided by
    [max_time]. *)
Theorem collate_fn_pads_to_longest
    (uninit_float : float) (uninit_int : Z) (batch : list sample) (F : nat) :
  batch ≠ [] ->
  Forall (fun s => size0 (sample_0 s) = F) batch ->
  (Forall collatable batch -> is_Ok (_collate_fn uninit_float uninit_int batch))
  /\ forall out,
      _collate_fn uninit_float uninit_int batch = Ok out ->
      (dim4_0 (inputs4 out), dim4_1 (inputs4 out),
       dim4_2 (inputs4 out), dim4_3 (inputs4 out))
      = (length batch, 1%nat, F, max_time batch)
      /\ forall i s,
          batch !! i = Some s ->
          (forall r c, (r < F)%nat -> (func s <= c < max_time batch)%nat ->
                       at4 (inputs4 out) i 0 r c = 0%float)
          /\ (forall r c, (r < F)%nat -> (c < func s)%nat ->
                          at4 (inputs4 out) i 0 r c = at2 (sample_0 s) r c)
          /\ input_percentages4 out !! i
             = Some (fraction (func s) (max_time batch)).
Proof.
  intros Hne HF. rewrite Forall_forall in HF. split.
  - intros Hwf. by eapply _collate_fn_total.
  - intros out Hout.
    apply _collate_fn_run in Hout
      as (longest & st & Hin & Hinv & -> & _ & -> & _).
    rewrite (HF _ Hin) in Hinv.
    pose proof (pad_inv_final _ _ _ _ Hinv) as (_ & Hpct & _).
    destruct Hinv. split.
    + by rewrite inv_dim4, inv_dim5, inv_dim6, inv_dim7.
    + intros i s Hi.
      assert (HFs : size0 (sample_0 s) = F)
        by (apply HF; by eapply list_elem_of_lookup_2).
      split; [|split].
      * intros r c Hr Hc.
        rewrite inv_cells0, (padded_cell_final _ _ _ _ _ _ Hi HFs Hr).
        destruct (Nat.ltb_spec c (func s)); [lia | done].
      * intros r c Hr Hc.
        rewrite inv_cells0, (padded_cell_final _ _ _ _ _ _ Hi HFs Hr).
        destruct (Nat.ltb_spec c (func s)); [done | lia].
      * by rewrite Hpct, list_lookup_fmap, Hi.
Qed.

Lemma collate_fn_pads_to_longest_witness :
  exists out,
    _collate_fn 0%float 0 plain_batch = Ok out /\
    (dim4_0 (inputs4 out), dim4_1 (inputs4 out),
     dim4_2 (inputs4 out), dim4_3 (inputs4 out)) = (2, 1, 4, 8)%nat /\
    (forall r c, (r < 4)%nat -> (5 <= c < 8)%nat ->
                 at4 (inputs4 out) 0 0 r c = 0%float) /\
    input_percentages4 out !! O = Some 0.625%float /\
    input_percentages4 out !! 1%nat = Some 1%float.
Proof.
  destruct (collate_fn_pads_to_longest 0%float 0 plain_batch 4)
    as [Htotal Hout].
  - discriminate.
  - repeat constructor.
  - destruct Htotal as [out E].
    + repeat constructor; vm_compute; congruence.
    + exists out. split; [exact E |].
      destruct (Hout out E) as [Hshape Hrows].
      split; [exact Hshape |].
      destruct (Hrows O (Plain feature_4x5 [1; 2]) eq_refl) as (Hzero & _ & Hp0).
      destruct (Hrows 1%nat (Plain feature_4x8 [2]) eq_refl) as (_ & _ & Hp1).
      split; [exact Hzero |]. split; [exact Hp0 | exact Hp1].
Defined.

(** C8.  For a non-empty batch of the auxiliary variant whose auxiliary
    tensors all have [C] classes, the collator returns (it does on
    well-formed samples) an auxiliary tensor of shape
    [[N, max_aux_len, C]]; sample [i]'s own auxiliary tensor fills its
    leading rows, and every row after them is negative infinity. *)
Theorem collate_fn_logits_pads_with_neg_infinity
    (uninit_float : float) (uninit_int : Z) (batch : list sample) (C : nat) :
  batch ≠ [] ->
  Forall (fun s => exists t l p g, s = WithLogits t l p g /\ size1 g = C) batch ->
  (forall F, Forall (fun s => size0 (sample_0 s) = F) batch ->
             Forall collatable batch ->
             is_Ok (_collate_fn_logits uninit_float uninit_int batch))
  /\ forall out,
      _collate_fn_logits uninit_float uninit_int batch = Ok out ->
      exists aux,
        aux6 out = Some aux /\
        (dim3_0 aux, dim3_1 aux, dim3_2 aux) = (length batch, max_aux_len batch, C) /\
        forall i t l p g,
          batch !! i = Some (WithLogits t l p g) ->
          (forall r k, (r < size0 g)%nat -> (k < C)%nat ->
                       at3 aux i r k = at2 g r k)
          /\ (forall r k, (size0 g <= r < max_aux_len batch)%nat -> (k < C)%nat ->
                          at3 aux i r k = neg_infinity).
Proof.
  intros Hne HC. rewrite Forall_forall in HC. split.
  - intros F HF Hwf. rewrite Forall_forall in HF.
    by eapply _collate_fn_logits_total.
  - intros out Hout.
    apply _collate_fn_logits_run in Hout
      as (_ & _ & first & first_logit & aux & _ & _ & _ & _ & _ & _ & _
          & Hfirst & Hfirst_logit & Haux & Hinv).
    exists aux. split; [done |].
    destruct (HC first) as (t0 & l0 & p0 & g0 & -> & HC0);
      [by eapply list_elem_of_lookup_2 |].
    injection Hfirst_logit as <-. rewrite HC0 in Hinv. destruct Hinv. split.
    + by rewrite aux_dim3, aux_dim4, aux_dim5.
    + intros i t l p g Hi.
      destruct (HC (WithLogits t l p g)) as (? & ? & ? & ? & [= <- <- <- <-] & HCg);
        [by eapply list_elem_of_lookup_2 |].
      split; intros r k Hr Hk;
        rewrite aux_cells0, (aux_cell_final _ _ _ _ _ _ _ _ _ Hi HCg).
      * destruct (Nat.ltb_spec r (size0 g)); [|lia].
        destruct (Nat.ltb_spec k C); [done | lia].
      * destruct (Nat.ltb_spec r (size0 g)); [lia | done].
Qed.

Lemma collate_fn_logits_pads_with_neg_infinity_witness :
  exists out aux,
    _collate_fn_logits 0%float 0 logits_batch = Ok out /\
    aux6 out = Some aux /\
    (dim3_0 aux, dim3_1 aux, dim3_2 aux) = (2, 6, 10)%nat /\
    forall r k, (3 <= r < 6)%nat -> (k < 10)%nat -> at3 aux 0 r k = neg_infinity.
Proof.
  destruct (collate_fn_logits_pads_with_neg_infinity 0%float 0 logits_batch 10)
    as [Htotal Hout].
  - discriminate.
  - repeat constructor; repeat eexists.
  - destruct (Htotal 4%nat) as [out E].
    + repeat constructor.
    + repeat constructor; vm_compute; congruence.
    + destruct (Hout out E) as (aux & Haux & Hshape & Hrows).
      exists out, aux. split; [exact E |]. split; [exact Haux |].
      split; [exact Hshape |].
      destruct (Hrows O feature_4x5 [1; 2] "a.wav" aux_3x10 eq_refl) as [_ Hinf].
      exact Hinf.
Defined.

(** C10.  On a non-empty batch the path collator returns (it does on
    well-formed samples that carry a path) six components: the four of
    the plain collator, the samples' paths in batch order, and [None] in
    the auxiliary slot. *)
Theorem collate_fn_paths_leaves_aux_None
    (uninit_float : float) (uninit_int : Z) (batch : list sample) :
  batch ≠ [] ->
  (forall F, Forall (fun s => size0 (sample_0 s) = F) batch ->
             Forall (fun s => is_Ok (sample_2 s)) batch ->
             Forall collatable batch ->
             is_Ok (_collate_fn_paths uninit_float uninit_int batch))
  /\ forall out,
      _collate_fn_paths uninit_float uninit_int batch = Ok out ->
      aux6 out = None
      /\ Forall2 (fun s p => sample_2 s = Ok p) batch (paths6 out).
Proof.
  intros Hne. split.
  - intros F HF Hpaths Hwf. rewrite Forall_forall in HF, Hpaths.
    by eapply _collate_fn_paths_total.
  - intros out Hout.
    apply _collate_fn_paths_run in Hout as (_ & _ & _ & _ & _ & _ & _ & _ & Hp & Haux).
    done.
Qed.

Lemma collate_fn_paths_leaves_aux_None_witness :
  exists out,
    _collate_fn_paths 0%float 0 path_batch = Ok out /\
    aux6 out = None /\
    Forall2 (fun s p => sample_2 s = Ok p) path_batch (paths6 out).
Proof.
  destruct (collate_fn_paths_leaves_aux_None 0%float 0 path_batch)
    as [Htotal Hout].
  - discriminate.
  - destruct (Htotal 4%nat) as [out E].
    + repeat constructor.
    + repeat constructor; by eexists.
    + repeat constructor; vm_compute; congruence.
    + exists out. split; [exact E |]. exact (Hout out E).
Defined.

(** ** The aggregate row is the first item row *)

Lemma py_index_last {A} (l : list A) (a : A) : py_index (l ++ [a]) (-1) = Ok a.
Proof.
  unfold py_index. rewrite length_app. simpl.
  replace (0 <=? -1) with false by done. simpl.
  destruct (Z.leb_spec (- Z.of_nat (length l + 1)) (-1)); [|lia]. simpl.
  replace (Z.to_nat (Z.of_nat (length l + 1) + -1)) with (length l) by lia.
  rewrite lookup_app_r by lia. by rewrite Nat.sub_diag.
Qed.

Section Aliasing.

Variable env : environment.
Variable uninit_float : float.
Variable uninit_int : Z.

Lemma get_meta_world index w meta w' :
  get_meta env index w = (Ok meta, w') -> w' = w.
Proof.
  unfold get_meta. intros H.
  apply M_bind_Ok in H as (d & ? & Hd & H). injection Hd as <- <-.
  repeat (apply M_bind_Ok in H as (? & ? & Ha & H); apply lift_Ok in Ha as [_ ->]).
  by injection H as _ <-.
Qed.

Lemma deref_Ok l w row w' :
  deref l w = (Ok row, w') -> w' = w /\ w_heap w !! l = Some row.
Proof.
  unfold deref. intros H.
  apply M_bind_Ok in H as (h & ? & Hh & H). injection Hh as <- <-.
  apply lift_Ok in H as [H ->]. by apply from_option_Ok in H.
Qed.

Lemma heap_append_Ok l v w u w' :
  heap_append l v w = (Ok u, w') ->
  exists row, w_heap w !! l = Some row /\
              w_dataset w' = w_dataset w /\ w_loader w' = w_loader w /\
              w_heap w' = <[l := row ++ [v]]> (w_heap w).
Proof.
  unfold heap_append. intros H.
  apply M_bind_Ok in H as (row & ? & Hrow & H). apply deref_Ok in Hrow as [-> Hrow].
  apply M_bind_Ok in H as (h & ? & Hh & H). injection Hh as <- <-.
  injection H as _ <-. eauto.
Qed.

Lemma heap_iadd_Ok l i v w u w' :
  heap_iadd l i v w = (Ok u, w') ->
  exists row new, w_heap w !! l = Some row /\
                  w_dataset w' = w_dataset w /\ w_loader w' = w_loader w /\
                  w_heap w' = <[l := <[i := new]> row]> (w_heap w).
Proof.
  unfold heap_iadd. intros H.
  apply M_bind_Ok in H as (row & ? & Hrow & H). apply deref_Ok in Hrow as [-> Hrow].
  apply M_bind_Ok in H as (old & ? & Hold & H). apply lift_Ok in Hold as [_ ->].
  apply M_bind_Ok in H as (new & ? & Hnew & H). apply lift_Ok in Hnew as [_ ->].
  apply M_bind_Ok in H as (h & ? & Hh & H). injection Hh as <- <-.
  injection H as _ <-. eauto 10.
Qed.

(** Adding a row into the aggregate keeps the loader and keeps the
    aggregate's list object non-empty. *)
Lemma accumulate_keeps_aggregate last indices :
  forall u w u' w',
    aggregate_is_first_item w ->
    forM (fun _ i =>
            ld ← get_loader;
            cur ← deref last;
            meta ← lift (from_option IndexError (cur !! i));
            if bool_decide (i ∈ [2; 3; 4]%nat)
            then heap_iadd (batch_meta ld) i meta
            else mret tt) u indices w = (Ok u', w') ->
    aggregate_is_first_item w'.
Proof.
  induction indices as [|i indices IH]; intros u w u' w' Hagg H; simpl in H.
  - by injection H as _ <-.
  - apply M_bind_Ok in H as (u1 & w1 & Hstep & H).
    apply (IH u1 w1 u' w'); [|done]. clear H IH.
    apply M_bind_Ok in Hstep as (ld & ? & Hld & Hstep). injection Hld as <- <-.
    apply M_bind_Ok in Hstep as (cur & ? & Hcur & Hstep).
    apply deref_Ok in Hcur as [-> _].
    apply M_bind_Ok in Hstep as (meta & ? & Hmeta & Hstep).
    apply lift_Ok in Hmeta as [_ ->].
    destruct (bool_decide (i ∈ [2; 3; 4]%nat)).
    + apply heap_iadd_Ok in Hstep as (row & new & Hrow & _ & Hld & Hheap).
      destruct Hagg as (l0 & rest & row0 & Hitems & Hbatch & Hl0 & Hne).
      exists l0, rest, (<[i := new]> row). rewrite Hld, Hheap, Hbatch.
      rewrite Hbatch in Hrow. split; [done |]. split; [done |]. split.
      * apply list_lookup_insert_eq. by eapply lookup_lt_Some.
      * rewrite Hl0 in Hrow. injection Hrow as <-.
        destruct row0; [done |]. by destruct i.
    + by injection Hstep as _ <-.
Qed.

(** Collecting a sample's metadata establishes, and then keeps, the
    aliasing. *)
Lemma collect_meta_aliases x seq_length w u w' :
  aggregate_is_empty w \/ aggregate_is_first_item w ->
  collect_meta env x seq_length w = (Ok u, w') ->
  aggregate_is_first_item w'.
Proof.
  intros Hstart H. unfold collect_meta in H.
  apply M_bind_Ok in H as (d & ? & Hd & H). injection Hd as <- <-.
  apply M_bind_Ok in H as (index & ? & Hi & H). apply lift_Ok in Hi as [_ ->].
  apply M_bind_Ok in H as (meta & ? & Hmeta & H). apply get_meta_world in Hmeta as ->.
  apply M_bind_Ok in H as (row & w1 & Hrow & H). injection Hrow as <- <-.
  apply M_bind_Ok in H as (ld & ? & Hld & H). injection Hld as <- <-.
  apply M_bind_Ok in H as (? & w2 & Hput & H). injection Hput as _ <-.
  apply M_bind_Ok in H as (ld & ? & Hld & H). injection Hld as <- <-.
  apply M_bind_Ok in H as (last & ? & Hlast & H). apply lift_Ok in Hlast as [Hlast ->].
  simpl in Hlast. rewrite py_index_last in Hlast. injection Hlast as <-.
  apply M_bind_Ok in H as (? & w3 & Happ & H).
  apply heap_append_Ok in Happ as (row & Hrow & Hds3 & Hld3 & Hheap3).
  simpl in Hrow, Hld3, Hheap3.
  rewrite lookup_app_r, Nat.sub_diag in Hrow by lia. injection Hrow as <-.
  apply M_bind_Ok in H as (ld & ? & Hld & H). injection Hld as <- <-.
  apply M_bind_Ok in H as (aggregate & ? & Hagg & H).
  apply deref_Ok in Hagg as [-> Hagg]. rewrite Hld3 in Hagg, H. simpl in Hagg, H.
  set (fresh := length (w_heap w)) in *.
  assert (Hfresh : w_heap w3 !! fresh = Some (meta ++ [PInt (Z.of_nat seq_length)])).
  { rewrite Hheap3. apply list_lookup_insert_eq. rewrite length_app. simpl. lia. }
  destruct (Nat.eqb_spec (length aggregate) 0) as [Hlen|Hlen].
  - apply M_bind_Ok in H as (last & ? & Hlast & H). apply lift_Ok in Hlast as [Hlast ->].
    rewrite py_index_last in Hlast. injection Hlast as <-.
    injection H as _ <-. simpl.
    destruct Hstart as [[Hitems _]|(l0 & rest & row0 & Hitems & Hb & Hl0 & Hne)].
    + exists fresh, [], (meta ++ [PInt (Z.of_nat seq_length)]).
      simpl. rewrite Hitems. split; [done |]. split; [done |]. split; [done |].
      by destruct meta.
    + (* the aggregate is the non-empty first row: this branch is not taken *)
      exfalso. rewrite Hb in Hagg. rewrite Hheap3 in Hagg.
      assert (l0 ≠ fresh).
      { intros ->. apply lookup_lt_Some in Hl0. subst fresh. lia. }
      rewrite list_lookup_insert_ne in Hagg by done.
      rewrite lookup_app_l in Hagg by (by eapply lookup_lt_Some).
      rewrite Hl0 in Hagg. injection Hagg as <-.
      by destruct row0.
  - apply M_bind_Ok in H as (last & ? & Hlast & H). apply lift_Ok in Hlast as [Hlast ->].
    rewrite py_index_last in Hlast. injection Hlast as <-.
    unfold accumulate in H.
    apply M_bind_Ok in H as (cur & ? & Hcur & H). apply deref_Ok in Hcur as [-> _].
    eapply accumulate_keeps_aggregate; [|exact H].
    destruct Hstart as [[Hitems Hempty]|(l0 & rest & row0 & Hitems & Hb & Hl0 & Hne)].
    + exfalso. rewrite Hheap3 in Hagg.
      assert (batch_meta (w_loader w) ≠ fresh).
      { intros E. apply lookup_lt_Some in Hempty. rewrite E in Hempty.
        subst fresh. lia. }
      rewrite list_lookup_insert_ne in Hagg by done.
      rewrite lookup_app_l in Hagg by (by eapply lookup_lt_Some).
      rewrite Hempty in Hagg. injection Hagg as <-. done.
    + exists l0, (rest ++ [fresh]), row0. rewrite Hld3. simpl.
      rewrite Hitems. split; [done |]. split; [done |]. split; [|done].
      rewrite Hheap3.
      assert (l0 ≠ fresh).
      { intros ->. apply lookup_lt_Some in Hl0. subst fresh. lia. }
      rewrite list_lookup_insert_ne by done.
      by rewrite lookup_app_l by (by eapply lookup_lt_Some).
Qed.

(** The loop of [my_collate_fn]: after at least one sample the aggregate
    is the first item's list object. *)
Lemma collation_loop_aliases (batch : list sample) (mx : nat) (indices : list nat) :
  forall st w st' w',
    aggregate_is_empty w \/ aggregate_is_first_item w ->
    forM (fun st x =>
            sample ← lift (from_option IndexError (batch !! x));
            st' ← lift (pad_sample mx x sample st);
            collect_meta env x (size1 (sample_0 sample));;
            mret st') st indices w = (Ok st', w') ->
    (indices = [] /\ w' = w) \/ aggregate_is_first_item w'.
Proof.
  induction indices as [|x indices IH]; intros st w st' w' Hstart H; simpl in H.
  - injection H as _ <-. by left.
  - right. apply M_bind_Ok in H as (st1 & w1 & Hstep & H).
    apply M_bind_Ok in Hstep as (sample & ? & Hsample & Hstep).
    apply lift_Ok in Hsample as [_ ->].
    apply M_bind_Ok in Hstep as (st2 & ? & Hpad & Hstep).
    apply lift_Ok in Hpad as [_ ->].
    apply M_bind_Ok in Hstep as (? & w2 & Hcollect & Hstep).
    injection Hstep as _ <-.
    apply collect_meta_aliases in Hcollect; [|done].
    destruct (IH st1 w2 st' w' (or_intror Hcollect) H) as [[_ ->]|]; done.
Qed.

(** Whenever [my_collate_fn] returns, the record it pushed names the
    same list object as its aggregate and as its first item: what the
    loop adds into the aggregate, it adds into item 0. *)
Lemma my_collate_fn_aliases_first_item batch w out w' :
  my_collate_fn env uninit_float uninit_int batch w = (Ok out, w') ->
  exists r l0 rest row,
    last (meta_buffer (w_loader w')) = Some r /\
    mr_item r = l0 :: rest /\ mr_batch r = l0 /\
    w_heap w' !! l0 = Some row.
Proof.
  unfold my_collate_fn. intros H.
  apply M_bind_Ok in H as ([mx st0] & ? & Halloc & H).
  apply lift_Ok in Halloc as [Halloc ->].
  assert (Hne : batch ≠ []).
  { intros ->. unfold collate_alloc in Halloc. discriminate Halloc. }
  apply M_bind_Ok in H as (ld & ? & Hld & H). injection Hld as <- <-.
  apply M_bind_Ok in H as (? & w1 & Hput & H). injection Hput as _ <-.
  apply M_bind_Ok in H as (fresh & w2 & Hfresh & H). injection Hfresh as <- <-.
  apply M_bind_Ok in H as (ld & ? & Hld & H). injection Hld as <- <-.
  apply M_bind_Ok in H as (? & w3 & Hput & H). injection Hput as _ <-.
  apply M_bind_Ok in H as (ld & ? & Hld & H). injection Hld as <- <-.
  apply M_bind_Ok in H as (? & w4 & Hput & H). injection Hput as _ <-.
  apply M_bind_Ok in H as (st & w5 & Hloop & H).
  apply collation_loop_aliases in Hloop.
  2:{ left. split; [done |]. simpl. rewrite lookup_app_r by lia.
      by rewrite Nat.sub_diag. }
  destruct Hloop as [[Hseq _]|(l0 & rest & row & Hitems & Hbatch & Hl0 & _)].
  { destruct batch; [done | discriminate Hseq]. }
  apply M_bind_Ok in H as (targets' & ? & Htargets & H).
  apply lift_Ok in Htargets as [_ ->].
  apply M_bind_Ok in H as (ld & ? & Hld & H). injection Hld as <- <-.
  apply M_bind_Ok in H as (? & w6 & Hput & H). injection Hput as _ <-.
  apply M_bind_Ok in H as (d & ? & Hd & H). injection Hd as <- <-.
  apply M_bind_Ok in H as (? & w7 & Hput & H). injection Hput as _ <-.
  injection H as _ <-. simpl.
  eexists _, l0, rest, row. rewrite last_snoc. simpl.
  split; [done |]. split; [done |]. split; done.
Qed.

End Aliasing.

(** * The claims about the metadata pipeline *)

(** C9 (as amended).  [__getitem__] of the base dataset class appends
    exactly the requested index to the access history; the path and the
    auxiliary-output classes return their sample without touching the
    history; the metadata collation leaves the history empty; so for a
    base-class dataset the history at collation time lists the drawn
    indices position for position. *)
Theorem access_history_tracks_base_class_only
    (env : environment) (uninit_float : float) (uninit_int : Z) :
  (forall index w s w',
      cls (w_dataset w) = SpectrogramDataset ->
      getitem env index w = (Ok s, w') ->
      access_history (w_dataset w') = access_history (w_dataset w) ++ [index])
  /\ (forall index w s w',
      cls (w_dataset w) ≠ SpectrogramDataset ->
      getitem env index w = (Ok s, w') ->
      access_history (w_dataset w') = access_history (w_dataset w))
  /\ (forall batch w out w',
      my_collate_fn env uninit_float uninit_int batch w = (Ok out, w') ->
      access_history (w_dataset w') = [])
  /\ (forall indices w batch w',
      cls (w_dataset w) = SpectrogramDataset ->
      access_history (w_dataset w) = [] ->
      fetch env indices w = (Ok batch, w') ->
      access_history (w_dataset w') = indices /\ length batch = length indices).
Proof.
  split; [|split; [|split]].
  - intros index w s w' Hcls H. unfold getitem in H.
    apply M_bind_Ok in H as (d & ? & Hd & H). injection Hd as <- <-.
    rewrite Hcls in H. by apply getitem_plain_history in H as (? & _).
  - intros index w s w' Hcls H. unfold getitem in H.
    apply M_bind_Ok in H as (d & ? & Hd & H). injection Hd as <- <-.
    destruct (cls (w_dataset w)); [done | |].
    + by apply getitem_path_history in H as ->.
    + by apply getitem_logits_history in H as ->.
  - intros batch w out w' H. by apply my_collate_fn_run in H as [_ ?].
  - intros indices w batch w' Hcls Hempty H.
    unfold fetch in H.
    destruct (fetch_history env indices [] w batch w' Hcls H) as (Hh & Hlen & _).
    rewrite Hh, Hempty. done.
Qed.

Lemma access_history_tracks_base_class_only_witness :
  exists batch w',
    fetch scenario_env [1; 0] (new_world (scenario_dataset SpectrogramDataset))
    = (Ok batch, w') /\
    access_history (w_dataset w') = [1; 0] /\ length batch = 2%nat.
Proof.
  destruct (fetch scenario_env [1; 0] (new_world (scenario_dataset SpectrogramDataset)))
    as [[batch|e] w'] eqn:E.
  - exists batch, w'. split; [reflexivity |].
    destruct (access_history_tracks_base_class_only scenario_env 0%float 0)
      as (_ & _ & _ & Hfetch).
    apply (Hfetch [1; 0] (new_world (scenario_dataset SpectrogramDataset)));
      [reflexivity | reflexivity | exact E].
  - vm_compute in E. discriminate E.
Defined.

(** C9 (as stated) fails for the path variant: [__getitem__] of
    [SpectrogramAndPathDataset] returns the sample of index 0 and leaves
    the access history empty. *)
Lemma getitem_path_skips_access_history :
  (exists s w',
     getitem scenario_env 0 (new_world (scenario_dataset SpectrogramAndPathDataset))
     = (Ok s, w') /\
     access_history (w_dataset w') = [])
  /\ ~ (forall index w s w',
          getitem scenario_env index w = (Ok s, w') ->
          access_history (w_dataset w') = access_history (w_dataset w) ++ [index]).
Proof.
  assert (E : exists s w',
     getitem scenario_env 0 (new_world (scenario_dataset SpectrogramAndPathDataset))
     = (Ok s, w') /\
     access_history (w_dataset w') = []).
  { eexists _, _. split; [vm_compute; reflexivity | reflexivity]. }
  split; [exact E |].
  intros H. destruct E as (s & w' & Hget & Hh).
  apply H in Hget. rewrite Hh in Hget. discriminate Hget.
Qed.

(** C2.  After the collation of the two-sample batch, entry 0 of the
    pushed item-level list is the batch aggregate, not sample 0's own
    metadata: its duration is 1.5 + 2.5, its size 32 + 32 and its frame
    count 5 + 8, because the aggregate is the very list object of the
    first item.  Entry 1 is sample 1's own row. *)
Theorem my_collate_fn_overwrites_first_item :
  let w' := (next_batch scenario_env 0%float 0 [0; 1]
               (new_world (scenario_dataset SpectrogramDataset))).2 in
  pushed_item_rows w'
  = [Some [PStr "a.wav"; PStr "a.txt"; PFloat 4; PFloat 64; PInt 13];
     Some [PStr "b.wav"; PStr "b.txt"; PFloat 2.5; PFloat 32; PInt 8]]
  /\ pushed_batch_row w'
     = Some [PStr "a.wav"; PStr "a.txt"; PFloat 4; PFloat 64; PInt 13]
  /\ (get_meta scenario_env 0 (new_world (scenario_dataset SpectrogramDataset))).1
     = Ok [PStr "a.wav"; PStr "a.txt"; PFloat 1.5; PFloat 32]
  /\ size1 feature_4x5 = 5%nat.
Proof. vm_compute. repeat split. Qed.

(** * Further properties of the pipeline *)

(** ** The evaluation loop recovers the per-sample labels *)

Lemma py_slice_middle {A} (xs ys zs : list A) :
  py_slice (xs ++ ys ++ zs) (Z.of_nat (length xs))
           (Z.of_nat (length xs) + Z.of_nat (length ys)) = ys.
Proof.
  unfold py_slice, slice_bound. rewrite !length_app.
  destruct (Z.ltb_spec (Z.of_nat (length xs)) 0); [lia |].
  destruct (Z.ltb_spec (Z.of_nat (length xs) + Z.of_nat (length ys)) 0); [lia |].
  rewrite !Z.min_l by lia.
  replace (Z.to_nat (Z.of_nat (length xs) + Z.of_nat (length ys)
                     - Z.of_nat (length xs))) with (length ys) by lia.
  rewrite Nat2Z.id, drop_app_length. by rewrite take_app_length.
Qed.

Lemma split_targets_loop (rest : list (list Z)) :
  forall (done : list (list Z)) (acc : list (list Z)),
    (foldl (fun '(split, offset) size =>
              (split ++ [py_slice (concat (done ++ rest)) offset (offset + size)],
               offset + size))
           (acc, Z.of_nat (length (concat done)))
           ((fun l => Z.of_nat (length l)) <$> rest)).1
    = acc ++ rest.
Proof.
  induction rest as [|l rest IH]; intros done acc.
  - simpl. by rewrite app_nil_r.
  - rewrite fmap_cons. cbn [foldl].
    replace (concat (done ++ l :: rest)) with (concat done ++ l ++ concat rest)
      by (rewrite concat_app; done).
    rewrite py_slice_middle.
    replace (Z.of_nat (length (concat done)) + Z.of_nat (length l))
      with (Z.of_nat (length (concat (done ++ [l]))))
      by (rewrite concat_app, length_app; simpl; rewrite app_nil_r; lia).
    replace (concat done ++ l ++ concat rest) with (concat ((done ++ [l]) ++ rest))
      by (rewrite <- app_assoc, concat_app; done).
    rewrite IH. by rewrite <- app_assoc.
Qed.

(** Cutting a concatenation at the lengths of its parts gives the parts
    back. *)
Lemma split_targets_concat (labels : list (list Z)) :
  split_targets (concat labels) ((fun l => Z.of_nat (length l)) <$> labels) = labels.
Proof. apply (split_targets_loop labels [] []). Qed.

(** X1.  The unflattening loop of [eval_model], run on the targets and
    target sizes that the plain or the metadata collator returned for a
    batch, yields exactly the label sequences of the batch's samples, in
    batch order. *)
Theorem split_targets_inverts_collation
    (env : environment) (uninit_float : float) (uninit_int : Z)
    (batch : list sample) :
  (forall out,
      _collate_fn uninit_float uninit_int batch = Ok out ->
      split_targets (targets4 out) (target_sizes4 out) = sample_1 <$> batch)
  /\ (forall w out w',
      my_collate_fn env uninit_float uninit_int batch w = (Ok out, w') ->
      split_targets (targets4 out) (target_sizes4 out) = sample_1 <$> batch).
Proof.
  assert (Hsplit : forall st F mx,
             pad_inv batch F mx (length batch) st ->
             split_targets (targets st) (target_sizes st) = sample_1 <$> batch).
  { intros st F mx Hinv. apply pad_inv_final in Hinv as (-> & _ & ->).
    rewrite <- (split_targets_concat (sample_1 <$> batch)) at 2.
    by rewrite <- list_fmap_compose. }
  split.
  - intros out H.
    apply _collate_fn_run in H as (? & st & _ & Hinv & _ & -> & _ & ->).
    by eapply Hsplit.
  - intros w out w' H.
    apply my_collate_fn_run in H as [(? & st & _ & Hinv & _ & -> & _ & ->) _].
    by eapply Hsplit.
Qed.

Lemma split_targets_inverts_collation_witness :
  exists out,
    _collate_fn 0%float 0 plain_batch = Ok out /\
    split_targets (targets4 out) (target_sizes4 out) = [[1; 2]; [2]].
Proof.
  destruct (_collate_fn_total 0%float 0 plain_batch 4) as [out E].
  - discriminate.
  - intros s Hs. unfold plain_batch in Hs. rewrite !elem_of_cons in Hs.
    destruct Hs as [->|[->|Hs]];
      [reflexivity | reflexivity | by apply elem_of_nil in Hs].
  - repeat constructor; vm_compute; congruence.
  - exists out. split; [exact E |].
    exact (proj1 (split_targets_inverts_collation scenario_env 0%float 0 plain_batch)
                 out E).
Defined.

(** ** The collators agree on what they share *)

Section Agreement.

Variable env : environment.
Variable uninit_float : float.
Variable uninit_int : Z.

Lemma paths_loop_pads (batch : list sample) (mx : nat) (xs : list nat) :
  forall st paths st' paths',
    foldM (fun '(st, paths) x =>
             sample ← from_option IndexError (batch !! x);
             path ← sample_2 sample;
             st' ← pad_sample mx x sample st;
             Ok (st', paths ++ [path])) (st, paths) xs = Ok (st', paths') ->
    foldM (fun st x =>
             sample ← from_option IndexError (batch !! x);
             pad_sample mx x sample st) st xs = Ok st'.
Proof.
  induction xs as [|x xs IH]; intros st paths st' paths' H; simpl in *.
  - by injection H as <- _.
  - apply bind_Ok in H as ([st1 p1] & Hstep & H).
    apply bind_Ok in Hstep as (sample & -> & Hstep).
    apply bind_Ok in Hstep as (path & _ & Hstep).
    apply bind_Ok in Hstep as (st2 & Hpad & Hstep).
    injection Hstep as <- _. simpl. rewrite Hpad. simpl. by eapply IH.
Qed.

Lemma logits_loop_pads (batch : list sample) (mx : nat) (xs : list nat) :
  forall st paths lg st' paths' lg',
    foldM (fun '(st, paths, logits) x =>
             sample ← from_option IndexError (batch !! x);
             path ← sample_2 sample;
             logit ← sample_3 sample;
             st' ← pad_sample mx x sample st;
             logits' ← copy_leading_rows logits x logit;
             Ok (st', paths ++ [path], logits')) (st, paths, lg) xs
    = Ok (st', paths', lg') ->
    foldM (fun st x =>
             sample ← from_option IndexError (batch !! x);
             pad_sample mx x sample st) st xs = Ok st'.
Proof.
  induction xs as [|x xs IH]; intros st paths lg st' paths' lg' H; simpl in *.
  - by injection H as <- _ _.
  - apply bind_Ok in H as ([[st1 p1] l1] & Hstep & H).
    apply bind_Ok in Hstep as (sample & -> & Hstep).
    apply bind_Ok in Hstep as (path & _ & Hstep).
    apply bind_Ok in Hstep as (logit & _ & Hstep).
    apply bind_Ok in Hstep as (st2 & Hpad & Hstep).
    apply bind_Ok in Hstep as (lg2 & _ & Hstep).
    injection Hstep as <- _ _. simpl. rewrite Hpad. simpl. by eapply IH.
Qed.

Lemma metadata_loop_pads (batch : list sample) (mx : nat) (xs : list nat) :
  forall st w st' w',
    forM (fun st x =>
            sample ← lift (from_option IndexError (batch !! x));
            st' ← lift (pad_sample mx x sample st);
            collect_meta env x (size1 (sample_0 sample));;
            mret st') st xs w = (Ok st', w') ->
    foldM (fun st x =>
             sample ← from_option IndexError (batch !! x);
             pad_sample mx x sample st) st xs = Ok st'.
Proof.
  induction xs as [|x xs IH]; intros st w st' w' H; simpl in *.
  - by injection H as <- _.
  - apply M_bind_Ok in H as (st1 & w1 & Hstep & H).
    apply M_bind_Ok in Hstep as (sample & ? & Hsample & Hstep).
    apply lift_Ok in Hsample as [-> ->].
    apply M_bind_Ok in Hstep as (st2 & ? & Hpad & Hstep).
    apply lift_Ok in Hpad as [Hpad ->].
    apply M_bind_Ok in Hstep as (? & ? & _ & Hstep).
    injection Hstep as <- _. simpl. rewrite Hpad. simpl. by eapply IH.
Qed.

End Agreement.

(** X2.  Whenever the path collator, the auxiliary collator or the
    metadata collator returns on a batch, the plain collator returns on
    that batch too, and with the same inputs, targets, valid-length
    fractions and target sizes. *)
Theorem collators_share_the_plain_result
    (env : environment) (uninit_float : float) (uninit_int : Z)
    (batch : list sample) :
  (forall out,
      _collate_fn_paths uninit_float uninit_int batch = Ok out ->
      _collate_fn uninit_float uninit_int batch
      = Ok {| inputs4 := inputs6 out; targets4 := targets6 out;
              input_percentages4 := input_percentages6 out;
              target_sizes4 := target_sizes6 out |})
  /\ (forall out,
      _collate_fn_logits uninit_float uninit_int batch = Ok out ->
      _collate_fn uninit_float uninit_int batch
      = Ok {| inputs4 := inputs6 out; targets4 := targets6 out;
              input_percentages4 := input_percentages6 out;
              target_sizes4 := target_sizes6 out |})
  /\ (forall w out w',
      my_collate_fn env uninit_float uninit_int batch w = (Ok out, w') ->
      _collate_fn uninit_float uninit_int batch = Ok out).
Proof.
  split; [|split].
  - intros out H. unfold _collate_fn_paths in H. unfold _collate_fn.
    apply bind_Ok in H as ([mx st0] & -> & H).
    apply bind_Ok in H as ([st paths] & Hloop & H).
    apply bind_Ok in H as (targets' & Htargets & H). injection H as <-.
    simpl. rewrite (paths_loop_pads _ _ _ _ _ _ _ Hloop). simpl.
    by rewrite Htargets.
  - intros out H. unfold _collate_fn_logits in H. unfold _collate_fn.
    apply bind_Ok in H as ([mx st0] & -> & H).
    do 4 (apply bind_Ok in H as (? & _ & H)).
    apply bind_Ok in H as ([[st paths] lg] & Hloop & H).
    apply bind_Ok in H as (targets' & Htargets & H). injection H as <-.
    simpl. rewrite (logits_loop_pads _ _ _ _ _ _ _ _ _ Hloop). simpl.
    by rewrite Htargets.
  - intros w out w' H. unfold my_collate_fn in H. unfold _collate_fn.
    apply M_bind_Ok in H as ([mx st0] & ? & Halloc & H).
    apply lift_Ok in Halloc as [-> ->].
    do 7 (apply M_bind_Ok in H as (? & ? & _ & H)).
    apply M_bind_Ok in H as (st & w2 & Hloop & H).
    apply M_bind_Ok in H as (targets' & ? & Htargets & H).
    apply lift_Ok in Htargets as [Htargets ->].
    do 4 (apply M_bind_Ok in H as (? & ? & _ & H)).
    injection H as <- _.
    simpl. rewrite (metadata_loop_pads env _ _ _ _ _ _ _ Hloop). simpl.
    by rewrite Htargets.
Qed.

Lemma collators_share_the_plain_result_witness :
  exists out,
    _collate_fn_paths 0%float 0 path_batch = Ok out /\
    _collate_fn 0%float 0 path_batch
    = Ok {| inputs4 := inputs6 out; targets4 := targets6 out;
            input_percentages4 := input_percentages6 out;
            target_sizes4 := target_sizes6 out |}.
Proof.
  destruct (_collate_fn_paths_total 0%float 0 path_batch 4) as [out E].
  - discriminate.
  - intros s Hs. unfold path_batch in Hs. rewrite !elem_of_cons in Hs.
    destruct Hs as [->|[->|Hs]];
      [reflexivity | reflexivity | by apply elem_of_nil in Hs].
  - intros s Hs. unfold path_batch in Hs. rewrite !elem_of_cons in Hs.
    destruct Hs as [->|[->|Hs]];
      [by eexists | by eexists | by apply elem_of_nil in Hs].
  - repeat constructor; vm_compute; congruence.
  - exists out. split; [exact E |].
    exact (proj1 (collators_share_the_plain_result scenario_env 0%float 0 path_batch)
                 out E).
Defined.

(** X3.  An empty batch makes every collator raise [ValueError] (the
    [max] over no samples); the metadata collator raises before it has
    touched the loader, the dataset or the heap, so no record is pushed
    and the access history is not cleared. *)
Theorem collators_reject_the_empty_batch
    (env : environment) (uninit_float : float) (uninit_int : Z) (w : world) :
  _collate_fn uninit_float uninit_int [] = Raise ValueError
  /\ _collate_fn_paths uninit_float uninit_int [] = Raise ValueError
  /\ _collate_fn_logits uninit_float uninit_int [] = Raise ValueError
  /\ my_collate_fn env uninit_float uninit_int [] w = (Raise ValueError, w).
Proof. repeat split. Qed.

(** ** Labels and the alphabet *)

Lemma labels_map_fold (l : list ascii) :
  forall (pre : list ascii) (m0 : gmap ascii Z),
    (forall c z, m0 !! c = Some z ->
                 0 <= z /\ (pre ++ l) !! Z.to_nat z = Some c) ->
    forall c z,
      foldl (fun m p => <[p.1 := p.2]> m) m0
            (imap (fun i c => (c, Z.of_nat (length pre + i))) l) !! c = Some z ->
      0 <= z /\ (pre ++ l) !! Z.to_nat z = Some c.
Proof.
  induction l as [|x l IH]; intros pre m0 Hm0 c z; [by apply Hm0 |].
  rewrite imap_cons. cbn [foldl fst snd].
  erewrite (imap_ext _ (fun i c => (c, Z.of_nat (length (pre ++ [x]) + i)))).
  2:{ intros i y _. simpl. rewrite length_app. simpl. do 2 f_equal. lia. }
  replace (pre ++ x :: l) with ((pre ++ [x]) ++ l) by (by rewrite <- app_assoc).
  apply IH. intros c' z' H.
  destruct (decide (c' = x)) as [->|Hne].
  - rewrite lookup_insert_eq in H. injection H as <-. split; [lia |].
    rewrite Nat2Z.id, Nat.add_0_r, <- app_assoc.
    rewrite lookup_app_r by lia. by rewrite Nat.sub_diag.
  - rewrite lookup_insert_ne in H by done. rewrite <- app_assoc. by apply Hm0.
Qed.

(** The vocabulary maps a character to a position at which the alphabet
    holds that character. *)
Lemma make_labels_map_lookup (labels : string) (c : ascii) (z : Z) :
  make_labels_map labels !! c = Some z ->
  0 <= z /\ list_ascii_of_string labels !! Z.to_nat z = Some c.
Proof.
  unfold make_labels_map. intros H.
  apply (labels_map_fold (list_ascii_of_string labels) [] ∅); [|exact H].
  intros c' z' H'. by rewrite lookup_empty in H'.
Qed.

(** X4.  The labels [parse_transcript] returns for a vocabulary built
    from an alphabet are positions 1, 2, ... of that alphabet, never 0,
    and reading the alphabet at these positions gives back, in order,
    the characters of the transcript that the vocabulary maps to a
    non-zero label. *)
Theorem parse_transcript_decodes_to_kept_characters
    (fs : filesystem) (labels path content : string) (out : list Z) :
  fs !! path = Some content ->
  parse_transcript fs (make_labels_map labels) path = Ok out ->
  Forall (fun z => 0 < z < Z.of_nat (length (list_ascii_of_string labels))) out
  /\ (fun z => list_ascii_of_string labels !! Z.to_nat z) <$> out
     = Some <$> filter (fun c => truthy (make_labels_map labels !! c) = true)
                       (strip_newlines content).
Proof.
  intros Hfile H. unfold parse_transcript in H. rewrite Hfile in H.
  simpl in H. injection H as <-. unfold filter_None.
  induction (strip_newlines content) as [|c cs [IH1 IH2]]; [by split |].
  rewrite fmap_cons. cbn [omap list_omap].
  destruct (make_labels_map labels !! c) as [z|] eqn:Hc; simpl.
  - destruct (Z.eqb_spec z 0) as [->|Hz]; simpl.
    + rewrite filter_cons_False by (rewrite Hc; simpl; discriminate). done.
    + apply make_labels_map_lookup in Hc as Hz'. destruct Hz' as [Hz0 Hlook].
      rewrite filter_cons_True
        by (rewrite Hc; simpl; by destruct (Z.eqb_spec z 0)).
      split.
      * constructor; [|done]. apply lookup_lt_Some in Hlook. lia.
      * rewrite !fmap_cons. by f_equal.
  - rewrite filter_cons_False by (rewrite Hc; simpl; discriminate). done.
Qed.

Lemma parse_transcript_decodes_to_kept_characters_witness :
  Forall (fun z => 0 < z < 3) [1; 2; 1]
  /\ (fun z => list_ascii_of_string "_ab" !! Z.to_nat z) <$> [1; 2; 1]
     = Some <$> filter (fun c => truthy (make_labels_map "_ab" !! c) = true)
                       (strip_newlines scenario_transcript).
Proof.
  apply (parse_transcript_decodes_to_kept_characters
           {[ "a.txt" := scenario_transcript ]} "_ab" "a.txt" scenario_transcript).
  - reflexivity.
  - vm_compute. reflexivity.
Defined.

Lemma parse_transcript_without_label_0_witness :
  parse_transcript {[ "a.txt" := scenario_transcript ]} (make_labels_map "_ab") "a.txt"
  = Ok (omap (fun c => make_labels_map "_ab" !! c) (strip_newlines scenario_transcript)).
Proof.
  apply (parse_transcript_without_label_0 _ _ _ scenario_transcript).
  - reflexivity.
  - intros c Hc. vm_compute in Hc.
    repeat (apply elem_of_cons in Hc as [->|Hc]; [vm_compute; discriminate |]).
    by apply elem_of_nil in Hc.
Defined.

(** The vocabulary after one more character at the end of the alphabet. *)
Lemma make_labels_map_snoc (l : list ascii) (x : ascii) :
  foldl (fun m p => <[p.1 := p.2]> m) (∅ : gmap ascii Z)
        (imap (fun i c => (c, Z.of_nat i)) (l ++ [x]))
  = <[x := Z.of_nat (length l)]>
      (foldl (fun m p => <[p.1 := p.2]> m) ∅
             (imap (fun i c => (c, Z.of_nat i)) l)).
Proof.
  rewrite imap_app, foldl_app. simpl. by rewrite Nat.add_0_r.
Qed.

(** X19.  The vocabulary built from an alphabet maps no character that
    the alphabet lacks, and maps a character that occurs several times
    to the position of its last occurrence: a later pair of the [dict]
    constructor overwrites an earlier one. *)
Theorem make_labels_map_last_occurrence (labels : string) (c : ascii) :
  (c ∉ list_ascii_of_string labels -> make_labels_map labels !! c = None)
  /\ forall i : nat,
      list_ascii_of_string labels !! i = Some c ->
      (forall j : nat, (i < j)%nat -> list_ascii_of_string labels !! j ≠ Some c) ->
      make_labels_map labels !! c = Some (Z.of_nat i).
Proof.
  unfold make_labels_map.
  induction (list_ascii_of_string labels) as [|x l [IHn IHs]] using rev_ind.
  - split; [done |]. intros i Hi. by rewrite lookup_nil in Hi.
  - rewrite make_labels_map_snoc. split.
    + intros Hc. rewrite elem_of_app, list_elem_of_singleton in Hc.
      rewrite lookup_insert_ne by (intros ->; tauto). apply IHn. tauto.
    + intros i Hi Hlast.
      destruct (decide (i = length l)) as [->|Hne].
      * rewrite lookup_app_r, Nat.sub_diag in Hi by lia. injection Hi as ->.
        by rewrite lookup_insert_eq.
      * assert (Hlt : (i < length l)%nat).
        { apply lookup_lt_Some in Hi. rewrite length_app in Hi. simpl in Hi. lia. }
        assert (Hx : x ≠ c).
        { intros ->. apply (Hlast (length l) Hlt).
          by rewrite lookup_app_r, Nat.sub_diag by lia. }
        rewrite lookup_insert_ne by done.
        rewrite lookup_app_l in Hi by done. apply IHs; [done |].
        intros j Hj Hjc. apply (Hlast j Hj).
        rewrite lookup_app_l; [done |]. by eapply lookup_lt_Some.
Qed.

Lemma make_labels_map_last_occurrence_witness :
  list_ascii_of_string "aba" !! 2%nat = Some "a"%char
  /\ make_labels_map "aba" !! "a"%char = Some 2.
Proof.
  split; [reflexivity |].
  apply (proj2 (make_labels_map_last_occurrence "aba" "a"%char) 2%nat).
  - reflexivity.
  - intros j Hj. rewrite lookup_ge_None_2 by (simpl; lia). discriminate.
Defined.

(** ** The parser's constructor *)

Lemma is_not_None_false (v : pyval) : is_not_None v = false -> v = PNone.
Proof. by destruct v. Qed.

(** The constructor returns only for a configuration whose [noise_dir]
    is absent or [None]. *)
Lemma SpectrogramParser_init_Ok_noise_dir
    (find_files : pyval -> pyval) (audio_conf : gmap string pyval)
    (normalize augment : bool) (force_duration : pyval) (p : SpectrogramParser) :
  SpectrogramParser_init find_files audio_conf normalize augment force_duration
  = Ok p ->
  py_get audio_conf "noise_dir" = PNone.
Proof.
  intros H.
  destruct (is_not_None (py_get audio_conf "noise_dir")) eqn:Hset.
  - destruct (SpectrogramParser_init_noise_dir_raises find_files audio_conf
                normalize augment force_duration Hset) as (e & He).
    rewrite He in H. discriminate H.
  - by apply is_not_None_false.
Qed.

(** X6.  A parser that the constructor returns never has a noise
    injector: it is returned only for a configuration without
    [noise_dir] (or with [noise_dir] set to [None]). *)
Theorem SpectrogramParser_init_never_installs_noise
    (find_files : pyval -> pyval) (audio_conf : gmap string pyval)
    (normalize augment : bool) (force_duration : pyval) (p : SpectrogramParser) :
  SpectrogramParser_init find_files audio_conf normalize augment force_duration
  = Ok p ->
  noiseInjector p = None /\ py_get audio_conf "noise_dir" = PNone.
Proof.
  intros H.
  destruct (is_not_None (py_get audio_conf "noise_dir")) eqn:Hset.
  - destruct (SpectrogramParser_init_noise_dir_raises find_files audio_conf
                normalize augment force_duration Hset) as (e & He).
    rewrite He in H. discriminate H.
  - split; [|by apply is_not_None_false].
    unfold SpectrogramParser_init in H. rewrite Hset in H.
    do 4 (apply bind_Ok in H as (? & _ & H)).
    apply bind_Ok in H as (inj & Hinj & H). injection Hinj as <-.
    apply bind_Ok in H as (? & _ & H). by injection H as <-.
Qed.

Lemma SpectrogramParser_init_never_installs_noise_witness :
  exists p,
    SpectrogramParser_init (fun _ => PNone)
      {[ "window_stride" := PFloat 0.25; "window_size" := PFloat 0.5;
         "sample_rate" := PInt 16000; "window" := PStr "hann" ]}
      true false (PInt (-1)) = Ok p
    /\ noiseInjector p = None.
Proof.
  destruct (SpectrogramParser_init (fun _ => PNone)
      {[ "window_stride" := PFloat 0.25; "window_size" := PFloat 0.5;
         "sample_rate" := PInt 16000; "window" := PStr "hann" ]}
      true false (PInt (-1))) as [p|e] eqn:E.
  - exists p. split; [reflexivity |].
    exact (proj1 (SpectrogramParser_init_never_installs_noise _ _ _ _ _ _ E)).
  - vm_compute in E. discriminate E.
Defined.

(** X7.  A configuration that lacks one of [window_stride],
    [window_size], [sample_rate] or [window] makes the constructor raise
    [KeyError].  With the four keys present, no [noise_dir], and a
    forced duration and a sample rate that are ints (or bools), the
    constructor returns: the parser has the configured stride, size and
    rate, no noise injector, and the exact integer product of duration
    and rate as its forced frame count.  On every parser it returns, a
    window name outside the four known ones has selected the Hamming
    window and a known name its own window. *)
Theorem SpectrogramParser_init_keys_and_window
    (find_files : pyval -> pyval) (audio_conf : gmap string pyval)
    (normalize augment : bool) (force_duration : pyval) :
  (audio_conf !! "window_stride" = None \/ audio_conf !! "window_size" = None \/
   audio_conf !! "sample_rate" = None \/ audio_conf !! "window" = None ->
   SpectrogramParser_init find_files audio_conf normalize augment force_duration
   = Raise KeyError)
  /\ (forall ws wz sr wn d r,
      audio_conf !! "window_stride" = Some ws ->
      audio_conf !! "window_size" = Some wz ->
      audio_conf !! "sample_rate" = Some sr ->
      audio_conf !! "window" = Some wn ->
      py_get audio_conf "noise_dir" = PNone ->
      operand_of force_duration = IntOperand d ->
      operand_of sr = IntOperand r ->
      exists p,
        SpectrogramParser_init find_files audio_conf normalize augment
                               force_duration = Ok p
        /\ window_stride p = ws /\ window_size p = wz /\ sample_rate p = sr
        /\ noiseInjector p = None
        /\ noise_prob p = py_get audio_conf "noise_prob"
        /\ force_frames p = d * r)
  /\ (forall p,
      SpectrogramParser_init find_files audio_conf normalize augment force_duration
      = Ok p ->
      (forall name,
          audio_conf !! "window" = Some (PStr name) ->
          name ∉ ["hamming"; "hann"; "blackman"; "bartlett"] ->
          window p = hamming)
      /\ (forall name fn,
          audio_conf !! "window" = Some (PStr name) ->
          windows !! name = Some fn ->
          window p = fn)
      /\ Some (sample_rate p) = audio_conf !! "sample_rate"
      /\ (forall d r,
          operand_of force_duration = IntOperand d ->
          operand_of (sample_rate p) = IntOperand r ->
          force_frames p = d * r)).
Proof.
  split; [|split].
  - intros Hmissing. unfold SpectrogramParser_init, py_getitem.
    destruct (audio_conf !! "window_stride"); [simpl |done].
    destruct (audio_conf !! "window_size"); [simpl |done].
    destruct (audio_conf !! "sample_rate"); [simpl |done].
    destruct (audio_conf !! "window"); [simpl |done].
    destruct Hmissing as [?|[?|[?|?]]]; discriminate.
  - intros ws wz sr wn d r Hws Hwz Hsr Hwn Hnone Hd Hr.
    unfold SpectrogramParser_init, py_getitem.
    rewrite Hws, Hwz, Hsr, Hwn, Hnone. simpl.
    unfold int_of_product. rewrite Hd, Hr. simpl.
    eexists. split; [reflexivity |]. simpl. done.
  - intros p H.
    pose proof (SpectrogramParser_init_Ok_noise_dir _ _ _ _ _ _ H) as Hnone.
    unfold SpectrogramParser_init in H. rewrite Hnone in H. simpl in H.
    apply bind_Ok in H as (ws & _ & H). apply bind_Ok in H as (wz & _ & H).
    apply bind_Ok in H as (sr & Hsr & H). apply bind_Ok in H as (wn & Hwn & H).
    apply bind_Ok in H as (ff & Hff & H).
    injection H as <-. simpl.
    apply from_option_Ok in Hsr, Hwn.
    split; [|split; [|split; [done |]]].
    + intros name Hname Hnot. rewrite Hwn in Hname. injection Hname as ->.
      rewrite !not_elem_of_cons in Hnot. destruct Hnot as (? & ? & ? & ? & _).
      unfold windows. rewrite !lookup_insert_ne by done.
      by rewrite lookup_singleton_ne by done.
    + intros name fn Hname Hfn. rewrite Hwn in Hname. injection Hname as ->.
      by rewrite Hfn.
    + intros d r Hd Hr. unfold int_of_product in Hff.
      rewrite Hd, Hr in Hff. by injection Hff as <-.
Qed.

Lemma SpectrogramParser_init_keys_and_window_witness :
  SpectrogramParser_init (fun _ => PNone)
    {[ "window_stride" := PFloat 0.25; "window_size" := PFloat 0.5;
       "window" := PStr "hann" ]} false false (PInt (-1))
  = Raise KeyError
  /\ exists p,
      SpectrogramParser_init (fun _ => PNone)
        {[ "window_stride" := PFloat 0.25; "window_size" := PFloat 0.5;
           "sample_rate" := PInt 16000; "window" := PStr "kaiser" ]}
        true false (PInt (-1)) = Ok p
      /\ force_frames p = -16000
      /\ sample_rate p = PInt 16000
      /\ noiseInjector p = None
      /\ window p = hamming.
Proof.
  split.
  - apply (SpectrogramParser_init_keys_and_window (fun _ => PNone)).
    right. right. left. reflexivity.
  - destruct (proj1 (proj2 (SpectrogramParser_init_keys_and_window
                (fun _ => PNone)
                {[ "window_stride" := PFloat 0.25; "window_size" := PFloat 0.5;
                   "sample_rate" := PInt 16000; "window" := PStr "kaiser" ]}
                true false (PInt (-1))))
              (PFloat 0.25) (PFloat 0.5) (PInt 16000) (PStr "kaiser") (-1) 16000)
      as (p & Hp & _ & _ & Hsr & Hnoise & _ & Hframes);
      [vm_compute; reflexivity .. |].
    exists p. split; [exact Hp |]. split; [exact Hframes |].
    split; [exact Hsr |]. split; [exact Hnoise |].
    apply (proj1 (proj2 (proj2 (SpectrogramParser_init_keys_and_window
                (fun _ => PNone) _ true false (PInt (-1)))) p Hp) "kaiser").
    + vm_compute. reflexivity.
    + rewrite !not_elem_of_cons. repeat split; try discriminate.
      apply not_elem_of_nil.
Defined.

(** ** What the dataset writes and what it only reads *)

Ltac run_M :=
  unfold mbind, M_bind, get_dataset, put_dataset, get_loader, put_loader,
    get_heap, put_heap, lift, mret, M_ret; simpl.

(** X8.  [__getitem__] of the base class records the index as soon as
    the manifest line is found, before the audio and the transcript are
    parsed: whatever the call then does, return or raise, the index has
    been appended to the access history.  An index outside the manifest
    raises [IndexError] and leaves everything as it was. *)
Theorem getitem_appends_before_parsing (env : environment) (index : Z) (w : world) :
  cls (w_dataset w) = SpectrogramDataset ->
  (forall entry r w',
      py_index (ids (w_dataset w)) index = Ok entry ->
      getitem env index w = (r, w') ->
      access_history (w_dataset w') = access_history (w_dataset w) ++ [index])
  /\ (forall e,
      py_index (ids (w_dataset w)) index = Raise e ->
      getitem env index w = (Raise e, w)).
Proof.
  intros Hcls. split.
  - intros entry r w' Hentry. unfold getitem, getitem_plain. run_M.
    rewrite Hcls. run_M. rewrite Hentry.
    repeat match goal with
           | |- context [match ?x with Ok _ => _ | Raise _ => _ end] => destruct x
           end; by intros [= <- <-].
  - intros e Hentry. unfold getitem, getitem_plain. run_M.
    rewrite Hcls. run_M. by rewrite Hentry.
Qed.

(** X9.  [get_meta] only reads: whatever it returns or raises, dataset,
    loader and heap are as before, so no access-history entry is added.
    What it returns are the two fields of the manifest line, the probed
    duration and the file size divided by 1000. *)
Theorem get_meta_only_reads (env : environment) (index : Z) (w : world) :
  forall r w',
    get_meta env index w = (r, w') ->
    w' = w
    /\ forall meta,
        r = Ok meta ->
        exists entry audio_path transcript_path audio_dur bytes,
          py_index (ids (w_dataset w)) index = Ok entry /\
          py_index entry 0 = Ok audio_path /\
          py_index entry 1 = Ok transcript_path /\
          sox_duration env audio_path = Ok audio_dur /\
          getsize env audio_path = Ok bytes /\
          meta = [PStr audio_path; PStr transcript_path; PFloat audio_dur;
                  PFloat (PrimFloat.div (float_of_Z bytes) (float_of_Z 1000))].
Proof.
  intros r w'. unfold get_meta. run_M.
  destruct (py_index (ids (w_dataset w)) index) as [entry|] eqn:Hentry;
    [|intros [= <- <-]; split; [done | discriminate]].
  destruct (py_index entry 0) as [a|] eqn:Ha;
    [|intros [= <- <-]; split; [done | discriminate]].
  destruct (py_index entry 1) as [t|] eqn:Ht;
    [|intros [= <- <-]; split; [done | discriminate]].
  destruct (sox_duration env a) as [d|] eqn:Hd;
    [|intros [= <- <-]; split; [done | discriminate]].
  destruct (getsize env a) as [b|] eqn:Hb;
    [|intros [= <- <-]; split; [done | discriminate]].
  intros [= <- <-]. split; [done |]. intros meta [= <-].
  exists entry, a, t, d, b. done.
Qed.

Lemma getitem_appends_before_parsing_witness :
  (getitem unreadable_env 0 (new_world (scenario_dataset SpectrogramDataset))).1
  = Raise IOError
  /\ access_history
       (w_dataset
          (getitem unreadable_env 0 (new_world (scenario_dataset SpectrogramDataset))).2)
     = [0].
Proof.
  split; [vm_compute; reflexivity |].
  apply (proj1 (getitem_appends_before_parsing unreadable_env 0
                  (new_world (scenario_dataset SpectrogramDataset)) eq_refl)
               ["a.wav"; "a.txt"]%string
               (getitem unreadable_env 0
                  (new_world (scenario_dataset SpectrogramDataset))).1).
  - reflexivity.
  - by destruct (getitem unreadable_env 0
                   (new_world (scenario_dataset SpectrogramDataset))).
Defined.

Lemma get_meta_only_reads_witness :
  (get_meta scenario_env (-1) (new_world (scenario_dataset SpectrogramDataset))).2
  = new_world (scenario_dataset SpectrogramDataset).
Proof.
  apply (get_meta_only_reads scenario_env (-1)
           (new_world (scenario_dataset SpectrogramDataset))
           (get_meta scenario_env (-1)
              (new_world (scenario_dataset SpectrogramDataset))).1).
  by destruct (get_meta scenario_env (-1)
                 (new_world (scenario_dataset SpectrogramDataset))).
Defined.

(** ** What the metadata collation writes *)

Lemma py_index_nat_Ok {A} (l : list A) (x : nat) (a : A) :
  py_index l (Z.of_nat x) = Ok a -> (x < length l)%nat.
Proof.
  unfold py_index.
  destruct (Z.leb_spec 0 (Z.of_nat x)); [|lia].
  destruct (Z.ltb_spec (Z.of_nat x) (Z.of_nat (length l))); simpl; [lia |].
  destruct (Z.ltb_spec (Z.of_nat x) 0); [lia |].
  rewrite andb_false_r. discriminate.
Qed.

Section Bookkeeping.

Variable env : environment.
Variable uninit_float : float.
Variable uninit_int : Z.

(** The additions into the aggregate write to the aggregate's list
    object only, and keep it as long as it was. *)
Lemma accumulate_frame last indices :
  forall u w u' w',
    forM (fun _ i =>
            ld ← get_loader;
            cur ← deref last;
            meta ← lift (from_option IndexError (cur !! i));
            if bool_decide (i ∈ [2; 3; 4]%nat)
            then heap_iadd (batch_meta ld) i meta
            else mret tt) u indices w = (Ok u', w') ->
    w_dataset w' = w_dataset w /\ w_loader w' = w_loader w /\
    length (w_heap w') = length (w_heap w) /\
    forall l, l ≠ batch_meta (w_loader w) -> w_heap w' !! l = w_heap w !! l.
Proof.
  induction indices as [|i indices IH]; intros u w u' w' H; simpl in H.
  - by injection H as _ <-.
  - apply M_bind_Ok in H as (u1 & w1 & Hstep & H).
    apply IH in H as (Hd & Hl & Hlen & Hother). clear IH.
    apply M_bind_Ok in Hstep as (ld & ? & Hld & Hstep). injection Hld as <- <-.
    apply M_bind_Ok in Hstep as (cur & ? & Hcur & Hstep).
    apply deref_Ok in Hcur as [-> _].
    apply M_bind_Ok in Hstep as (meta & ? & Hmeta & Hstep).
    apply lift_Ok in Hmeta as [_ ->].
    destruct (bool_decide (i ∈ [2; 3; 4]%nat)).
    + apply heap_iadd_Ok in Hstep as (row & new & Hrow & Hd1 & Hl1 & Hh1).
      rewrite Hd, Hl, Hlen, Hd1, Hl1, Hh1, length_insert.
      split; [done |]. split; [done |]. split; [done |].
      intros l Hne. rewrite Hother by (by rewrite Hl1).
      rewrite Hh1. by apply list_lookup_insert_ne.
    + injection Hstep as _ <-. done.
Qed.

(** Collecting the metadata of sample [x] keeps the bookkeeping. *)
Lemma collect_meta_bookkeeping w0 x seq_length w u w' :
  collating w0 x w ->
  collect_meta env x seq_length w = (Ok u, w') ->
  collating w0 (S x) w'.
Proof.
  intros [] H. unfold collect_meta in H.
  apply M_bind_Ok in H as (d & ? & Hd & H). injection Hd as <- <-.
  apply M_bind_Ok in H as (index & ? & Hi & H). apply lift_Ok in Hi as [Hi ->].
  apply py_index_nat_Ok in Hi. rewrite col_dataset0 in Hi.
  apply M_bind_Ok in H as (meta & ? & Hmeta & H). apply get_meta_world in Hmeta as ->.
  apply M_bind_Ok in H as (row & w1 & Hrow & H). injection Hrow as <- <-.
  apply M_bind_Ok in H as (ld & ? & Hld & H). injection Hld as <- <-.
  apply M_bind_Ok in H as (? & w2 & Hput & H). injection Hput as _ <-.
  apply M_bind_Ok in H as (ld & ? & Hld & H). injection Hld as <- <-.
  apply M_bind_Ok in H as (last & ? & Hlast & H). apply lift_Ok in Hlast as [Hlast ->].
  simpl in Hlast. rewrite py_index_last in Hlast. injection Hlast as <-.
  apply M_bind_Ok in H as (? & w3 & Happ & H).
  apply heap_append_Ok in Happ as (row & Hrow & Hds3 & Hld3 & Hheap3).
  simpl in Hrow, Hds3, Hld3, Hheap3.
  apply M_bind_Ok in H as (ld & ? & Hld & H). injection Hld as <- <-.
  apply M_bind_Ok in H as (aggregate & ? & Hagg & H).
  apply deref_Ok in Hagg as [-> _]. rewrite Hld3 in H. simpl in H.
  set (fresh := length (w_heap w)) in *.
  assert (Hlen3 : length (w_heap w3) = S fresh).
  { rewrite Hheap3, length_insert, length_app. simpl. lia. }
  assert (Hold3 : forall l, (l < length (w_heap w0))%nat ->
                            w_heap w3 !! l = w_heap w0 !! l).
  { intros l Hl. rewrite Hheap3, list_lookup_insert_ne by (subst fresh; lia).
    rewrite lookup_app_l by (subst fresh; lia). by apply col_old0. }
  destruct (length aggregate =? 0)%nat.
  - apply M_bind_Ok in H as (last' & ? & Hlast' & H).
    apply lift_Ok in Hlast' as [Hlast' ->].
    rewrite py_index_last in Hlast'. injection Hlast' as <-.
    injection H as _ <-. split; simpl; rewrite ?Hds3; try done.
    + rewrite length_app. simpl. lia.
    + subst fresh. lia.
  - apply M_bind_Ok in H as (last' & ? & Hlast' & H).
    apply lift_Ok in Hlast' as [Hlast' ->].
    rewrite py_index_last in Hlast'. injection Hlast' as <-.
    unfold accumulate in H.
    apply M_bind_Ok in H as (cur & ? & Hcur & H). apply deref_Ok in Hcur as [-> _].
    apply accumulate_frame in H as (Hd & Hl & Hlen & Hother).
    rewrite Hld3 in Hother, Hl. simpl in Hother.
    split; rewrite ?Hd, ?Hl, ?Hlen, ?Hds3; simpl; try done.
    + rewrite length_app. simpl. lia.
    + lia.
    + intros l Hl'. rewrite Hother by lia. by apply Hold3.
Qed.

End Bookkeeping.

Lemma forM_seq_world_inv {St} (f : St -> nat -> M St) (I : nat -> world -> Prop) :
  forall k a s w out w',
    forM f s (seq a k) w = (Ok out, w') ->
    I a w ->
    (forall i s1 s2 w1 w2, (a <= i < a + k)%nat -> I i w1 ->
                           f s1 i w1 = (Ok s2, w2) -> I (S i) w2) ->
    I (a + k)%nat w'.
Proof.
  induction k as [|k IH]; intros a s w out w' Hf Hi Hstep; simpl in Hf.
  - injection Hf as _ <-. by rewrite Nat.add_0_r.
  - apply M_bind_Ok in Hf as (s1 & w1 & Hs1 & Hf).
    replace (a + S k)%nat with (S a + k)%nat by lia.
    apply (IH (S a) s1 w1 out w'); [done | |].
    + apply (Hstep a s s1 w w1); [lia | done | done].
    + intros i s2 s3 w2 w3 Hi2. apply Hstep. lia.
Qed.

(** The world in which [my_collate_fn] leaves its loop, and what the
    last statements make of it. *)
Lemma my_collate_fn_bookkeeping
    (env : environment) (uninit_float : float) (uninit_int : Z)
    (batch : list sample) (w : world) (out : collated4) (w' : world) :
  my_collate_fn env uninit_float uninit_int batch w = (Ok out, w') ->
  exists w5,
    collating w (length batch) w5 /\
    w_heap w' = w_heap w5 /\
    w_dataset w' = set_access_history [] (w_dataset w5) /\
    w_loader w'
    = set_meta_buffer
        (meta_buffer (w_loader w5)
         ++ [{| mr_iter := iter (w_loader w5); mr_item := item_meta (w_loader w5);
                mr_batch := batch_meta (w_loader w5) |}])
        (w_loader w5).
Proof.
  unfold my_collate_fn. intros H.
  apply M_bind_Ok in H as ([mx st0] & ? & Halloc & H).
  apply lift_Ok in Halloc as [Halloc ->].
  apply M_bind_Ok in H as (ld & ? & Hld & H). injection Hld as <- <-.
  apply M_bind_Ok in H as (? & w1 & Hput & H). injection Hput as _ <-.
  apply M_bind_Ok in H as (fresh & w2 & Hfresh & H). injection Hfresh as <- <-.
  apply M_bind_Ok in H as (ld & ? & Hld & H). injection Hld as <- <-.
  apply M_bind_Ok in H as (? & w3 & Hput & H). injection Hput as _ <-.
  apply M_bind_Ok in H as (ld & ? & Hld & H). injection Hld as <- <-.
  apply M_bind_Ok in H as (? & w4 & Hput & H). injection Hput as _ <-.
  apply M_bind_Ok in H as (st & w5 & Hloop & H).
  apply (forM_seq_world_inv _ (collating w)) in Hloop.
  - apply M_bind_Ok in H as (targets' & ? & Htargets & H).
    apply lift_Ok in Htargets as [_ ->].
    apply M_bind_Ok in H as (ld & ? & Hld & H). injection Hld as <- <-.
    apply M_bind_Ok in H as (? & w6 & Hput & H). injection Hput as _ <-.
    apply M_bind_Ok in H as (d & ? & Hd & H). injection Hd as <- <-.
    apply M_bind_Ok in H as (? & w7 & Hput & H). injection Hput as _ <-.
    injection H as _ <-. exists w5. done.
  - split; simpl; try done; try lia.
    + rewrite length_app. simpl. lia.
    + intros l Hl. by apply lookup_app_l.
  - intros i s1 s2 wa wb _ Hcol Hstep.
    apply M_bind_Ok in Hstep as (sample & ? & Hsample & Hstep).
    apply lift_Ok in Hsample as [_ ->].
    apply M_bind_Ok in Hstep as (st' & ? & Hpad & Hstep).
    apply lift_Ok in Hpad as [_ ->].
    apply M_bind_Ok in Hstep as (? & wc & Hcollect & Hstep).
    injection Hstep as _ <-. by eapply collect_meta_bookkeeping.
Qed.

(** X10.  The metadata collation returns only if the access history
    holds at least one entry per sample of the batch: with a shorter
    history (as after drawing the batch from a path or auxiliary
    dataset, which record nothing) it raises. *)
Theorem my_collate_fn_needs_one_history_entry_per_sample
    (env : environment) (uninit_float : float) (uninit_int : Z)
    (batch : list sample) (w : world) (out : collated4) (w' : world) :
  my_collate_fn env uninit_float uninit_int batch w = (Ok out, w') ->
  (length batch <= length (access_history (w_dataset w)))%nat.
Proof.
  intros H. apply my_collate_fn_bookkeeping in H as (w5 & [] & _). done.
Qed.

(** X11.  A metadata collation that returns has appended exactly one
    record to the buffer, after the records that were there; the record
    carries the loader's counter, which has advanced by one, and one
    item row per sample of the batch; of the dataset only the access
    history has changed. *)
Theorem my_collate_fn_pushes_one_record
    (env : environment) (uninit_float : float) (uninit_int : Z)
    (batch : list sample) (w : world) (out : collated4) (w' : world) :
  my_collate_fn env uninit_float uninit_int batch w = (Ok out, w') ->
  exists r,
    meta_buffer (w_loader w') = meta_buffer (w_loader w) ++ [r] /\
    mr_iter r = iter (w_loader w) + 1 /\
    iter (w_loader w') = iter (w_loader w) + 1 /\
    length (mr_item r) = length batch /\
    w_dataset w' = set_access_history [] (w_dataset w).
Proof.
  intros H. apply my_collate_fn_bookkeeping in H as (w5 & [] & _ & Hd & Hl).
  eexists. rewrite Hl, Hd, col_dataset0. simpl. rewrite col_buffer0.
  split; [reflexivity |]. simpl.
  split; [exact col_iter0 |]. split; [exact col_iter0 |].
  split; [exact col_items0 | reflexivity].
Qed.

(** ** Objects that existed before a collation *)



Section Frame.

Variable env : environment.
Variable h0 : heap.

Lemma get_meta_any index w r w' : get_meta env index w = (r, w') -> w' = w.
Proof.
  unfold get_meta. run_M.
  repeat match goal with
         | |- context [match ?x with Ok _ => _ | Raise _ => _ end] => destruct x
         end; by intros [= _ <-].
Qed.






End Frame.



(** X13.  The consumer gets a pushed record without waiting: after a
    metadata collation that returned, [pop_meta_buffer] returns at once,
    without a single sleep and whatever the producer does meanwhile, the
    oldest record of the buffer, which is the new one when the buffer
    was empty before. *)
Theorem pop_meta_buffer_after_collation
    (env : environment) (uninit_float : float) (uninit_int : Z)
    (batch : list sample) (w : world) (out : collated4) (w' : world)
    (arrivals : nat -> list meta_record) (fuel : nat) :
  my_collate_fn env uninit_float uninit_int batch w = (Ok out, w') ->
  exists r oldest rest,
    meta_buffer (w_loader w) ++ [r] = oldest :: rest /\
    mr_iter r = iter (w_loader w) + 1 /\
    pop_meta_buffer arrivals fuel (w_loader w')
    = Some (Ok oldest, set_meta_buffer rest (w_loader w'), O).
Proof.
  intros H. apply my_collate_fn_bookkeeping in H as (w5 & [] & _ & _ & Hl).
  set (r := {| mr_iter := iter (w_loader w5); mr_item := item_meta (w_loader w5);
               mr_batch := batch_meta (w_loader w5) |}) in *.
  exists r.
  destruct (meta_buffer (w_loader w) ++ [r]) as [|oldest rest] eqn:Hbuf;
    [by destruct (meta_buffer (w_loader w)) |].
  exists oldest, rest. split; [done |]. split; [exact col_iter0 |].
  unfold pop_meta_buffer. rewrite poll_unfold.
  rewrite Hl. simpl. rewrite col_buffer0, Hbuf. simpl. done.
Qed.

Lemma my_collate_fn_needs_one_history_entry_per_sample_witness :
  (length plain_batch <= length (access_history (w_dataset drawn_world)))%nat.
Proof.
  destruct (my_collate_fn scenario_env 0%float 0 plain_batch drawn_world)
    as [[out|e] w'] eqn:E.
  - exact (my_collate_fn_needs_one_history_entry_per_sample _ _ _ _ _ _ _ E).
  - vm_compute in E. discriminate E.
Defined.

Lemma my_collate_fn_pushes_one_record_witness :
  exists out w' r,
    my_collate_fn scenario_env 0%float 0 plain_batch drawn_world = (Ok out, w') /\
    meta_buffer (w_loader w') = meta_buffer (w_loader drawn_world) ++ [r] /\
    mr_iter r = iter (w_loader drawn_world) + 1 /\
    iter (w_loader w') = iter (w_loader drawn_world) + 1 /\
    length (mr_item r) = length plain_batch /\
    w_dataset w' = set_access_history [] (w_dataset drawn_world).
Proof.
  destruct (my_collate_fn scenario_env 0%float 0 plain_batch drawn_world)
    as [[out|e] w'] eqn:E.
  - destruct (my_collate_fn_pushes_one_record _ _ _ _ _ _ _ E) as (r & Hr).
    exists out, w', r. split; [reflexivity | exact Hr].
  - vm_compute in E. discriminate E.
Defined.


Lemma pop_meta_buffer_after_collation_witness :
  exists out w' r oldest rest,
    my_collate_fn scenario_env 0%float 0 plain_batch drawn_world = (Ok out, w') /\
    meta_buffer (w_loader drawn_world) ++ [r] = oldest :: rest /\
    mr_iter r = iter (w_loader drawn_world) + 1 /\
    pop_meta_buffer never_arrives 0 (w_loader w')
    = Some (Ok oldest, set_meta_buffer rest (w_loader w'), O).
Proof.
  destruct (my_collate_fn scenario_env 0%float 0 plain_batch drawn_world)
    as [[out|e] w'] eqn:E.
  - destruct (pop_meta_buffer_after_collation _ _ _ _ _ _ _ never_arrives 0 E)
      as (r & oldest & rest & Hr).
    exists out, w', r, oldest, rest. split; [reflexivity | exact Hr].
  - vm_compute in E. discriminate E.
Defined.

Lemma my_collate_fn_aliases_first_item_witness :
  exists out w' r l0 rest row,
    my_collate_fn scenario_env 0%float 0 plain_batch drawn_world = (Ok out, w') /\
    last (meta_buffer (w_loader w')) = Some r /\
    mr_item r = l0 :: rest /\ mr_batch r = l0 /\
    w_heap w' !! l0 = Some row.
Proof.
  destruct (my_collate_fn scenario_env 0%float 0 plain_batch drawn_world)
    as [[out|e] w'] eqn:E.
  - destruct (my_collate_fn_aliases_first_item _ _ _ _ _ _ _ E)
      as (r & l0 & rest & row & Hr).
    exists out, w', r, l0, rest, row. split; [reflexivity | exact Hr].
  - vm_compute in E. discriminate E.
Defined.

Lemma load_audio_single_frame_witness :
  load_audio (fun _ => 0%float) (Arr2 1 1 [[1%float]]) 16000 = Raise IndexError.
Proof. apply load_audio_single_frame. lia. Defined.

(** ** Noise injection *)




Lemma wrap_copy_unfold fuel noise_src noise_dst src_offset src_left dst_offset dst_left :
  wrap_copy fuel noise_src noise_dst src_offset src_left dst_offset dst_left
  = if 0 <? dst_left then
      match fuel with
      | O => None
      | S fuel' =>
          let copy_size := Z.min dst_left src_left in
          match copyto_slice noise_dst dst_offset copy_size noise_src src_offset with
          | Raise e => Some (Raise e)
          | Ok noise_dst' =>
              if dst_left <? src_left then
                wrap_copy fuel' noise_src noise_dst' src_offset src_left dst_offset 0
              else
                wrap_copy fuel' noise_src noise_dst' 0
                          (Z.of_nat (length noise_src))
                          (dst_offset + copy_size) (dst_left - copy_size)
          end
      end
    else Some (Ok noise_dst).
Proof. destruct fuel; reflexivity. Qed.




Lemma copyto_slice_nothing (dst : list float) (d : Z) :
  exists dst', copyto_slice dst d 0 [] 0 = Ok dst'.
Proof.
  unfold copyto_slice. replace (d + 0) with d by lia.
  rewrite Z.sub_diag. change (py_slice [] 0 (0 + 0)) with (@nil float).
  simpl. eauto.
Qed.

(** With an empty source the loop copies nothing and never gets on. *)
Lemma wrap_copy_empty_source (fuel : nat) :
  forall dst d dl, 0 < dl -> wrap_copy fuel [] dst 0 0 d dl = None.
Proof.
  induction fuel as [|fuel IH]; intros dst d dl Hdl; rewrite wrap_copy_unfold;
    destruct (Z.ltb_spec 0 dl); try lia; [done |].
  cbv zeta. rewrite Z.min_r by lia.
  destruct (copyto_slice_nothing dst d) as (dst' & ->).
  destruct (Z.ltb_spec dl 0); [lia |].
  rewrite Z.sub_0_r. by apply IH.
Qed.

(** [int(0 * fraction)] is 0 for every finite fraction, and fails for
    the others. *)
Lemma float_trunc_zero_times (f : float) :
  float_trunc (PrimFloat.mul (float_of_Z 0) f) = Ok 0
  \/ float_trunc (PrimFloat.mul (float_of_Z 0) f) = Raise ValueError.
Proof.
  unfold float_trunc. rewrite FloatAxioms.mul_spec.
  change (Prim2SF (float_of_Z 0)) with (S754_zero false).
  destruct (Prim2SF f); simpl; auto.
Qed.



(** X15.  On a noise clip without samples and a non-empty input,
    [inject_noise_sample] never returns: the loop copies nothing and
    leaves [dst_left] as it is, so no number of passes ends it (for a
    fraction that is not a finite number, the offset computation raises
    first). *)
Theorem inject_noise_sample_hangs_on_empty_clip
    (np_mean : list float -> float)
    (fuel : nat) (data : list float) (decoded_noise : ndarray)
    (noise_level noise_offset_fraction : float) :
  to_mono np_mean decoded_noise = Arr1 [] ->
  data ≠ [] ->
  inject_noise_sample np_mean fuel data decoded_noise
                      noise_level noise_offset_fraction = None
  \/ inject_noise_sample np_mean fuel data decoded_noise
                         noise_level noise_offset_fraction = Some (Raise ValueError).
Proof.
  intros Hmono Hne. unfold inject_noise_sample, load_audio. rewrite Hmono.
  cbn -[float_of_Z float_trunc wrap_copy PrimFloat.mul].
  change (Z.of_nat 0) with 0.
  destruct (float_trunc_zero_times noise_offset_fraction) as [-> | ->]; [|by right].
  left. rewrite wrap_copy_empty_source; [done |]. destruct data; [done | simpl; lia].
Qed.

Lemma inject_noise_sample_hangs_on_empty_clip_witness :
  inject_noise_sample (fun _ => 0%float)
    1000 [10; 20]%float (Arr2 0 1 []) 0.5%float 0.5%float = None.
Proof.
  destruct (inject_noise_sample_hangs_on_empty_clip (fun _ => 0%float)
              1000 [10; 20]%float (Arr2 0 1 []) 0.5%float 0.5%float)
    as [H|H]; [reflexivity | discriminate | exact H |].
  vm_compute in H. discriminate H.
Defined.

(** ** The running average *)

Lemma meter_update_Ok (m : AverageMeter) (val : float) (n : Z) (m' : AverageMeter) :
  meter_update m val n = (Ok tt, m') ->
  meter_val m' = PFloat val /\
  meter_count m' = meter_count m + n /\
  meter_count m' ≠ 0 /\
  exists s c,
    meter_sum m' = PFloat s /\
    py_float_of_int (meter_count m') = Ok c /\
    meter_avg m' = PFloat (PrimFloat.div s c).
Proof.
  unfold meter_update.
  destruct (fn ← py_float_of_int n; py_add (meter_sum m) (PFloat (PrimFloat.mul val fn)))
    as [sum'|e]; [|discriminate].
  destruct sum' as [| | | |s|]; try discriminate.
  destruct (Z.eqb_spec (meter_count m + n) 0) as [|Hne]; [discriminate |].
  destruct (py_float_of_int (meter_count m + n)) as [c|e] eqn:Hc; [|discriminate].
  simpl. intros [= <-]. simpl. eauto 10.
Qed.

(** X16.  After a sequence of updates that all went through, the
    meter's count is the count it started with plus the sum of the
    weights [n], the count is not zero, and the average is the running
    sum divided by the count. *)
Theorem meter_updates_count_and_average (updates : list (float * Z)) :
  forall m0 m,
    meter_updates m0 updates = (Ok tt, m) ->
    meter_count m = meter_count m0 + sum_Z (snd <$> updates)
    /\ (updates ≠ [] ->
        meter_count m ≠ 0 /\
        exists s c,
          meter_sum m = PFloat s /\
          py_float_of_int (meter_count m) = Ok c /\
          meter_avg m = PFloat (PrimFloat.div s c)).
Proof.
  induction updates as [|[val n] updates IH]; intros m0 m H; simpl in H.
  - injection H as <-. split; [simpl; lia | done].
  - destruct (meter_update m0 val n) as [[[]|e] m1] eqn:Hstep; [|discriminate].
    apply meter_update_Ok in Hstep as (_ & Hcount & Hne & Havg).
    destruct updates as [|u updates].
    + simpl in H. injection H as <-. split; [|done].
      rewrite Hcount. simpl. lia.
    + apply IH in H as [Hsum Hrest]. split; [|intros _; by apply Hrest].
      rewrite Hsum, Hcount. rewrite (fmap_cons snd (val, n)).
      unfold sum_Z. cbn [foldr snd]. lia.
Qed.

Lemma meter_updates_count_and_average_witness :
  exists m,
    meter_updates meter_reset [(1.5%float, 1); (2.5%float, 3)] = (Ok tt, m) /\
    meter_count m = 4 /\
    meter_count m ≠ 0 /\
    exists s c,
      meter_sum m = PFloat s /\
      py_float_of_int (meter_count m) = Ok c /\
      meter_avg m = PFloat (PrimFloat.div s c).
Proof.
  destruct (meter_updates meter_reset [(1.5%float, 1); (2.5%float, 3)])
    as [[[]|e] m] eqn:E.
  - exists m. split; [reflexivity |].
    destruct (meter_updates_count_and_average _ _ _ E) as [Hcount Havg].
    split; [exact Hcount |]. apply Havg. discriminate.
  - vm_compute in E. discriminate E.
Defined.

(** X17.  An update that brings the count to zero (a fresh meter
    updated with weight 0, say) raises [ZeroDivisionError] after [val],
    [sum] and [count] have been assigned: the meter is left with the new
    value, the new sum, a zero count and its previous average. *)
Theorem meter_update_raises_on_zero_count
    (m : AverageMeter) (val : float) (n : Z) (fn : float) (sum' : pyval) :
  meter_count m + n = 0 ->
  py_float_of_int n = Ok fn ->
  py_add (meter_sum m) (PFloat (PrimFloat.mul val fn)) = Ok sum' ->
  meter_update m val n
  = (Raise ZeroDivisionError,
     {| meter_val := PFloat val; meter_avg := meter_avg m;
        meter_sum := sum'; meter_count := 0 |}).
Proof.
  intros Hzero Hfn Hsum. unfold meter_update. rewrite Hfn. simpl.
  rewrite Hsum, Hzero. simpl.
  destruct (meter_sum m); simpl in Hsum; try discriminate;
    injection Hsum as <-; done.
Qed.

Lemma meter_update_raises_on_zero_count_witness :
  meter_update meter_reset 1.5%float 0
  = (Raise ZeroDivisionError,
     {| meter_val := PFloat 1.5; meter_avg := PInt 0;
        meter_sum := PFloat 0; meter_count := 0 |}).
Proof.
  apply (meter_update_raises_on_zero_count meter_reset 1.5%float 0 0%float).
  - reflexivity.
  - vm_compute. reflexivity.
  - vm_compute. reflexivity.
Defined.

(** ** The rows of a pushed record *)

Lemma foldM_app {St A} (f : St -> A -> result St) (l1 l2 : list A) :
  forall s, foldM f s (l1 ++ l2) = s' ← foldM f s l1; foldM f s' l2.
Proof.
  induction l1 as [|a l1 IH]; intros s; simpl; [done |].
  destruct (f s a) as [s1|e]; simpl; [apply IH | done].
Qed.

Lemma add_row_length (row : list pyval) :
  forall agg agg', add_row agg row = Ok agg' -> length agg' = length agg.
Proof.
  unfold add_row. generalize (seq 0 (length row)).
  intros indices. induction indices as [|i indices IH]; intros agg agg' H; simpl in H.
  - by injection H as <-.
  - apply bind_Ok in H as (agg1 & Hstep & H). apply IH in H as ->.
    apply bind_Ok in Hstep as (meta & _ & Hstep).
    destruct (bool_decide (i ∈ [2; 3; 4]%nat)).
    + apply bind_Ok in Hstep as (old & _ & Hstep).
      apply bind_Ok in Hstep as (new & _ & Hstep).
      injection Hstep as <-. apply length_insert.
    + by injection Hstep as <-.
Qed.

Lemma heap_iadd_exact l i v w u w' :
  heap_iadd l i v w = (Ok u, w') ->
  exists row old new,
    w_heap w !! l = Some row /\ row !! i = Some old /\ py_add old v = Ok new /\
    w_dataset w' = w_dataset w /\ w_loader w' = w_loader w /\
    w_heap w' = <[l := <[i := new]> row]> (w_heap w).
Proof.
  unfold heap_iadd. intros H.
  apply M_bind_Ok in H as (row & ? & Hrow & H). apply deref_Ok in Hrow as [-> Hrow].
  apply M_bind_Ok in H as (old & ? & Hold & H). apply lift_Ok in Hold as [Hold ->].
  apply from_option_Ok in Hold.
  apply M_bind_Ok in H as (new & ? & Hnew & H). apply lift_Ok in Hnew as [Hnew ->].
  apply M_bind_Ok in H as (h & ? & Hh & H). injection Hh as <- <-.
  injection H as _ <-. eauto 10.
Qed.

Section Gathering.

Variable env : environment.
Variable uninit_float : float.
Variable uninit_int : Z.

Lemma get_meta_dataset index w w0 :
  w_dataset w = w_dataset w0 ->
  (get_meta env index w).1 = (get_meta env index w0).1.
Proof.
  intros Hd. unfold get_meta. run_M. rewrite Hd.
  repeat match goal with
         | |- context [match ?x with Ok _ => _ | Raise _ => _ end] => destruct x
         end; reflexivity.
Qed.

(** The additions into the aggregate, on a newest row that is another
    object than the aggregate, compute [add_row]. *)
Lemma accumulate_loop_pure (last : loc) (row : list pyval) (indices : list nat) :
  forall u w u' w' agg,
    last ≠ batch_meta (w_loader w) ->
    w_heap w !! last = Some row ->
    w_heap w !! batch_meta (w_loader w) = Some agg ->
    forM (fun _ i =>
            ld ← get_loader;
            cur ← deref last;
            meta ← lift (from_option IndexError (cur !! i));
            if bool_decide (i ∈ [2; 3; 4]%nat)
            then heap_iadd (batch_meta ld) i meta
            else mret tt) u indices w = (Ok u', w') ->
    exists agg',
      foldM (fun agg i =>
               meta ← from_option IndexError (row !! i);
               if bool_decide (i ∈ [2; 3; 4]%nat) then
                 old ← from_option IndexError (agg !! i);
                 new ← py_add old meta;
                 Ok (<[i := new]> agg)
               else Ok agg) agg indices = Ok agg' /\
      w_dataset w' = w_dataset w /\ w_loader w' = w_loader w /\
      w_heap w' = <[batch_meta (w_loader w) := agg']> (w_heap w).
Proof.
  induction indices as [|i indices IH]; intros u w u' w' agg Hne Hrow Hagg H; simpl in H.
  - injection H as _ <-. exists agg. split; [done |]. split; [done |].
    split; [done |]. symmetry. by apply list_insert_id.
  - apply M_bind_Ok in H as (u1 & w1 & Hstep & H).
    apply M_bind_Ok in Hstep as (ld & ? & Hld & Hstep). injection Hld as <- <-.
    apply M_bind_Ok in Hstep as (cur & ? & Hcur & Hstep).
    apply deref_Ok in Hcur as [-> Hcur].
    rewrite Hrow in Hcur. injection Hcur as <-.
    apply M_bind_Ok in Hstep as (meta & ? & Hmeta & Hstep).
    apply lift_Ok in Hmeta as [Hmeta ->].
    simpl. rewrite Hmeta. simpl.
    destruct (bool_decide (i ∈ [2; 3; 4]%nat)).
    + apply heap_iadd_exact in Hstep
        as (agg0 & old & new & Hagg0 & Hold & Hnew & Hd1 & Hl1 & Hh1).
      rewrite Hagg in Hagg0. injection Hagg0 as <-.
      rewrite Hold. simpl. rewrite Hnew. simpl.
      destruct (IH u1 w1 u' w' (<[i := new]> agg)) as (agg' & Hfold & Hd & Hl & Hh).
      * by rewrite Hl1.
      * rewrite Hh1. by rewrite list_lookup_insert_ne by done.
      * rewrite Hl1, Hh1. apply list_lookup_insert_eq. by eapply lookup_lt_Some.
      * done.
      * exists agg'. rewrite Hd, Hl, Hh, Hd1, Hl1, Hh1.
        split; [done |]. split; [done |]. split; [done |].
        by rewrite list_insert_insert_eq.
    + injection Hstep as _ <-. exact (IH u1 w u' w' agg Hne Hrow Hagg H).
Qed.

End Gathering.

Section GatheringStep.

Variable env : environment.

(** Collecting the metadata of sample [x] keeps the rows as described. *)
Lemma collect_meta_gathering w0 batch x s w u w' :
  gathering env w0 batch x w ->
  batch !! x = Some s ->
  collect_meta env x (size1 (sample_0 s)) w = (Ok u, w') ->
  gathering env w0 batch (S x) w'.
Proof.
  intros Hg Hs H. unfold collect_meta in H.
  apply M_bind_Ok in H as (d & ? & Hd & H). injection Hd as <- <-.
  apply M_bind_Ok in H as (index & ? & Hi & H). apply lift_Ok in Hi as [Hi ->].
  rewrite (g_dataset _ _ _ _ _ Hg) in Hi.
  apply M_bind_Ok in H as (meta & ? & Hmeta & H).
  pose proof (get_meta_world _ _ _ _ _ Hmeta) as ->.
  assert (Hown : own_row env w0 batch x
                 = Some (meta ++ [PInt (Z.of_nat (size1 (sample_0 s)))])).
  { unfold own_row. rewrite Hs, Hi.
    rewrite <- (get_meta_dataset env index w w0 (g_dataset _ _ _ _ _ Hg)).
    by rewrite Hmeta. }
  set (rowx := meta ++ [PInt (Z.of_nat (size1 (sample_0 s)))]) in *.
  assert (Hrowx : rowx ≠ []) by (subst rowx; by destruct meta).
  apply M_bind_Ok in H as (row & w1 & Hrow & H). injection Hrow as <- <-.
  apply M_bind_Ok in H as (ld & ? & Hld & H). injection Hld as <- <-.
  apply M_bind_Ok in H as (? & w2 & Hput & H). injection Hput as _ <-.
  apply M_bind_Ok in H as (ld & ? & Hld & H). injection Hld as <- <-.
  apply M_bind_Ok in H as (last & ? & Hlast & H). apply lift_Ok in Hlast as [Hlast ->].
  simpl in Hlast. rewrite py_index_last in Hlast. injection Hlast as <-.
  apply M_bind_Ok in H as (? & w3 & Happ & H).
  apply heap_append_Ok in Happ as (row & Hrow & Hds3 & Hld3 & Hheap3).
  simpl in Hrow, Hds3, Hld3, Hheap3.
  rewrite lookup_app_r, Nat.sub_diag in Hrow by lia. injection Hrow as <-.
  fold rowx in Hheap3.
  apply M_bind_Ok in H as (ld & ? & Hld & H). injection Hld as <- <-.
  apply M_bind_Ok in H as (aggregate & ? & Hagg & H).
  apply deref_Ok in Hagg as [-> Hagg]. rewrite Hld3 in Hagg, H. simpl in Hagg, H.
  set (fresh := length (w_heap w)) in *.
  assert (Hlen3 : length (w_heap w3) = S fresh).
  { rewrite Hheap3, length_insert, length_app. simpl. lia. }
  assert (Hold3 : forall l, (l < fresh)%nat -> w_heap w3 !! l = w_heap w !! l).
  { intros l Hl. rewrite Hheap3, list_lookup_insert_ne by lia.
    by rewrite lookup_app_l by (subst fresh; lia). }
  assert (Hfresh3 : w_heap w3 !! fresh = Some rowx).
  { rewrite Hheap3. apply list_lookup_insert_eq. rewrite length_app. simpl. lia. }
  assert (Hbound : forall l, l ∈ item_meta (w_loader w) -> (l < fresh)%nat)
    by (apply (g_bound _ _ _ _ _ Hg)).
  pose proof (g_aggregate _ _ _ _ _ Hg) as Haggregate.
  pose proof (g_length _ _ _ _ _ Hg) as Hlength.
  destruct (item_meta (w_loader w)) as [|l0 rest] eqn:Hitems.
  - (* the first sample: the aggregate becomes its row's object *)
    simpl in Hlength. subst x.
    assert (Hb : (batch_meta (w_loader w) < fresh)%nat)
      by (by eapply lookup_lt_Some).
    rewrite Hold3, Haggregate in Hagg by done. injection Hagg as <-.
    simpl in H.
    apply M_bind_Ok in H as (last' & ? & Hlast' & H).
    apply lift_Ok in Hlast' as [Hlast' ->].
    injection Hlast' as <-. injection H as _ <-.
    split; simpl; rewrite ?Hds3.
    + apply (g_dataset _ _ _ _ _ Hg).
    + done.
    + apply NoDup_singleton.
    + intros l Hl. apply list_elem_of_singleton in Hl as ->. lia.
    + intros j l Hj Hl. destruct j; [lia | done].
    + split; [done |]. exists [rowx], rowx.
      split; [done |]. split; [|by split].
      intros j Hj. assert (j = O) as -> by lia. done.
  - (* a later sample: its row is added into the first item's object *)
    destruct Haggregate as (Hb & rows & agg & Hrows_len & Hrows & Haggr & Hagg_ne & Hl0).
    assert (Hl0_lt : (l0 < fresh)%nat) by (apply Hbound; left).
    rewrite Hb, Hold3, Hl0 in Hagg by done. injection Hagg as <-.
    destruct agg as [|a0 agg]; [done |]. cbn [length Nat.eqb] in H.
    apply M_bind_Ok in H as (last' & ? & Hlast' & H).
    apply lift_Ok in Hlast' as [Hlast' ->].
    rewrite (py_index_last (l0 :: rest)) in Hlast'. injection Hlast' as <-.
    unfold accumulate in H.
    apply M_bind_Ok in H as (cur & ? & Hcur & H). apply deref_Ok in Hcur as [-> Hcur].
    rewrite Hfresh3 in Hcur. injection Hcur as <-.
    apply (accumulate_loop_pure fresh rowx _ _ _ _ _ (a0 :: agg)) in H
      as (agg' & Hfold & Hd & Hl & Hh).
    2:{ rewrite Hld3. simpl. lia. }
    2:{ done. }
    2:{ rewrite Hld3. simpl. rewrite Hb, Hold3 by done. done. }
    fold (add_row (a0 :: agg) rowx) in Hfold.
    rewrite Hld3 in Hh, Hl. simpl in Hh. rewrite Hb in Hh.
    split; rewrite ?Hd, ?Hl, ?Hds3; simpl.
    + apply (g_dataset _ _ _ _ _ Hg).
    + rewrite length_app. simpl. simpl in Hlength. lia.
    + change (l0 :: rest ++ [fresh]) with ((l0 :: rest) ++ [fresh]).
      apply NoDup_app. split; [rewrite <- Hitems; apply (g_nodup _ _ _ _ _ Hg) |].
      split; [|apply NoDup_singleton].
      intros l Hl1 Hl2. apply list_elem_of_singleton in Hl2 as ->.
      apply Hbound in Hl1. lia.
    + intros l Hl'. rewrite Hh, length_insert, Hlen3.
      change (l0 :: rest ++ [fresh]) with ((l0 :: rest) ++ [fresh]) in Hl'.
      apply elem_of_app in Hl' as [Hl'|Hl'].
      * apply Hbound in Hl'. lia.
      * apply list_elem_of_singleton in Hl' as ->. lia.
    + intros j l Hj Hjl.
      change (l0 :: rest ++ [fresh]) with ((l0 :: rest) ++ [fresh]) in Hjl.
      destruct (decide (j < x)%nat) as [Hlt|Hge].
      * rewrite lookup_app_l in Hjl by (simpl in *; lia).
        assert (Hne : l ≠ l0).
        { intros ->. pose proof (g_nodup _ _ _ _ _ Hg) as Hnd.
          rewrite Hitems in Hnd.
          assert (j = O); [|lia].
          eapply NoDup_lookup; [exact Hnd | exact Hjl | done]. }
        assert (Hlt' : (l < fresh)%nat)
          by (apply Hbound; by eapply list_elem_of_lookup_2).
        rewrite Hh, list_lookup_insert_ne, Hold3 by done.
        rewrite <- Hitems in Hjl. apply (g_rows _ _ _ _ _ Hg); done.
      * assert (j = x) as ->.
        { apply lookup_lt_Some in Hjl. rewrite length_app in Hjl.
          simpl in *. lia. }
        rewrite lookup_app_r in Hjl by (simpl in *; lia).
        replace (x - length (l0 :: rest))%nat with O in Hjl by (simpl in *; lia).
        injection Hjl as <-.
        rewrite Hh, list_lookup_insert_ne, Hfresh3, Hown by lia. by split.
    + split; [done |]. exists (rows ++ [rowx]), agg'.
      split; [rewrite length_app; simpl; lia |]. split; [|split; [|split]].
      * intros j Hj. destruct (decide (j < x)%nat) as [Hlt|Hge].
        -- rewrite lookup_app_l by lia. by apply Hrows.
        -- assert (j = x) as -> by lia.
           rewrite lookup_app_r by lia.
           replace (x - length rows)%nat with O by lia. done.
      * destruct rows as [|r0 rs]; [simpl in *; lia |].
        simpl. simpl in Haggr. rewrite foldM_app, Haggr. simpl.
        by rewrite Hfold.
      * apply add_row_length in Hfold. by destruct agg'.
      * rewrite Hh. apply list_lookup_insert_eq. lia.
Qed.

End GatheringStep.

(** The rows in the heap when [my_collate_fn] has left its loop. *)
Lemma my_collate_fn_gathering
    (env : environment) (uninit_float : float) (uninit_int : Z)
    (batch : list sample) (w : world) (out : collated4) (w' : world) :
  my_collate_fn env uninit_float uninit_int batch w = (Ok out, w') ->
  exists w5,
    gathering env w batch (length batch) w5 /\
    w_heap w' = w_heap w5 /\
    last (meta_buffer (w_loader w'))
    = Some {| mr_iter := iter (w_loader w5); mr_item := item_meta (w_loader w5);
              mr_batch := batch_meta (w_loader w5) |}.
Proof.
  unfold my_collate_fn. intros H.
  apply M_bind_Ok in H as ([mx st0] & ? & Halloc & H).
  apply lift_Ok in Halloc as [Halloc ->].
  apply M_bind_Ok in H as (ld & ? & Hld & H). injection Hld as <- <-.
  apply M_bind_Ok in H as (? & w1 & Hput & H). injection Hput as _ <-.
  apply M_bind_Ok in H as (fresh & w2 & Hfresh & H). injection Hfresh as <- <-.
  apply M_bind_Ok in H as (ld & ? & Hld & H). injection Hld as <- <-.
  apply M_bind_Ok in H as (? & w3 & Hput & H). injection Hput as _ <-.
  apply M_bind_Ok in H as (ld & ? & Hld & H). injection Hld as <- <-.
  apply M_bind_Ok in H as (? & w4 & Hput & H). injection Hput as _ <-.
  apply M_bind_Ok in H as (st & w5 & Hloop & H).
  apply (forM_seq_world_inv _ (gathering env w batch)) in Hloop.
  - apply M_bind_Ok in H as (targets' & ? & Htargets & H).
    apply lift_Ok in Htargets as [_ ->].
    apply M_bind_Ok in H as (ld & ? & Hld & H). injection Hld as <- <-.
    apply M_bind_Ok in H as (? & w6 & Hput & H). injection Hput as _ <-.
    apply M_bind_Ok in H as (d & ? & Hd & H). injection Hd as <- <-.
    apply M_bind_Ok in H as (? & w7 & Hput & H). injection Hput as _ <-.
    injection H as _ <-. exists w5. split; [done |]. split; [done |].
    simpl. by rewrite last_snoc.
  - split; simpl; try done.
    + apply NoDup_nil_2.
    + intros l Hl. by apply elem_of_nil in Hl.
    + rewrite lookup_app_r by lia. by rewrite Nat.sub_diag.
  - intros i s1 s2 wa wb _ Hg Hstep.
    apply M_bind_Ok in Hstep as (sample & ? & Hsample & Hstep).
    apply lift_Ok in Hsample as [Hsample ->]. apply from_option_Ok in Hsample.
    apply M_bind_Ok in Hstep as (st' & ? & Hpad & Hstep).
    apply lift_Ok in Hpad as [_ ->].
    apply M_bind_Ok in Hstep as (? & wc & Hcollect & Hstep).
    injection Hstep as _ <-. by eapply collect_meta_gathering.
Qed.

(** The record that a returning metadata collation pushes: its
    aggregate row is the aggregate of the samples' own rows (the first
    row with the later ones added into it); its first item is that very
    list object; each later item holds its sample's own row, i.e. the
    result of [get_meta] for the matching access-history entry followed
    by the sample's number of time frames. *)
Lemma my_collate_fn_rows
    (env : environment) (uninit_float : float) (uninit_int : Z)
    (batch : list sample) (w : world) (out : collated4) (w' : world) :
  my_collate_fn env uninit_float uninit_int batch w = (Ok out, w') ->
  exists r rows agg,
    last (meta_buffer (w_loader w')) = Some r /\
    length rows = length batch /\
    (forall j, (j < length batch)%nat -> own_row env w batch j = rows !! j) /\
    aggregate_of rows = Ok agg /\
    w_heap w' !! mr_batch r = Some agg /\
    mr_item r !! O = Some (mr_batch r) /\
    (forall j l, (1 <= j)%nat -> mr_item r !! j = Some l ->
                 w_heap w' !! l = rows !! j).
Proof.
  intros H.
  assert (Hne : batch ≠ []).
  { intros ->. unfold my_collate_fn in H. discriminate H. }
  apply my_collate_fn_gathering in H as (w5 & Hg & Hh & Hlast).
  pose proof (g_aggregate _ _ _ _ _ Hg) as Hagg.
  pose proof (g_length _ _ _ _ _ Hg) as Hlen.
  destruct (item_meta (w_loader w5)) as [|l0 rest] eqn:Hitems.
  { simpl in Hlen. by destruct batch. }
  destruct Hagg as (Hb & rows & agg & Hrows_len & Hrows & Haggr & _ & Hl0).
  eexists _, rows, agg. split; [exact Hlast |]. simpl.
  rewrite Hh, Hb. split; [done |]. split; [done |]. split; [done |].
  split; [done |]. split; [done |].
  intros j l Hj Hjl.
  destruct (g_rows _ _ _ _ _ Hg j l Hj) as [_ ->]; [by rewrite Hitems |].
  apply Hrows. apply lookup_lt_Some in Hjl. simpl in *. lia.
Qed.

(** Adding one well-shaped row into a well-shaped aggregate. *)
Lemma add_row_meta_rows a t d s f a' t' d' s' f' :
  add_row (meta_row (a, t, d, s, f)) (meta_row (a', t', d', s', f'))
  = Ok (meta_row (a, t, PrimFloat.add d d', PrimFloat.add s s', f + f')).
Proof. reflexivity. Qed.

(** On rows of the shape the collation builds, the aggregate keeps the
    two paths of the first row and holds the durations and the sizes
    added up from left to right in floating point, and the integer sum
    of the frame counts. *)
Lemma aggregate_of_meta_rows
    (first : string * string * float * float * Z)
    (rest : list (string * string * float * float * Z)) :
  aggregate_of (meta_row <$> first :: rest)
  = Ok (meta_row (first.1.1.1.1, first.1.1.1.2,
                  foldl PrimFloat.add first.1.1.2 ((fun m => m.1.1.2) <$> rest),
                  foldl PrimFloat.add first.1.2 ((fun m => m.1.2) <$> rest),
                  first.2 + sum_Z (snd <$> rest))).
Proof.
  rewrite fmap_cons. unfold aggregate_of. revert first.
  induction rest as [|[[[[a' t'] d'] s'] f'] rest IH];
    intros [[[[a t] d] s] f].
  - simpl. by rewrite Z.add_0_r.
  - rewrite fmap_cons. cbn [foldM]. rewrite add_row_meta_rows.
    change (foldM add_row
              (meta_row (a, t, PrimFloat.add d d', PrimFloat.add s s', f + f'))
              (meta_row <$> rest)
            = Ok (meta_row (a, t,
                   foldl PrimFloat.add d ((fun m => m.1.1.2) <$> (a', t', d', s', f') :: rest),
                   foldl PrimFloat.add s ((fun m => m.1.2) <$> (a', t', d', s', f') :: rest),
                   f + sum_Z (snd <$> (a', t', d', s', f') :: rest)))).
    rewrite (IH (a, t, PrimFloat.add d d', PrimFloat.add s s', f + f')).
    rewrite !fmap_cons. cbn [foldl fst snd]. do 3 f_equal.
    unfold sum_Z. simpl. lia.
Qed.

Lemma meta_row_inj m m' : meta_row m = meta_row m' -> m = m'.
Proof.
  destruct m as [[[[a t] d] s] f], m' as [[[[a' t'] d'] s'] f'].
  unfold meta_row. congruence.
Qed.

(** A sample's own row has the shape of [meta_row], and its last field
    is the sample's number of time frames. *)
Lemma own_row_meta_row (env : environment) (w0 : world) (batch : list sample)
    (j : nat) (row : list pyval) :
  own_row env w0 batch j = Some row ->
  exists m s,
    row = meta_row m /\ batch !! j = Some s /\
    m.2 = Z.of_nat (size1 (sample_0 s)).
Proof.
  unfold own_row. destruct (batch !! j) as [s|]; [|discriminate].
  destruct (py_index (access_history (w_dataset w0)) (Z.of_nat j))
    as [index|]; [|discriminate].
  unfold get_meta. run_M.
  destruct (py_index (ids (w_dataset w0)) index) as [entry|]; [|discriminate].
  simpl. destruct (py_index entry 0) as [a|]; [|discriminate].
  simpl. destruct (py_index entry 1) as [t|]; [|discriminate].
  simpl. destruct (sox_duration env a) as [d|]; [|discriminate].
  simpl. destruct (getsize env a) as [b|]; [|discriminate].
  simpl. intros [= <-].
  by exists (a, t, d, PrimFloat.div (float_of_Z b) (float_of_Z 1000),
             Z.of_nat (size1 (sample_0 s))), s.
Qed.

Lemma rows_are_meta_rows (rows : list (list pyval)) :
  (forall j row, rows !! j = Some row -> exists m, row = meta_row m) ->
  exists ms, rows = meta_row <$> ms.
Proof.
  induction rows as [|row rows IH]; intros H.
  - by exists [].
  - destruct (H O row eq_refl) as [m ->].
    destruct IH as [ms ->].
    { intros j r Hj. by apply (H (S j)). }
    by exists (m :: ms).
Qed.

(** X18.  The record that a returning metadata collation pushes.  With
    one row per sample, made of the result of [get_meta] for the matching
    access-history entry and the sample's number of time frames: the
    first item of the record is the very list object of its batch row;
    that object holds the first sample's two paths, the durations and
    the sizes of all samples added up from left to right in floating
    point, and the integer sum of all frame counts; each later item
    holds its own sample's row. *)
Theorem my_collate_fn_record_rows
    (env : environment) (uninit_float : float) (uninit_int : Z)
    (batch : list sample) (w : world) (out : collated4) (w' : world) :
  my_collate_fn env uninit_float uninit_int batch w = (Ok out, w') ->
  exists r first rest,
    last (meta_buffer (w_loader w')) = Some r /\
    length (first :: rest) = length batch /\
    (forall j, (j < length batch)%nat ->
               own_row env w batch j = meta_row <$> (first :: rest) !! j) /\
    snd <$> first :: rest
    = (fun s => Z.of_nat (size1 (sample_0 s))) <$> batch /\
    mr_item r !! O = Some (mr_batch r) /\
    w_heap w' !! mr_batch r
    = Some (meta_row
              (first.1.1.1.1, first.1.1.1.2,
               foldl PrimFloat.add first.1.1.2 ((fun m => m.1.1.2) <$> rest),
               foldl PrimFloat.add first.1.2 ((fun m => m.1.2) <$> rest),
               first.2 + sum_Z (snd <$> rest))) /\
    (forall j l, (1 <= j)%nat -> mr_item r !! j = Some l ->
                 w_heap w' !! l = meta_row <$> (first :: rest) !! j).
Proof.
  intros H.
  assert (Hne : batch ≠ []).
  { intros ->. unfold my_collate_fn in H. discriminate H. }
  apply my_collate_fn_rows in H
    as (r & rows & agg & Hlast & Hlen & Hrows & Hagg & Hbatch & Hfirst & Hitems).
  destruct (rows_are_meta_rows rows) as [ms ->].
  { intros j row Hj.
    assert (Hlt : (j < length batch)%nat)
      by (rewrite <- Hlen; by eapply lookup_lt_Some).
    rewrite <- (Hrows j Hlt) in Hj.
    apply own_row_meta_row in Hj as (m & _ & -> & _). by exists m. }
  rewrite length_fmap in Hlen.
  destruct ms as [|first rest]; [by destruct batch |].
  rewrite aggregate_of_meta_rows in Hagg. injection Hagg as <-.
  exists r, first, rest.
  split; [done |]. split; [done |].
  split; [intros j Hj; by rewrite (Hrows j Hj), list_lookup_fmap |].
  split.
  { apply list_eq. intros j. rewrite !list_lookup_fmap.
    destruct (decide (j < length batch)%nat) as [Hj|Hj].
    - pose proof (Hrows j Hj) as Hown. rewrite list_lookup_fmap in Hown.
      destruct ((first :: rest) !! j) as [m|] eqn:Hm.
      + simpl in Hown. apply own_row_meta_row in Hown as (m' & s & Hmm & -> & Hf).
        apply meta_row_inj in Hmm as <-. simpl. by rewrite Hf.
      + apply lookup_ge_None in Hm. lia.
    - rewrite !lookup_ge_None_2 by lia. done. }
  split; [done |]. split; [done |].
  intros j l Hj Hjl. by rewrite (Hitems j l Hj Hjl), list_lookup_fmap.
Qed.

Lemma my_collate_fn_record_rows_witness :
  exists out w' r first rest,
    my_collate_fn scenario_env 0%float 0 plain_batch drawn_world = (Ok out, w') /\
    last (meta_buffer (w_loader w')) = Some r /\
    length (first :: rest) = length plain_batch /\
    (forall j, (j < length plain_batch)%nat ->
               own_row scenario_env drawn_world plain_batch j
               = meta_row <$> (first :: rest) !! j) /\
    snd <$> first :: rest
    = (fun s => Z.of_nat (size1 (sample_0 s))) <$> plain_batch /\
    mr_item r !! O = Some (mr_batch r) /\
    w_heap w' !! mr_batch r
    = Some (meta_row
              (first.1.1.1.1, first.1.1.1.2,
               foldl PrimFloat.add first.1.1.2 ((fun m => m.1.1.2) <$> rest),
               foldl PrimFloat.add first.1.2 ((fun m => m.1.2) <$> rest),
               first.2 + sum_Z (snd <$> rest))) /\
    (forall j l, (1 <= j)%nat -> mr_item r !! j = Some l ->
                 w_heap w' !! l = meta_row <$> (first :: rest) !! j).
Proof.
  destruct (my_collate_fn scenario_env 0%float 0 plain_batch drawn_world)
    as [[out|e] w'] eqn:E.
  - destruct (my_collate_fn_record_rows _ _ _ _ _ _ _ E)
      as (r & first & rest & Hr).
    exists out, w', r, first, rest. split; [reflexivity | exact Hr].
  - vm_compute in E. discriminate E.
Defined.

(** * The metadata collation goes through *)

Lemma M_bind_run {A B} (m : M A) (f : A -> M B) (w : world) a w1 :
  m w = (Ok a, w1) -> (m ≫= f) w = f a w1.
Proof. unfold mbind, M_bind. by intros ->. Qed.

Lemma lift_run {A} (r : result A) (a : A) (w : world) :
  r = Ok a -> lift r w = (Ok a, w).
Proof. by intros ->. Qed.

Lemma deref_run l row w :
  w_heap w !! l = Some row -> deref l w = (Ok row, w).
Proof. intros H. unfold deref. run_M. by rewrite H. Qed.

Lemma heap_append_run l v row w :
  w_heap w !! l = Some row ->
  heap_append l v w
  = (Ok tt, {| w_dataset := w_dataset w; w_loader := w_loader w;
               w_heap := <[l := row ++ [v]]> (w_heap w) |}).
Proof. intros H. unfold heap_append, deref. run_M. by rewrite H. Qed.

Lemma heap_iadd_run l i v row old new w :
  w_heap w !! l = Some row -> row !! i = Some old -> py_add old v = Ok new ->
  heap_iadd l i v w
  = (Ok tt, {| w_dataset := w_dataset w; w_loader := w_loader w;
               w_heap := <[l := <[i := new]> row]> (w_heap w) |}).
Proof.
  intros H Hold Hnew. unfold heap_iadd, deref. run_M.
  rewrite H. simpl. rewrite Hold. simpl. by rewrite Hnew.
Qed.

(** A loop in [M] runs to its end when every step does. *)
Lemma forM_seq_total {St} (f : St -> nat -> M St) (I : nat -> St -> world -> Prop) :
  forall k a s w,
    I a s w ->
    (forall i s1 w1, (a <= i < a + k)%nat -> I i s1 w1 ->
                     exists s2 w2, f s1 i w1 = (Ok s2, w2) /\ I (S i) s2 w2) ->
    exists out w', forM f s (seq a k) w = (Ok out, w') /\ I (a + k)%nat out w'.
Proof.
  induction k as [|k IH]; intros a s w Hi Hstep; simpl.
  - exists s, w. by rewrite Nat.add_0_r.
  - destruct (Hstep a s w) as (s1 & w1 & Hf & Hi1); [lia | done |].
    rewrite (M_bind_run _ _ _ _ _ Hf).
    replace (a + S k)%nat with (S a + k)%nat by lia.
    apply IH; [done |]. intros i s2 w2 Hi2. apply Hstep. lia.
Qed.

Section Aggregation.

Variable env : environment.

(** The additions of lines 355-357 go through when the newest row and
    the aggregate are metadata rows in two different objects. *)
Lemma accumulate_loop_total last m indices :
  Forall (fun i => (i < 5)%nat) indices ->
  forall u w a,
    w_heap w !! last = Some (meta_row m) ->
    w_heap w !! batch_meta (w_loader w) = Some (meta_row a) ->
    last ≠ batch_meta (w_loader w) ->
    exists u' w' a',
      forM (fun _ i =>
              ld ← get_loader;
              cur ← deref last;
              meta ← lift (from_option IndexError (cur !! i));
              if bool_decide (i ∈ [2; 3; 4]%nat)
              then heap_iadd (batch_meta ld) i meta
              else mret tt) u indices w = (Ok u', w') /\
      w_dataset w' = w_dataset w /\ w_loader w' = w_loader w /\
      w_heap w' !! batch_meta (w_loader w) = Some (meta_row a').
Proof.
  induction 1 as [|i indices Hi _ IH]; intros u w a Hlast Hagg Hne.
  - exists u, w, a. done.
  - cbn [forM].
    assert (Hstep : exists w1 a1,
               (ld ← get_loader;
                cur ← deref last;
                meta ← lift (from_option IndexError (cur !! i));
                if bool_decide (i ∈ [2; 3; 4]%nat)
                then heap_iadd (batch_meta ld) i meta
                else mret tt) w = (Ok tt, w1) /\
               w_dataset w1 = w_dataset w /\ w_loader w1 = w_loader w /\
               w_heap w1 !! last = Some (meta_row m) /\
               w_heap w1 !! batch_meta (w_loader w) = Some (meta_row a1)).
    { destruct m as [[[[pa pt] pd] ps] pf], a as [[[[qa qt] qd] qs] qf].
      pose proof (lookup_lt_Some _ _ _ Hagg) as Hbound.
      destruct i as [|[|[|[|[|i]]]]]; [| | | | | lia].
      - exists w, (qa, qt, qd, qs, qf).
        erewrite M_bind_run by reflexivity.
        erewrite M_bind_run by (by apply deref_run).
        erewrite M_bind_run by (by apply lift_run).
        rewrite bool_decide_eq_false_2
          by (rewrite !elem_of_cons, elem_of_nil; lia).
        done.
      - exists w, (qa, qt, qd, qs, qf).
        erewrite M_bind_run by reflexivity.
        erewrite M_bind_run by (by apply deref_run).
        erewrite M_bind_run by (by apply lift_run).
        rewrite bool_decide_eq_false_2
          by (rewrite !elem_of_cons, elem_of_nil; lia).
        done.
      - eexists _, (qa, qt, PrimFloat.add qd pd, qs, qf).
        erewrite M_bind_run by reflexivity.
        erewrite M_bind_run by (by apply deref_run).
        erewrite M_bind_run by (by apply lift_run).
        rewrite bool_decide_eq_true_2 by (rewrite !elem_of_cons; tauto).
        erewrite heap_iadd_run; [| exact Hagg | reflexivity | reflexivity].
        split; [reflexivity |]. split; [done |]. split; [done |]. simpl.
        rewrite list_lookup_insert_ne by done.
        rewrite list_lookup_insert_eq by done. done.
      - eexists _, (qa, qt, qd, PrimFloat.add qs ps, qf).
        erewrite M_bind_run by reflexivity.
        erewrite M_bind_run by (by apply deref_run).
        erewrite M_bind_run by (by apply lift_run).
        rewrite bool_decide_eq_true_2 by (rewrite !elem_of_cons; tauto).
        erewrite heap_iadd_run; [| exact Hagg | reflexivity | reflexivity].
        split; [reflexivity |]. split; [done |]. split; [done |]. simpl.
        rewrite list_lookup_insert_ne by done.
        rewrite list_lookup_insert_eq by done. done.
      - eexists _, (qa, qt, qd, qs, qf + pf).
        erewrite M_bind_run by reflexivity.
        erewrite M_bind_run by (by apply deref_run).
        erewrite M_bind_run by (by apply lift_run).
        rewrite bool_decide_eq_true_2 by (rewrite !elem_of_cons; tauto).
        erewrite heap_iadd_run; [| exact Hagg | reflexivity | reflexivity].
        split; [reflexivity |]. split; [done |]. split; [done |]. simpl.
        rewrite list_lookup_insert_ne by done.
        rewrite list_lookup_insert_eq by done. done. }
    destruct Hstep as (w1 & a1 & Hrun & Hd1 & Hl1 & Hlast1 & Hagg1).
    rewrite (M_bind_run _ _ _ _ _ Hrun).
    destruct (IH tt w1 a1) as (u' & w' & a' & Hloop & Hd & Hl & Hagg');
      [done | by rewrite Hl1 | by rewrite Hl1 |].
    exists u', w', a'. rewrite Hloop, Hd, Hl, Hd1, Hl1.
    rewrite Hl1 in Hagg'. done.
Qed.

(** Collecting the metadata of a sample whose own row can be built
    goes through. *)
Lemma collect_meta_total w0 batch x s w :
  aggregating w0 x w ->
  batch !! x = Some s ->
  is_Some (own_row env w0 batch x) ->
  exists w', collect_meta env x (size1 (sample_0 s)) w = (Ok tt, w')
             /\ aggregating w0 (S x) w'.
Proof.
  intros [Hd Hrow] Hs [row Hown].
  destruct (own_row_meta_row _ _ _ _ _ Hown) as (m & s' & Hshape & Hs' & _).
  unfold own_row in Hown. rewrite Hs in Hown.
  destruct (py_index (access_history (w_dataset w0)) (Z.of_nat x))
    as [index|] eqn:Hindex; [|discriminate].
  destruct (get_meta env index w0).1 as [meta|] eqn:Hmeta; [|discriminate].
  injection Hown as <-.
  assert (Hget : get_meta env index w = (Ok meta, w)).
  { destruct (get_meta env index w) as [r w1] eqn:E.
    pose proof (get_meta_any _ _ _ _ _ E) as ->.
    pose proof (get_meta_dataset env index w w0 Hd) as Heq.
    rewrite E, Hmeta in Heq. simpl in Heq. by rewrite Heq. }
  unfold collect_meta.
  erewrite M_bind_run by reflexivity.
  erewrite M_bind_run by (apply lift_run; rewrite Hd; exact Hindex).
  erewrite M_bind_run by exact Hget.
  erewrite M_bind_run by reflexivity.
  erewrite M_bind_run by reflexivity.
  erewrite M_bind_run by reflexivity.
  erewrite M_bind_run by reflexivity.
  erewrite M_bind_run by (apply lift_run; apply py_index_last).
  erewrite M_bind_run.
  2:{ apply heap_append_run. simpl. rewrite lookup_app_r by lia.
      by rewrite Nat.sub_diag. }
  erewrite M_bind_run by reflexivity.
  cbn [w_loader w_heap w_dataset batch_meta item_meta set_item_meta].
  rewrite Hshape.
  assert (Hlen : forall l agg, w_heap w !! l = Some agg ->
            <[length (w_heap w) := meta_row m]> (w_heap w ++ [meta]) !! l
            = Some agg).
  { intros l agg Hl. pose proof (lookup_lt_Some _ _ _ Hl).
    rewrite list_lookup_insert_ne by lia. by rewrite lookup_app_l. }
  assert (Hnew : <[length (w_heap w) := meta_row m]> (w_heap w ++ [meta])
                 !! length (w_heap w) = Some (meta_row m)).
  { apply list_lookup_insert_eq. rewrite length_app. simpl. lia. }
  destruct x as [|x].
  - erewrite M_bind_run by (apply deref_run; simpl; by apply Hlen).
    cbn [length Nat.eqb].
    erewrite M_bind_run by (apply lift_run; apply py_index_last).
    eexists. split; [reflexivity |].
    split; simpl; [done |]. by exists m.
  - destruct Hrow as [a Hagg].
    erewrite M_bind_run by (apply deref_run; simpl; by apply Hlen).
    replace (length (meta_row a) =? 0)%nat with false
      by (by destruct a as [[[[? ?] ?] ?] ?]).
    erewrite M_bind_run by (apply lift_run; apply py_index_last).
    unfold accumulate.
    erewrite M_bind_run by (apply deref_run; exact Hnew).
    assert (Hfive : Forall (fun i => (i < 5)%nat) (seq 0 (length (meta_row m)))).
    { destruct m as [[[[? ?] ?] ?] ?]. simpl. repeat constructor; lia. }
    match goal with
    | |- context [forM _ tt _ ?W] =>
        destruct (accumulate_loop_total (length (w_heap w)) m _ Hfive tt W a)
          as (u' & w' & a' & Hloop & Hd' & Hl' & Hagg')
    end.
    + exact Hnew.
    + simpl. by apply Hlen.
    + simpl. apply lookup_lt_Some in Hagg. lia.
    + rewrite Hloop. destruct u'. eexists. split; [reflexivity |].
      split; [by rewrite Hd' |]. rewrite Hl'. by exists a'.
Qed.

End Aggregation.

(** On a well-formed batch, in a world that holds a history entry and
    readable metadata for every sample, [my_collate_fn] returns. *)
Lemma my_collate_fn_total
    (env : environment) (uninit_float : float) (uninit_int : Z)
    (batch : list sample) (F : nat) (w : world) :
  batch ≠ [] ->
  (forall s, s ∈ batch -> size0 (sample_0 s) = F) ->
  Forall collatable batch ->
  (forall j, (j < length batch)%nat -> is_Some (own_row env w batch j)) ->
  exists out w', my_collate_fn env uninit_float uninit_int batch w = (Ok out, w').
Proof.
  intros Hne HF Hwf Hmeta.
  destruct (collate_alloc_total uninit_float uninit_int batch F Hne HF)
    as (st0 & Halloc & Hinv0).
  unfold my_collate_fn.
  erewrite M_bind_run by (apply lift_run; exact Halloc).
  cbv beta iota.
  do 7 (erewrite M_bind_run by reflexivity).
  match goal with
  | |- context [(forM ?f st0 _ ≫= _) ?W] =>
      destruct (forM_seq_total f
                  (fun x st w' => pad_inv batch F (max_time batch) x st
                                  /\ aggregating w x w')
                  (length batch) 0 st0 W) as (st & w5 & Hloop & Hinv & _)
  end.
  - split; [exact Hinv0 |]. split; simpl; [done |].
    rewrite lookup_app_r by lia. by rewrite Nat.sub_diag.
  - intros i s1 w1 [_ Hi] [Hinv Hag].
    destruct (lookup_lt_is_Some_2 batch i Hi) as [s Hs].
    destruct (pad_sample_total batch F i s s1 Hinv Hs) as (s2 & Hs2).
    { apply HF. by eapply list_elem_of_lookup_2. }
    { by eapply Forall_lookup_1. }
    destruct (collect_meta_total env w batch i s w1 Hag Hs (Hmeta i Hi))
      as (w2 & Hcollect & Hag2).
    exists s2, w2.
    erewrite M_bind_run by (apply lift_run; rewrite Hs; reflexivity).
    erewrite M_bind_run by (apply lift_run; exact Hs2).
    erewrite M_bind_run by exact Hcollect.
    split; [reflexivity |]. split; [by eapply pad_sample_inv | done].
  - erewrite M_bind_run by exact Hloop.
    apply pad_inv_final in Hinv as (_ & _ & Htargets).
    erewrite M_bind_run.
    2:{ apply lift_run. rewrite Htargets. apply IntTensor_of_list_fits.
        by apply concat_labels_fit. }
    do 4 (erewrite M_bind_run by reflexivity).
    by eexists _, _.
Qed.

(** C7.  On a non-empty, well-formed batch every collator returns (the
    path and the auxiliary collator on samples of their kind, the
    metadata collator in a world that holds a history entry and readable
    metadata for every sample); and whatever batch a collator returns
    on, the per-sample label counts it returns add up to the length of
    the flat label sequence, and that sequence is the concatenation of
    the samples' labels in input order; this holds for the plain, the
    path, the auxiliary and the metadata collator. *)
Theorem target_sizes_sum_to_targets_length
    (env : environment) (uninit_float : float) (uninit_int : Z)
    (batch : list sample) :
  (forall F C,
      batch ≠ [] ->
      Forall (fun s => size0 (sample_0 s) = F) batch ->
      Forall collatable batch ->
      is_Ok (_collate_fn uninit_float uninit_int batch)
      /\ ((forall s, s ∈ batch -> is_Ok (sample_2 s)) ->
          is_Ok (_collate_fn_paths uninit_float uninit_int batch))
      /\ ((forall s, s ∈ batch ->
                     exists t l p g, s = WithLogits t l p g /\ size1 g = C) ->
          is_Ok (_collate_fn_logits uninit_float uninit_int batch))
      /\ (forall w,
             (forall j, (j < length batch)%nat ->
                        is_Some (own_row env w batch j)) ->
             exists out w',
               my_collate_fn env uninit_float uninit_int batch w = (Ok out, w')))
  /\ (forall out,
      _collate_fn uninit_float uninit_int batch = Ok out ->
      sum_Z (target_sizes4 out) = Z.of_nat (length (targets4 out))
      /\ targets4 out = concat (sample_1 <$> batch)
      /\ target_sizes4 out = (fun s => Z.of_nat (length (sample_1 s))) <$> batch)
  /\ (forall out,
      _collate_fn_paths uninit_float uninit_int batch = Ok out ->
      sum_Z (target_sizes6 out) = Z.of_nat (length (targets6 out))
      /\ targets6 out = concat (sample_1 <$> batch)
      /\ target_sizes6 out = (fun s => Z.of_nat (length (sample_1 s))) <$> batch)
  /\ (forall out,
      _collate_fn_logits uninit_float uninit_int batch = Ok out ->
      sum_Z (target_sizes6 out) = Z.of_nat (length (targets6 out))
      /\ targets6 out = concat (sample_1 <$> batch)
      /\ target_sizes6 out = (fun s => Z.of_nat (length (sample_1 s))) <$> batch)
  /\ (forall w out w',
      my_collate_fn env uninit_float uninit_int batch w = (Ok out, w') ->
      sum_Z (target_sizes4 out) = Z.of_nat (length (targets4 out))
      /\ targets4 out = concat (sample_1 <$> batch)
      /\ target_sizes4 out = (fun s => Z.of_nat (length (sample_1 s))) <$> batch).
Proof.
  split; [|split; [|split; [|split]]].
  - intros F C Hne HF Hwf. rewrite Forall_forall in HF.
    split; [by eapply _collate_fn_total |].
    split; [intros Hpaths; by eapply _collate_fn_paths_total |].
    split; [intros Hlogits; by eapply _collate_fn_logits_total |].
    intros w Hmeta. by eapply my_collate_fn_total.
  - intros out H.
    apply _collate_fn_run in H as (? & st & _ & Hinv & _ & -> & _ & ->).
    apply pad_inv_final in Hinv as (-> & _ & ->).
    split; [apply sum_label_lengths | done].
  - intros out H.
    apply _collate_fn_paths_run in H as (? & st & _ & Hinv & _ & -> & _ & -> & _).
    apply pad_inv_final in Hinv as (-> & _ & ->).
    split; [apply sum_label_lengths | done].
  - intros out H.
    apply _collate_fn_logits_run in H
      as (? & st & ? & ? & ? & _ & Hinv & _ & -> & _ & -> & _).
    apply pad_inv_final in Hinv as (-> & _ & ->).
    split; [apply sum_label_lengths | done].
  - intros w out w' H.
    apply my_collate_fn_run in H as [(? & st & _ & Hinv & _ & -> & _ & ->) _].
    apply pad_inv_final in Hinv as (-> & _ & ->).
    split; [apply sum_label_lengths | done].
Qed.

Lemma target_sizes_sum_to_targets_length_witness :
  (exists out,
      _collate_fn 0%float 0 plain_batch = Ok out /\
      sum_Z (target_sizes4 out) = 3 /\
      targets4 out = [1; 2; 2] /\ target_sizes4 out = [2; 1])
  /\ (exists out,
      _collate_fn_paths 0%float 0 path_batch = Ok out /\
      sum_Z (target_sizes6 out) = 3 /\
      targets6 out = [1; 2; 2] /\ target_sizes6 out = [2; 1])
  /\ (exists out,
      _collate_fn_logits 0%float 0 logits_batch = Ok out /\
      sum_Z (target_sizes6 out) = 3 /\
      targets6 out = [1; 2; 2] /\ target_sizes6 out = [2; 1])
  /\ (exists out w',
      my_collate_fn scenario_env 0%float 0 plain_batch drawn_world = (Ok out, w') /\
      sum_Z (target_sizes4 out) = 3 /\
      targets4 out = [1; 2; 2] /\ target_sizes4 out = [2; 1]).
Proof.
  destruct (target_sizes_sum_to_targets_length scenario_env 0%float 0 plain_batch)
    as (Hreturns & Hplain & _ & _ & Hmeta).
  destruct (target_sizes_sum_to_targets_length scenario_env 0%float 0 path_batch)
    as (Hreturns_paths & _ & Hpaths & _ & _).
  destruct (target_sizes_sum_to_targets_length scenario_env 0%float 0 logits_batch)
    as (Hreturns_logits & _ & _ & Hlogits & _).
  destruct (Hreturns 4%nat 10%nat) as ([out E] & _ & _ & Hrun);
    [discriminate | repeat constructor | repeat constructor; vm_compute; congruence |].
  destruct (Hreturns_paths 4%nat 10%nat) as (_ & Hrun_paths & _ & _);
    [discriminate | repeat constructor | repeat constructor; vm_compute; congruence |].
  destruct Hrun_paths as [out_paths E_paths].
  { intros s Hs. unfold path_batch in Hs. rewrite !elem_of_cons in Hs.
    destruct Hs as [->|[->|Hs]];
      [by eexists | by eexists | by apply elem_of_nil in Hs]. }
  destruct (Hreturns_logits 4%nat 10%nat) as (_ & _ & Hrun_logits & _);
    [discriminate | repeat constructor | repeat constructor; vm_compute; congruence |].
  destruct Hrun_logits as [out_logits E_logits].
  { intros s Hs. unfold logits_batch in Hs. rewrite !elem_of_cons in Hs.
    destruct Hs as [->|[->|Hs]];
      [by eexists _, _, _, _ | by eexists _, _, _, _ | by apply elem_of_nil in Hs]. }
  destruct (Hrun drawn_world) as (out_meta & w' & E_meta).
  { intros j Hj.
    destruct j as [|[|j]]; [| | simpl in Hj; lia].
    - destruct (own_row scenario_env drawn_world plain_batch 0) eqn:Hrow;
        [by eexists | vm_compute in Hrow; discriminate Hrow].
    - destruct (own_row scenario_env drawn_world plain_batch 1) eqn:Hrow;
        [by eexists | vm_compute in Hrow; discriminate Hrow]. }
  split; [|split; [|split]].
  - exists out. split; [exact E |].
    destruct (Hplain out E) as (Hsum & Htargets & Hsizes).
    rewrite Hsum, Htargets, Hsizes. repeat split.
  - exists out_paths. split; [exact E_paths |].
    destruct (Hpaths out_paths E_paths) as (Hsum & Htargets & Hsizes).
    rewrite Hsum, Htargets, Hsizes. repeat split.
  - exists out_logits. split; [exact E_logits |].
    destruct (Hlogits out_logits E_logits) as (Hsum & Htargets & Hsizes).
    rewrite Hsum, Htargets, Hsizes. repeat split.
  - exists out_meta, w'. split; [exact E_meta |].
    destruct (Hmeta drawn_world out_meta w' E_meta) as (Hsum & Htargets & Hsizes).
    rewrite Hsum, Htargets, Hsizes. repeat split.
Defined.
